(** * Notebooks of ml-scratch: shapes, sequences and training loops

    A shallow embedding of the code cells of the notebooks (padding and
    stride, LeNet, deferred initialization, multi-GPU training, machine
    translation with attention, the MNIST perceptron), followed by the
    properties proved about them.

    Part I holds the definitions, one module per notebook; Part II holds
    the lemmas and theorems, in modules of the same names suffixed
    [_facts]. *)

From Stdlib Require Import ZArith List Lia Bool String Ascii Reals Lra.
From stdpp Require Import base option list gmap.
Import ListNotations.
Open Scope nat_scope.

(* ===================================================================== *)
(** * Part I: the embedding                                               *)
(* ===================================================================== *)

(** ** NDArrays

    An [nd.NDArray] is a shape and a row-major buffer of scalars.  The
    scalar type is kept abstract: the notebooks use float32, and nothing
    proved about shapes depends on it. *)
Module NDArrays.

Inductive Activation := relu | sigmoid | tanh.

Class Scalar (A : Type) := {
  szero : A;
  sadd : A -> A -> A;
  smul : A -> A -> A;
  sdivn : A -> nat -> A;
  sact : Activation -> A -> A
}.

Record NDArray (A : Type) := mkND { shape : list nat; data : list A }.
Arguments mkND {A} _ _.
Arguments shape {A} _.
Arguments data {A} _.

(** Number of elements of a shape ([X.size]). *)
Definition size (s : list nat) : nat := fold_right Nat.mul 1 s.

(** The buffer holds exactly [size (shape X)] scalars. *)
Definition wf {A} (X : NDArray A) : Prop := length (data X) = size (shape X).

(** [X.reshape(s)] for a fully given target shape: the buffer is kept and
    the element counts must agree (the framework raises otherwise). *)
Definition reshape {A} (s : list nat) (X : NDArray A) : option (NDArray A) :=
  if size s =? size (shape X) then Some (mkND s (data X)) else None.

(** [X[n, c, i, j]] of a 4-D array of shape (N, C, H, W). *)
Definition at4 `{Scalar A} (X : NDArray A) (n c i j : nat) : A :=
  match shape X with
  | [_; C; H; W] => nth (((n * C + c) * H + i) * W + j) (data X) szero
  | _ => szero
  end.

(** Sum of a list of scalars, left to right. *)
Definition ssum `{Scalar A} (l : list A) : A := fold_left sadd l szero.

Definition apply_act `{Scalar A} (act : option Activation) (x : A) : A :=
  match act with Some a => sact a x | None => x end.

(** The scalars read as real numbers. *)
#[export] Instance Scalar_R : Scalar R := {|
  szero := 0%R;
  sadd := Rplus;
  smul := Rmult;
  sdivn := fun x n => (x / INR n)%R;
  sact := fun a x =>
    match a with
    | relu => Rmax 0 x
    | sigmoid => (1 / (1 + exp (- x)))%R
    | tanh => Rtrigo_def.tanh x
    end
|}.

End NDArrays.

(** ** Gluon layers used by the notebooks

    The layers [nn.Conv2D], [nn.AvgPool2D] and [nn.Dense] belong to the
    tensor framework the notebooks import, not to the repository.  They
    are written here as the notebooks describe them: a window that starts
    at the top-left corner of the zero-padded input and slides by the
    stride for as long as the input fills it; a dense layer that flattens
    all but the first axis.  The parameter values that [initialize()]
    draws are arguments of the layer. *)
Module Gluon.
Import NDArrays.

(** An int argument of a layer stands for the pair ([kernel_size=3]). *)
Definition both (k : nat) : nat * nat := (k, k).

Inductive Layer (A : Type) :=
| Conv2D (channels : nat) (kernel_size strides padding : nat * nat)
         (activation : option Activation)
         (weight : nat -> nat -> nat -> nat -> A) (bias : nat -> A)
| AvgPool2D (pool_size strides padding : nat * nat)
| Dense (units : nat) (activation : option Activation)
        (weight : nat -> nat -> A) (bias : nat -> A).
Arguments Conv2D {A} _ _ _ _ _ _ _.
Arguments AvgPool2D {A} _ _ _.
Arguments Dense {A} _ _ _ _.

(** Modelled from the spec: the positions of the window of the
    framework's convolution and pooling along one axis, which the
    repository does not contain.  As the notebook has it, the window
    starts at the first cell and slides by the stride: [start],
    [start + s], ... for as long as a window of [k] cells fits in [len]
    cells.  [fuel] bounds the number of slides. *)
Fixpoint slide_from (fuel start len k s : nat) : list nat :=
  match fuel with
  | 0 => []
  | S fuel' =>
      if start + k <=? len
      then start :: slide_from fuel' (start + s) len k s
      else []
  end.

Definition windows (len k s : nat) : list nat := slide_from (S len) 0 len k s.

(** The zero-padded input: [p] rows (columns) of zeros on either side. *)
Definition at4_pad `{Scalar A} (X : NDArray A) (ph pw : nat) (n c i j : nat) : A :=
  match shape X with
  | [_; _; H; W] =>
      if (ph <=? i) && (i <? ph + H) && (pw <=? j) && (j <? pw + W)
      then at4 X n c (i - ph) (j - pw)
      else szero
  | _ => szero
  end.

(** All cells [(a, b)] of a [kh] x [kw] window. *)
Definition cells (kh kw : nat) : list (nat * nat) :=
  a ← seq 0 kh; b ← seq 0 kw; [(a, b)].

(** One output element of the cross-correlation: the window at [(i, j)]
    of every input channel against the kernel of output channel [co]. *)
Definition corr_at `{Scalar A} (X : NDArray A) (C kh kw ph pw : nat)
    (w : nat -> nat -> nat -> nat -> A) (b : nat -> A) (n co i j : nat) : A :=
  sadd
    (ssum (ci ← seq 0 C;
           map (fun ab => smul (at4_pad X ph pw n ci (i + fst ab) (j + snd ab))
                               (w co ci (fst ab) (snd ab)))
               (cells kh kw)))
    (b co).

(** The mean of the window at [(i, j)] of channel [c]. *)
Definition pool_at `{Scalar A} (X : NDArray A) (kh kw ph pw : nat) (n c i j : nat) : A :=
  sdivn
    (ssum (map (fun ab => at4_pad X ph pw n c (i + fst ab) (j + snd ab))
               (cells kh kw)))
    (kh * kw).

(** Modelled from the spec: the forward computation of the framework's
    layers [nn.Conv2D], [nn.AvgPool2D] and [nn.Dense], which the
    repository does not contain.  [None] stands for the framework's
    exception: an input that is not 4-D for a convolution or a pooling, a
    zero stride, a window larger than the padded input. *)
Definition forward `{Scalar A} (l : Layer A) (X : NDArray A) : option (NDArray A) :=
  match l with
  | Conv2D channels (kh, kw) (sh, sw) (ph, pw) act w b =>
      match shape X with
      | [N; C; H; W] =>
          if (0 <? sh) && (0 <? sw)
             && (kh <=? H + 2 * ph) && (kw <=? W + 2 * pw)
          then
            let wh := windows (H + 2 * ph) kh sh in
            let ww := windows (W + 2 * pw) kw sw in
            Some (mkND [N; channels; length wh; length ww]
                    (n ← seq 0 N; co ← seq 0 channels; i ← wh; j ← ww;
                     [apply_act act (corr_at X C kh kw ph pw w b n co i j)]))
          else None
      | _ => None
      end
  | AvgPool2D (kh, kw) (sh, sw) (ph, pw) =>
      match shape X with
      | [N; C; H; W] =>
          if (0 <? sh) && (0 <? sw)
             && (kh <=? H + 2 * ph) && (kw <=? W + 2 * pw)
          then
            let wh := windows (H + 2 * ph) kh sh in
            let ww := windows (W + 2 * pw) kw sw in
            Some (mkND [N; C; length wh; length ww]
                    (n ← seq 0 N; c ← seq 0 C; i ← wh; j ← ww;
                     [pool_at X kh kw ph pw n c i j]))
          else None
      | _ => None
      end
  | Dense units act w b =>
      match shape X with
      | N :: rest =>
          let K := size rest in
          Some (mkND [N; units]
                  (n ← seq 0 N; u ← seq 0 units;
                   [apply_act act
                      (sadd (ssum (map (fun k => smul (nth (n * K + k) (data X) szero) (w u k))
                                       (seq 0 K)))
                            (b u))]))
      | [] => None
      end
  end.

(** Two layers of one kind that agree on channels (units), window, stride
    and padding; activation and parameter values may differ. *)
Definition same_geometry {A} (l1 l2 : Layer A) : Prop :=
  match l1, l2 with
  | Conv2D c1 k1 s1 p1 _ _ _, Conv2D c2 k2 s2 p2 _ _ _ =>
      c1 = c2 /\ k1 = k2 /\ s1 = s2 /\ p1 = p2
  | AvgPool2D k1 s1 p1, AvgPool2D k2 s2 p2 => k1 = k2 /\ s1 = s2 /\ p1 = p2
  | Dense u1 _ _ _, Dense u2 _ _ _ => u1 = u2
  | _, _ => False
  end.

End Gluon.

(** ** Padding and stride ([padding-and-strides] notebook) *)
Module PaddingStrides.
Import NDArrays Gluon.

(** [comp_conv2d(conv2d, X)]: add the batch and channel axes, run the
    layer, drop the first two axes of the result.  [conv2d.initialize()]
    draws the parameter values, which the layer carries here. *)
Definition comp_conv2d `{Scalar A} (conv2d : Layer A) (X : NDArray A) : option (NDArray A) :=
  X' ← reshape ([1; 1] ++ shape X) X;
  Y ← forward conv2d X';
  reshape (drop 2 (shape Y)) Y.

(** The output size along one axis as the notebook's text gives it:
    [floor((n - k + p + s) / s)] for input size [n], window size [k],
    [p] padded rows or columns in total and stride [s]. *)
Definition out_dim (n k p s : nat) : Z :=
  ((Z.of_nat n - Z.of_nat k + Z.of_nat p + Z.of_nat s) / Z.of_nat s)%Z.

(** An 8 x 8 array of zeros, for examples. *)
Definition X_8x8 : NDArray R := mkND [8; 8] (replicate 64 0%R).

End PaddingStrides.

(** ** LeNet ([lenet] notebook) *)
Module LeNet.
Import NDArrays Gluon.

(** The parameter values that [net.initialize()] draws. *)
Record Params (A : Type) := {
  conv0_weight : nat -> nat -> nat -> nat -> A;  conv0_bias : nat -> A;
  conv1_weight : nat -> nat -> nat -> nat -> A;  conv1_bias : nat -> A;
  dense0_weight : nat -> nat -> A;  dense0_bias : nat -> A;
  dense1_weight : nat -> nat -> A;  dense1_bias : nat -> A;
  dense2_weight : nat -> nat -> A;  dense2_bias : nat -> A
}.
Arguments conv0_weight {A} _. Arguments conv0_bias {A} _.
Arguments conv1_weight {A} _. Arguments conv1_bias {A} _.
Arguments dense0_weight {A} _. Arguments dense0_bias {A} _.
Arguments dense1_weight {A} _. Arguments dense1_bias {A} _.
Arguments dense2_weight {A} _. Arguments dense2_bias {A} _.

(** [net = nn.Sequential(); net.add(...)].  Defaults of the framework:
    stride 1 and padding 0 for a convolution, padding 0 for a pooling. *)
Definition net {A} (p : Params A) : list (Layer A) :=
  [ Conv2D 6 (both 5) (both 1) (both 2) (Some sigmoid) (conv0_weight p) (conv0_bias p);
    AvgPool2D (both 2) (both 2) (both 0);
    Conv2D 16 (both 5) (both 1) (both 0) (Some sigmoid) (conv1_weight p) (conv1_bias p);
    AvgPool2D (both 2) (both 2) (both 0);
    Dense 120 (Some sigmoid) (dense0_weight p) (dense0_bias p);
    Dense 84 (Some sigmoid) (dense1_weight p) (dense1_bias p);
    Dense 10 None (dense2_weight p) (dense2_bias p) ].

(** [for layer in net: X = layer(X); print(..., X.shape)]: the final
    array and the shapes printed, in order. *)
Fixpoint layer_by_layer `{Scalar A} (layers : list (Layer A)) (X : NDArray A)
    : option (NDArray A * list (list nat)) :=
  match layers with
  | [] => Some (X, [])
  | layer :: rest =>
      X' ← forward layer X;
      r ← layer_by_layer rest X';
      Some (r.1, shape X' :: r.2)
  end.

(** Parameters that are all zero, for examples. *)
Definition zero_params : Params R := {|
  conv0_weight := fun _ _ _ _ => 0%R;  conv0_bias := fun _ => 0%R;
  conv1_weight := fun _ _ _ _ => 0%R;  conv1_bias := fun _ => 0%R;
  dense0_weight := fun _ _ => 0%R;  dense0_bias := fun _ => 0%R;
  dense1_weight := fun _ _ => 0%R;  dense1_bias := fun _ => 0%R;
  dense2_weight := fun _ _ => 0%R;  dense2_bias := fun _ => 0%R
|}.

End LeNet.

(** ** LeNet: the accuracy of a network on a data set

    [acc_sum] is a float32 array and so are the predictions, the labels
    after [astype('float32')] and the result of [==]; the values they
    hold here are integers (class indexes and counts), kept as integers
    with the rounding of float32 written out.  No index, label or count
    of an array reaches the largest float32, so there is no infinity.
    The last division is read as the quotient of real numbers. *)
Module Accuracy.

(** The network as [evaluate_accuracy] uses it: [net(X)] on a batch of
    examples and [.argmax(axis=1)] on its scores, one class index per
    row of scores. *)
Record Classifier := {
  Example : Type;
  Scores : Type;
  net : list Example -> Scores;
  argmax : Scores -> list nat
}.

(** The float32 nearest to a non-negative integer, ties to the even
    significand: the integer itself below [2 ^ 24], and beyond a multiple
    of [2 ^ e], where [e] is the binary exponent less the 23 bits of the
    fraction. *)
Definition float32 (z : Z) : Z :=
  let e := (Z.log2 z - 23)%Z in
  if (e <=? 0)%Z then z
  else
    let q := (z / 2 ^ e)%Z in
    let r := (z mod 2 ^ e)%Z in
    let half := (2 ^ (e - 1))%Z in
    let q' := if (r <? half)%Z then q
              else if (half <? r)%Z then (q + 1)%Z
              else if Z.even q then q else (q + 1)%Z in
    (q' * 2 ^ e)%Z.

(** Whether a predicted class and a label are the same float32. *)
Definition same_class (a b : nat) : bool :=
  (float32 (Z.of_nat a) =? float32 (Z.of_nat b))%Z.

(** [p == y] on two one-dimensional arrays: entry by entry when they have
    the same number of entries; an array of one entry is broadcast along
    the other; any other pair of lengths is refused. *)
Definition broadcast_equal (p y : list nat) : option (list bool) :=
  if length p =? length y then Some (zip_with same_class p y)
  else if length y =? 1 then Some (map (fun a => same_class a (hd 0 y)) p)
  else if length p =? 1 then Some (map (fun b => same_class (hd 0 p) b) y)
  else None.

(** [.sum()] of an array of zeros and ones, the entries added one after
    the other in float32. *)
Definition sum32 (eq : list bool) : Z :=
  fold_left (fun acc (b : bool) => float32 (acc + (if b then 1 else 0))) eq 0%Z.

(** The loop of [evaluate_accuracy]: [acc_sum] and [n] after the last
    batch; [None] when [==] refuses a batch.  The labels of a batch are a
    one-dimensional array, as the data iterators of the notebook yield
    them. *)
Fixpoint evaluate_loop (c : Classifier) (data_iter : list (list (Example c) * list nat))
    (acc_sum n : Z) : option (Z * Z) :=
  match data_iter with
  | [] => Some (acc_sum, n)
  | (X, y) :: rest =>
      eq ← broadcast_equal (argmax c (net c X)) y;
      evaluate_loop c rest (float32 (acc_sum + sum32 eq)) (n + Z.of_nat (length y))
  end.

(** [evaluate_accuracy(data_iter, net, ctx)]; [None] also when no
    example was seen, the quotient 0 / 0 being not a number. *)
Definition evaluate_accuracy (c : Classifier) (data_iter : list (list (Example c) * list nat))
    : option R :=
  r ← evaluate_loop c data_iter 0 0;
  if (r.2 =? 0)%Z then None else Some (IZR r.1 / IZR r.2)%R.

(** The number of positions at which two arrays hold the same class. *)
Definition matches (p y : list nat) : nat :=
  length (List.filter (fun b : bool => b) (zip_with same_class p y)).

(** A classifier of natural numbers by parity, for examples. *)
Definition parity : Classifier := {|
  Example := nat;
  Scores := list nat;
  net := fun X => map (fun x => x mod 2) X;
  argmax := fun s => s
|}.

End Accuracy.

(** ** The MNIST perceptron ([mnist] notebook) *)
Module Mnist.
Import NDArrays Gluon.

Record Params (A : Type) := {
  fc0_weight : nat -> nat -> A;  fc0_bias : nat -> A;
  fc1_weight : nat -> nat -> A;  fc1_bias : nat -> A;
  fc2_weight : nat -> nat -> A;  fc2_bias : nat -> A
}.
Arguments fc0_weight {A} _. Arguments fc0_bias {A} _.
Arguments fc1_weight {A} _. Arguments fc1_bias {A} _.
Arguments fc2_weight {A} _. Arguments fc2_bias {A} _.

(** [net.add(nn.Dense(128, activation='relu'))], [net.add(nn.Dense(64,
    activation='relu'))], [net.add(nn.Dense(10))]. *)
Definition net {A} (p : Params A) : list (Layer A) :=
  [ Dense 128 (Some relu) (fc0_weight p) (fc0_bias p);
    Dense 64 (Some relu) (fc1_weight p) (fc1_bias p);
    Dense 10 None (fc2_weight p) (fc2_bias p) ].

(** The activation a layer applies to its output, if any. *)
Definition activation_of {A} (l : Layer A) : option Activation :=
  match l with
  | Conv2D _ _ _ _ act _ _ => act
  | AvgPool2D _ _ _ => None
  | Dense _ act _ _ => act
  end.

Definition is_dense {A} (l : Layer A) : bool :=
  match l with Dense _ _ _ _ => true | _ => false end.

(** A fully-connected transform followed by a nonlinearity. *)
Definition dense_then_nonlinearity {A} (l : Layer A) : bool :=
  is_dense l && bool_decide (is_Some (activation_of l)).

(** The affine transform [X W^T + b] of a dense layer with [units]
    outputs, element [(n, u)]. *)
Definition affine_at `{Scalar A} (w : nat -> nat -> A) (b : nat -> A)
    (X : NDArray A) (n u : nat) : A :=
  let K := size (tail (shape X)) in
  sadd (ssum (map (fun k => smul (nth (n * K + k) (data X) szero) (w u k)) (seq 0 K)))
       (b u).

(** Parameters that are all zero, for examples. *)
Definition zero_params : Params R := {|
  fc0_weight := fun _ _ => 0%R;  fc0_bias := fun _ => 0%R;
  fc1_weight := fun _ _ => 0%R;  fc1_bias := fun _ => 0%R;
  fc2_weight := fun _ _ => 0%R;  fc2_bias := fun _ => 0%R
|}.

End Mnist.

(** ** Deferred initialization ([deferred-init] notebook)

    The parameter machinery ([Parameter], [Block.initialize], the shape
    inference of the first forward computation) is the framework's.  It
    is written here as the notebook describes and shows it: a dimension 0
    in a shape is one that is not known yet; [initialize] runs the
    initializer at once on a parameter whose shape is known and postpones
    it otherwise; the first forward computation infers the missing
    dimension from its input and then runs the postponed initializer. *)
Module DeferredInit.
Import NDArrays.

(** [MyInit] is the notebook's class; [Zeros] is the initializer a dense
    layer gives its bias; [Uniform] is the default of [initialize()]. *)
Inductive Initializer := MyInit | Zeros | Uniform.

Inductive PKind := weight | bias.

(** The parameter [dense<block>_<kind>]. *)
Record PName := { block : nat; kind : PKind }.

Inductive PState :=
| Fresh                               (* created, initialize() not called *)
| Deferred (init : Initializer)       (* initialize() called, shape unknown *)
| Ready.                              (* allocated and initialized *)

(** A [gluon.Parameter]. *)
Record GParameter := {
  pname : PName;
  pshape : list nat;
  own_init : option Initializer;
  pstate : PState
}.

Record DenseBlock := {
  units : nat;
  activation : option Activation;
  weight_p : GParameter;
  bias_p : GParameter
}.

(** One line printed by [MyInit._init_weight]: ['Init', name, data.shape]. *)
Record InitLine := { line_name : PName; line_shape : list nat }.

(** The interpreter state the cells act on: the counter that numbers the
    dense blocks created so far, and what has been printed. *)
Record World := { created : nat; stdout : list InitLine }.

(** [nn.Dense(units, in_units=in_units, activation=act)]; [in_units = 0]
    when the argument is left out. *)
Definition Dense (units in_units : nat) (act : option Activation) (w : World)
    : DenseBlock * World :=
  let id := created w in
  ({| units := units; activation := act;
      weight_p := {| pname := {| block := id; kind := weight |};
                     pshape := [units; in_units]; own_init := None; pstate := Fresh |};
      bias_p := {| pname := {| block := id; kind := bias |};
                   pshape := [units]; own_init := Some Zeros; pstate := Fresh |} |},
   {| created := S id; stdout := stdout w |}).

(** [getnet()]. *)
Definition getnet (w : World) : list DenseBlock * World :=
  let (d0, w1) := Dense 256 0 (Some relu) w in
  let (d1, w2) := Dense 10 0 None w1 in
  ([d0; d1], w2).

(** [_init_weight(name, data)] of each initializer: [MyInit] prints and
    does nothing else, the others print nothing. *)
Definition _init_weight (i : Initializer) (name : PName) (data_shape : list nat)
    : list InitLine :=
  match i with
  | MyInit => [ {| line_name := name; line_shape := data_shape |} ]
  | Zeros | Uniform => []
  end.

Definition shape_known (s : list nat) : bool := forallb (fun d => 0 <? d) s.

Definition set_state (p : GParameter) (st : PState) : GParameter :=
  {| pname := pname p; pshape := pshape p; own_init := own_init p; pstate := st |}.

Definition set_shape (p : GParameter) (s : list nat) : GParameter :=
  {| pname := pname p; pshape := s; own_init := own_init p; pstate := pstate p |}.

Definition is_ready (p : GParameter) : bool :=
  match pstate p with Ready => true | _ => false end.

(** Modelled from the spec: [Parameter.initialize(default_init=init,
    force_reinit=...)] of the framework, which the repository does not
    contain.  A parameter that is initialized is left alone unless
    [force_reinit]; one whose shape is known is initialized at once, by
    its own initializer when it has one; any other waits. *)
Definition param_initialize (init : Initializer) (force_reinit : bool)
    (p : GParameter) (out : list InitLine) : GParameter * list InitLine :=
  if is_ready p && negb force_reinit then (p, out)
  else
    let i := default init (own_init p) in
    if shape_known (pshape p)
    then (set_state p Ready, out ++ _init_weight i (pname p) (pshape p))
    else (set_state p (Deferred i), out).

(** [net.initialize(init=..., force_reinit=...)]: every parameter of
    every block, weight before bias. *)
Fixpoint initialize (init : Initializer) (force_reinit : bool)
    (net : list DenseBlock) (out : list InitLine) : list DenseBlock * list InitLine :=
  match net with
  | [] => ([], out)
  | d :: rest =>
      let (wp, out1) := param_initialize init force_reinit (weight_p d) out in
      let (bp, out2) := param_initialize init force_reinit (bias_p d) out1 in
      let (rest', out3) := initialize init force_reinit rest out2 in
      ({| units := units d; activation := activation d; weight_p := wp; bias_p := bp |}
         :: rest', out3)
  end.

(** Modelled from the spec: what the framework does at the first use of
    a parameter, once its shape [s] has been inferred from the input (the
    repository does not contain it): a postponed initializer runs now; a
    parameter that was never initialized, or whose shape disagrees with
    the input, is an error. *)
Definition param_use (s : list nat) (p : GParameter) (out : list InitLine)
    : option (GParameter * list InitLine) :=
  match pstate p with
  | Fresh => None
  | Deferred i =>
      if shape_known s
      then Some (set_state (set_shape p s) Ready, out ++ _init_weight i (pname p) s)
      else None
  | Ready => if bool_decide (pshape p = s) then Some (p, out) else None
  end.

(** Forward computation of one dense block on an input of shape [xs]:
    the new block, the output shape and the output printed. *)
Definition dense_forward (d : DenseBlock) (xs : list nat) (out : list InitLine)
    : option (DenseBlock * list nat * list InitLine) :=
  match xs with
  | [] => None
  | n :: feat =>
      r1 ← param_use [units d; size feat] (weight_p d) out;
      r2 ← param_use [units d] (bias_p d) r1.2;
      Some ({| units := units d; activation := activation d;
               weight_p := r1.1; bias_p := r2.1 |}, [n; units d], r2.2)
  end.

(** [net(x)] for [x] of shape [xs]. *)
Fixpoint net_forward (net : list DenseBlock) (xs : list nat) (out : list InitLine)
    : option (list DenseBlock * list nat * list InitLine) :=
  match net with
  | [] => Some ([], xs, out)
  | d :: rest =>
      r ← dense_forward d xs out;
      r' ← net_forward rest r.1.2 r.2;
      Some (r.1.1 :: r'.1.1, r'.1.2, r'.2)
  end.

(** [net.collect_params()], restricted to the weights: name and shape. *)
Definition weight_shapes (net : list DenseBlock) : list (list nat) :=
  map (fun d => pshape (weight_p d)) net.


(** *** Stacks of dense layers, to state the general behaviour

    [nn.Sequential()] with one [nn.Dense(units, activation=act)] added
    per entry of [layers], none with [in_units]. *)
Fixpoint dense_stack (layers : list (nat * option Activation)) (w : World)
    : list DenseBlock * World :=
  match layers with
  | [] => ([], w)
  | (u, act) :: rest =>
      let (d, w1) := Dense u 0 act w in
      let (ds, w2) := dense_stack rest w1 in
      (d :: ds, w2)
  end.

Definition weight_name (id : nat) : PName := {| block := id; kind := weight |}.
Definition bias_name (id : nat) : PName := {| block := id; kind := bias |}.

(** The stack numbered from [id] as built, [initialize] not yet called. *)
Fixpoint fresh_stack (id : nat) (layers : list (nat * option Activation))
    : list DenseBlock :=
  match layers with
  | [] => []
  | (u, act) :: rest =>
      {| units := u; activation := act;
         weight_p := {| pname := weight_name id; pshape := [u; 0];
                        own_init := None; pstate := Fresh |};
         bias_p := {| pname := bias_name id; pshape := [u];
                      own_init := Some Zeros; pstate := Fresh |} |}
        :: fresh_stack (S id) rest
  end.

(** Every layer has at least one unit. *)
Definition positive_units (layers : list (nat * option Activation)) : Prop :=
  Forall (fun l => 0 < l.1) layers.

(** The stack numbered from [id] after [initialize(init=init)]: weights
    wait for their input dimension, biases are initialized. *)
Fixpoint postponed_stack (init : Initializer) (id : nat)
    (layers : list (nat * option Activation)) : list DenseBlock :=
  match layers with
  | [] => []
  | (u, act) :: rest =>
      {| units := u; activation := act;
         weight_p := {| pname := weight_name id; pshape := [u; 0];
                        own_init := None; pstate := Deferred init |};
         bias_p := {| pname := bias_name id; pshape := [u];
                      own_init := Some Zeros; pstate := Ready |} |}
        :: postponed_stack init (S id) rest
  end.

(** The stack once every shape is known, for [in_units] input features. *)
Fixpoint ready_stack (id in_units : nat) (layers : list (nat * option Activation))
    : list DenseBlock :=
  match layers with
  | [] => []
  | (u, act) :: rest =>
      {| units := u; activation := act;
         weight_p := {| pname := weight_name id; pshape := [u; in_units];
                        own_init := None; pstate := Ready |};
         bias_p := {| pname := bias_name id; pshape := [u];
                      own_init := Some Zeros; pstate := Ready |} |}
        :: ready_stack (S id) u rest
  end.

(** One line per weight, in the order of the layers. *)
Fixpoint init_lines (id in_units : nat) (layers : list (nat * option Activation))
    : list InitLine :=
  match layers with
  | [] => []
  | (u, _) :: rest =>
      {| line_name := weight_name id; line_shape := [u; in_units] |}
        :: init_lines (S id) u rest
  end.

(** The shape of the output for an input of shape [xs]. *)
Fixpoint stack_output (xs : list nat) (layers : list (nat * option Activation))
    : list nat :=
  match layers with
  | [] => xs
  | (u, _) :: rest => stack_output [hd 0 xs; u] rest
  end.

End DeferredInit.

(** ** Deferred initialization: when the shapes are known

    The last two cells of the notebook, on the same machinery. *)
Module ForcedInit.
Import NDArrays DeferredInit.

(** [nn.Sequential()] with one
    [nn.Dense(units, in_units=in_units, activation=act)] added per entry
    of [layers]. *)
Fixpoint dense_stack_in (layers : list (nat * nat * option Activation)) (w : World)
    : list DenseBlock * World :=
  match layers with
  | [] => ([], w)
  | (u, k, act) :: rest =>
      let (d, w1) := Dense u k act w in
      let (ds, w2) := dense_stack_in rest w1 in
      (d :: ds, w2)
  end.

(** One line per weight with the shape its layer declares, in the order
    of the layers. *)
Fixpoint declared_lines (id : nat) (layers : list (nat * nat * option Activation))
    : list InitLine :=
  match layers with
  | [] => []
  | (u, k, _) :: rest =>
      {| line_name := weight_name id; line_shape := [u; k] |}
        :: declared_lines (S id) rest
  end.

(** Every parameter of the network is allocated and initialized. *)
Definition all_ready (net : list DenseBlock) : bool :=
  forallb (fun d => is_ready (weight_p d) && is_ready (bias_p d)) net.

(** The notebook's cells 5 to 8 in order: [net = getnet()],
    [net.initialize(init=MyInit())], [y = net(x)], [y = net(x)] and
    [net.initialize(init=MyInit(), force_reinit=True)], for [x] of shape
    [xs].  The result is the weight shapes the last cell leaves and
    everything printed so far. *)
Definition cells_5_to_8 (xs : list nat) (w : World)
    : option (list (list nat) * list InitLine) :=
  let (net0, w0) := getnet w in
  let (net1, out1) := initialize MyInit false net0 (stdout w0) in
  r2 ← net_forward net1 xs out1;
  r3 ← net_forward r2.1.1 xs r2.2;
  let (net4, out4) := initialize MyInit true r3.1.1 r3.2 in
  Some (weight_shapes net4, out4).

(** The notebook's cell 9: a network with [in_units] given, then
    [net.initialize(init=MyInit())]. *)
Definition cell_9 (w : World) : list (list nat) * list InitLine :=
  let (net0, w0) := dense_stack_in [(256, 20, Some relu); (10, 256, None)] w in
  let (net1, out1) := initialize MyInit false net0 (stdout w0) in
  (weight_shapes net1, out1).

End ForcedInit.

(** ** Multi-GPU training ([multiple-gpus-gluon] notebook)

    [net.initialize(ctx=...)], [Trainer.step] and the layers are the
    framework's.  [initialize] and [step] are written here as the notebook
    states them: [initialize] copies the initialized values of a parameter
    to every device of [ctx]; [step] sums the gradients of the devices,
    broadcasts the sum to all of them and updates every replica with it.
    The network of the notebook has [nn.BatchNorm] layers, whose running
    mean and variance are parameters too ([collect_params] returns them)
    but have no gradient: the forward pass rewrites them, on each device
    from the share of the batch that device sees. *)
Module MultiGpu.

(** The arrays a device holds and the two operations the trainer needs on
    them. *)
Class Arrays (V : Type) := { zeros : V; vadd : V -> V -> V }.

(** [grad_req] of a parameter: ['write'] for a parameter trained from its
    gradient (weights and biases, [gamma] and [beta] of a batch
    normalization), ['null'] for one that has none (in this network the
    [running_mean] and [running_var] of every [nn.BatchNorm]). *)
Inductive GradReq := grad_write | grad_null.

(** A parameter of the network: one replica of its value per device, in
    the order of [ctx], and one gradient per device when it has one. *)
Record Param (V : Type) := { grad_req : GradReq; data : list V; grad : list V }.
Arguments grad_req {V} _.
Arguments data {V} _.
Arguments grad {V} _.

(** What one mini-batch contributes on device [d], for the share of the
    batch that [split_and_load] gives it and as a function of the replica
    the device holds, one entry per parameter: the mean or variance of the
    activations that a batch normalization sees in the forward pass, and
    the gradients that [backward] computes. *)
Record Batch (V : Type) := {
  statistics : nat -> list V -> list V;
  gradients : nat -> list V -> list V
}.
Arguments statistics {V} _ _ _.
Arguments gradients {V} _ _ _.

(** [[mx.gpu(i) for i in range(num_gpus)]]. *)
Definition ctx_list (num_gpus : nat) : list nat := seq 0 num_gpus.

(** Modelled from the spec: [net.initialize(init=..., ctx=ctx,
    force_reinit=True)] of the framework, which the repository does not
    contain.  The value [init i] drawn for parameter [i] is copied to
    every device. *)
Definition initialize `{Arrays V} (init : nat -> V) (ctx : list nat) (net : list (Param V))
    : list (Param V) :=
  imap (fun i p =>
          {| grad_req := grad_req p;
             data := map (fun _ => init i) ctx;
             grad := match grad_req p with
                     | grad_write => map (fun _ => zeros) ctx
                     | grad_null => []
                     end |}) net.

(** The values device [d] holds, one per parameter. *)
Definition replica {V} (net : list (Param V)) (d : nat) : list V :=
  omap (fun p => data p !! d) net.

(** Modelled from the spec: the forward pass [net(gpu_X)] under
    [autograd.record()] on every device.  The layers are the framework's,
    which the repository does not contain, and neither the notebook nor
    the spec describes what [nn.BatchNorm] does to its running mean and
    variance; it is written here as the framework documents it: in
    training mode each of them becomes
    [moving * momentum + statistic * (1 - momentum)], computed on each
    device from the statistic of that device's share of the batch
    ([moving_average old statistic] below).  Parameters with a gradient
    are not touched. *)
Definition forward {V} (moving_average : V -> V -> V) (b : Batch V) (net : list (Param V))
    : list (Param V) :=
  imap (fun i p =>
          match grad_req p with
          | grad_write => p
          | grad_null =>
              {| grad_req := grad_null;
                 data := imap (fun d w =>
                                 from_option (moving_average w) w
                                             (statistics b d (replica net d) !! i))
                              (data p);
                 grad := grad p |}
          end) net.

(** [l.backward()] on every device: the gradient buffers are overwritten,
    the values are not touched. *)
Definition backward {V} (b : Batch V) (net : list (Param V)) : list (Param V) :=
  imap (fun i p =>
          {| grad_req := grad_req p;
             data := data p;
             grad := imap (fun d g => default g (gradients b d (replica net d) !! i)) (grad p) |})
       net.

(** The sum of the gradients of all devices. *)
Definition allreduce `{Arrays V} (gs : list V) : option V :=
  match gs with
  | [] => None
  | g :: gs' => Some (fold_left vadd gs' g)
  end.

(** Modelled from the spec: [trainer.step(batch_size)] of the
    framework on one parameter, which the repository does not contain.
    A parameter without gradient is skipped.  For the others the
    gradients of the devices are summed, the sum is broadcast, and every
    replica is updated with it; [update w g] is the optimizer's new value
    for the learning rate and batch size at hand. *)
Definition step_param `{Arrays V} (update : V -> V -> V) (p : Param V) : Param V :=
  match grad_req p with
  | grad_null => p
  | grad_write =>
      match allreduce (grad p) with
      | None => p
      | Some s => {| grad_req := grad_write;
                     data := map (fun w => update w s) (data p);
                     grad := map (fun _ => s) (grad p) |}
      end
  end.

Definition step `{Arrays V} (update : V -> V -> V) (net : list (Param V))
    : list (Param V) :=
  map (step_param update) net.

(** One pass over [train_iter]: the states reached after the forward
    passes, after each [backward] and after each [step], in order,
    starting from [net]. *)
Fixpoint epoch `{Arrays V} (update moving_average : V -> V -> V) (train_iter : list (Batch V))
    (net : list (Param V)) : list (list (Param V)) :=
  match train_iter with
  | [] => []
  | b :: rest =>
      let net1 := forward moving_average b net in
      let net2 := backward b net1 in
      let net3 := step update net2 in
      net1 :: net2 :: net3 :: epoch update moving_average rest net3
  end.

(** [n] epochs from [net]. *)
Fixpoint epochs `{Arrays V} (n : nat) (update moving_average : V -> V -> V)
    (train_iter : list (Batch V)) (net : list (Param V)) : list (list (Param V)) :=
  match n with
  | 0 => []
  | S n' =>
      let visited := epoch update moving_average train_iter net in
      visited ++ epochs n' update moving_average train_iter (List.last visited net)
  end.

(** [train(num_gpus, batch_size, lr)]: every state the parameters go
    through, from the one [initialize] leaves. *)
Definition train `{Arrays V} (num_gpus : nat) (init : nat -> V)
    (update moving_average : V -> V -> V)
    (train_iter : list (Batch V)) (net : list (Param V)) : list (list (Param V)) :=
  let net0 := initialize init (ctx_list num_gpus) net in
  net0 :: epochs 4 update moving_average train_iter net0.

(** All devices hold the same value of every parameter. *)
Definition replicas_agree {V} (net : list (Param V)) : Prop :=
  Forall (fun p => forall v w, v ∈ data p -> w ∈ data p -> v = w) net.

(** All devices hold the same value of every parameter that has a
    gradient, the ones the trainer updates. *)
Definition trained_replicas_agree {V} (net : list (Param V)) : Prop :=
  Forall (fun p => grad_req p = grad_write ->
                   forall v w, v ∈ data p -> w ∈ data p -> v = w) net.

(** A run on two devices, with a real number for each array.  The
    parameters are those of the first two layers of the network,
    [nn.Conv2D(64, ...)] and [nn.BatchNorm()]: [weight], [bias], [gamma],
    [beta], [running_mean] and [running_var], initialized as the framework
    does (a drawn value for the weight, zeros for [bias], [beta] and
    [running_mean], ones for [gamma] and [running_var]).  The optimizer is
    stochastic gradient descent, the momentum of the running statistics
    is the 0.9 of [nn.BatchNorm], and the two halves of the one mini-batch
    give the batch normalization the means 0 and 1 and the variances 1
    and 2. *)
#[export] Instance real_arrays : Arrays R := {| zeros := 0%R; vadd := Rplus |}.

Definition first_two_layers : list (Param R) :=
  map (fun r => {| grad_req := r; data := []; grad := [] |})
      [grad_write; grad_write; grad_write; grad_write; grad_null; grad_null].

Definition first_two_layers_init (i : nat) : R :=
  match i with
  | 0 => (1 / 100)%R
  | 2 | 5 => 1%R
  | _ => 0%R
  end.

Definition sgd (lr : R) (w g : R) : R := (w - lr * g)%R.

Definition momentum_average (momentum : R) (moving statistic : R) : R :=
  (moving * momentum + statistic * (1 - momentum))%R.

Definition halves : Batch R := {|
  statistics := fun d _ => [0%R; 0%R; 0%R; 0%R; INR d; (INR d + 1)%R];
  gradients := fun _ _ => [1%R; 1%R; 1%R; 1%R; 0%R; 0%R]
|}.

End MultiGpu.

(** ** Multi-GPU training: the network *)
Module ResNet.

(** The blocks [resnet18] is made of, each with the arguments the
    notebook passes; an argument left out is [None]. *)
#[local] Unset Elimination Schemes.
Inductive Block :=
| Conv2D (channels kernel_size strides padding : nat)
| BatchNorm
| Activation (act : string)
| Residual (num_channels : nat) (use_1x1conv : option bool) (strides : option nat)
| GlobalAvgPool2D
| Dense (units : nat)
| Sequential (children : list Block).
#[local] Set Elimination Schemes.

(** [resnet_block(num_channels, num_residuals, first_block)]. *)
Definition resnet_block (num_channels num_residuals : nat) (first_block : bool) : Block :=
  Sequential
    (map (fun i =>
            if (i =? 0) && negb first_block
            then Residual num_channels (Some true) (Some 2)
            else Residual num_channels None None)
         (seq 0 num_residuals)).

(** [resnet18(num_classes)]: the three calls of [net.add], in order. *)
Definition resnet18 (num_classes : nat) : Block :=
  Sequential
    ([ Conv2D 64 3 1 1; BatchNorm; Activation "relu" ]
     ++ [ resnet_block 64 2 true;
          resnet_block 128 2 false;
          resnet_block 256 2 false;
          resnet_block 512 2 false ]
     ++ [ GlobalAvgPool2D; Dense num_classes ]).

(** The residual units of a block, in the order the input goes through
    them. *)
Fixpoint residuals (b : Block) : list Block :=
  match b with
  | Residual _ _ _ => [b]
  | Sequential children =>
      (fix all (l : list Block) : list Block :=
         match l with
         | [] => []
         | c :: l' => residuals c ++ all l'
         end) children
  | _ => []
  end.

(** A residual unit that is given a stride. *)
Definition strided (b : Block) : bool :=
  match b with
  | Residual _ _ (Some _) => true
  | _ => false
  end.

Definition channels_of (b : Block) : option nat :=
  match b with
  | Residual c _ _ => Some c
  | _ => None
  end.

End ResNet.

(** ** Python values the translation notebook works on *)
Module Py.
Import NDArrays.

(** *** Strings *)

(** The characters [str.rstrip()] removes (ASCII white space). *)
Definition is_space (c : ascii) : bool :=
  let n := nat_of_ascii c in
  ((9 <=? n) && (n <=? 13)) || ((28 <=? n) && (n <=? 32)).

(** [s.rstrip()]. *)
Fixpoint rstrip (s : string) : string :=
  match s with
  | EmptyString => EmptyString
  | String c s' =>
      match rstrip s' with
      | EmptyString => if is_space c then EmptyString else String c EmptyString
      | r => String c r
      end
  end.

(** [s.split(sep)] for a one-character separator: every occurrence
    splits, empty pieces are kept. *)
Fixpoint split (sep : ascii) (s : string) : list string :=
  match s with
  | EmptyString => [EmptyString]
  | String c s' =>
      if Ascii.eqb c sep then EmptyString :: split sep s'
      else match split sep s' with
           | w :: ws => String c w :: ws
           | [] => [String c EmptyString]
           end
  end.

(** [sep.join(l)]. *)
Definition join (sep : string) (l : list string) : string := String.concat sep l.

(** [sub in s] for strings: [sub] occurs in [s] at some position. *)
Fixpoint contains (sub s : string) : bool :=
  String.prefix sub s ||
  match s with
  | EmptyString => false
  | String _ s' => contains sub s'
  end.

(** [l[i : j]] for [0 <= i]. *)
Definition slice {X} (l : list X) (i j : nat) : list X := take (j - i) (drop i l).

(** *** Lists as shared, mutable objects

    A Python list lives in the store under its identity; a variable or a
    list element that refers to it holds the identity, so that a change
    made through one name is seen through every other. *)
Definition loc := nat.

Inductive pyval := Str (s : string) | Ref (l : loc).

Record heap := { store : gmap loc (list pyval); next : loc }.

(** A computation that reads and writes the store and may raise. *)
Definition Py (X : Type) : Type := heap -> option (X * heap).

#[export] Instance Py_ret : MRet Py := fun X x h => Some (x, h).
#[export] Instance Py_bind : MBind Py := fun X Y f m h =>
  match m h with
  | Some (x, h') => f x h'
  | None => None
  end.

Definition raise {X} : Py X := fun _ => None.

Definition lift {X} (o : option X) : Py X := fun h => x ← o; Some (x, h).

(** A list display [[...]]: a new object. *)
Definition new_list (v : list pyval) : Py loc := fun h =>
  Some (next h, {| store := <[next h := v]> (store h); next := S (next h) |}).

Definition get (l : loc) : Py (list pyval) := fun h => v ← store h !! l; Some (v, h).

(** The store with the list [l] replaced by [v]. *)
Definition update (l : loc) (v : list pyval) (h : heap) : heap :=
  {| store := <[l := v]> (store h); next := next h |}.

Definition put (l : loc) (v : list pyval) : Py unit := fun h => Some (tt, update l v h).

(** Identities are handed out in order: every list of the store was
    created before [next]. *)
Definition heap_ok (h : heap) : Prop :=
  forall l v, store h !! l = Some v -> l < next h.

Definition empty_heap : heap := {| store := ∅; next := 0 |}.

Definition strs (l : list string) : list pyval := map Str l.

(** The strings among the elements of a list. *)
Definition tokens_of (l : list pyval) : list string :=
  omap (fun v => match v with Str s => Some s | Ref _ => None end) l.

(** *** [nd.array] on a list of rows

    A nested list with rows of one length becomes a 2-D array; rows of
    different lengths are refused. *)
Definition nd_array (rows : list (list nat)) : option (NDArray nat) :=
  match rows with
  | [] => Some (mkND [0] [])
  | r :: _ =>
      if forallb (fun r' => length r' =? length r) rows
      then Some (mkND [length rows; length r] (concat rows))
      else None
  end.

(** Row [i] of a 2-D array. *)
Definition row {A} (X : NDArray A) (i : nat) : list A :=
  match shape X with
  | [_; W] => take W (drop (i * W) (data X))
  | _ => []
  end.

End Py.

(** ** Machine translation ([machine-translation] notebook): data *)
Module MachineTranslation.
Import NDArrays Py.

Definition PAD : string := "<pad>".
Definition BOS : string := "<bos>".
Definition EOS : string := "<eos>".

Definition tab : ascii := ascii_of_nat 9.
Definition space : ascii := ascii_of_nat 32.

(** *** The vocabulary class of the framework

    [text.vocab.Vocabulary] is the framework's.  Index 0 is the unknown
    token, the reserved tokens follow, then the counted tokens in the
    order [by_frequency] puts them. *)
Class TextFramework := { by_frequency : list string -> list string }.

Record Vocabulary := { idx_to_token : list string }.

Fixpoint index_of (t : string) (l : list string) : option nat :=
  match l with
  | [] => None
  | x :: l' => if String.eqb x t then Some 0 else S <$> index_of t l'
  end.

(** [vocab.token_to_idx[t]]. *)
Definition token_to_idx (v : Vocabulary) (t : string) : option nat :=
  index_of t (idx_to_token v).

(** [vocab.to_indices(tokens)]: an unknown token has index 0. *)
Definition to_indices (v : Vocabulary) (tokens : list string) : list nat :=
  map (fun t => default 0 (token_to_idx v t)) tokens.

(** Modelled from the spec: [Vocabulary(collections.Counter(tokens),
    reserved_tokens=...)] of the framework, which the repository does
    not contain. *)
Definition new_vocabulary `{TextFramework} (tokens reserved_tokens : list string)
    : Vocabulary :=
  {| idx_to_token := "<unk>"%string :: reserved_tokens ++ by_frequency tokens |}.

(** *** The cells that read the data *)

(** [process_one_seq(seq_tokens, all_tokens, all_seqs, max_seq_len)]. *)
Definition process_one_seq (seq_tokens all_tokens all_seqs : loc) (max_seq_len : Z)
    : Py unit :=
  (* all_tokens.extend(seq_tokens) *)
  s ← get seq_tokens;
  a ← get all_tokens;
  put all_tokens (a ++ s);;
  (* seq_tokens += [EOS] + [PAD] * (max_seq_len - len(seq_tokens) - 1) *)
  s' ← get seq_tokens;
  put seq_tokens
      (s' ++ [Str EOS]
          ++ replicate (Z.to_nat (max_seq_len - Z.of_nat (length s') - 1)) (Str PAD));;
  (* all_seqs.append(seq_tokens) *)
  q ← get all_seqs;
  put all_seqs (q ++ [Ref seq_tokens]).

(** [[vocab.to_indices(seq) for seq in all_seqs]]. *)
Fixpoint indices_of (vocab : Vocabulary) (seqs : list pyval) : Py (list (list nat)) :=
  match seqs with
  | [] => mret []
  | Ref l :: rest =>
      s ← get l;
      r ← indices_of vocab rest;
      mret (to_indices vocab (tokens_of s) :: r)
  | Str _ :: _ => raise
  end.

(** [build_data(all_tokens, all_seqs)]. *)
Definition build_data `{TextFramework} (all_tokens all_seqs : loc)
    : Py (Vocabulary * NDArray nat) :=
  toks ← get all_tokens;
  let vocab := new_vocabulary (tokens_of toks) [PAD; BOS; EOS] in
  seqs ← get all_seqs;
  indices ← indices_of vocab seqs;
  arr ← lift (nd_array indices);
  mret (vocab, arr).

(** [a, b = l]. *)
Definition unpack2 {X} (l : list X) : Py (X * X) :=
  match l with
  | [a; b] => mret (a, b)
  | _ => raise
  end.

(** The body of the loop of [read_data] for one line. *)
Definition read_line (max_seq_len : Z) (in_tokens out_tokens in_seqs out_seqs : loc)
    (line : string) : Py unit :=
  p ← unpack2 (split tab (rstrip line));
  in_seq_tokens ← new_list (strs (split space p.1));
  out_seq_tokens ← new_list (strs (split space p.2));
  i ← get in_seq_tokens;
  o ← get out_seq_tokens;
  if (Z.max (Z.of_nat (length i)) (Z.of_nat (length o)) >? max_seq_len - 1)%Z
  then mret tt
  else
    process_one_seq in_seq_tokens in_tokens in_seqs max_seq_len;;
    process_one_seq out_seq_tokens out_tokens out_seqs max_seq_len.

Fixpoint for_lines (body : string -> Py unit) (lines : list string) : Py unit :=
  match lines with
  | [] => mret tt
  | line :: rest => body line;; for_lines body rest
  end.

(** [read_data(max_seq_len)], given the lines of the data file.  The
    data set is the pair of index arrays. *)
Definition read_data `{TextFramework} (max_seq_len : Z) (lines : list string)
    : Py (Vocabulary * Vocabulary * (NDArray nat * NDArray nat)) :=
  in_tokens ← new_list [];
  out_tokens ← new_list [];
  in_seqs ← new_list [];
  out_seqs ← new_list [];
  for_lines (read_line max_seq_len in_tokens out_tokens in_seqs out_seqs) lines;;
  i ← build_data in_tokens in_seqs;
  o ← build_data out_tokens out_seqs;
  mret (i.1, o.1, (i.2, o.2)).

(** *** The pure reading of the same file, used to state what is kept *)

(** The two token lists of a line, when it has exactly two fields. *)
Definition fields (line : string) : option (list string * list string) :=
  match split tab (rstrip line) with
  | [a; b] => Some (split space a, split space b)
  | _ => None
  end.

(** The fields of every line, when every line has exactly two. *)
Fixpoint all_fields (lines : list string) : option (list (list string * list string)) :=
  match lines with
  | [] => Some []
  | line :: rest => p ← fields line; ps ← all_fields rest; Some (p :: ps)
  end.

(** A line is kept unless a side has more than [max_seq_len - 1] tokens. *)
Definition kept (max_seq_len : Z) (p : list string * list string) : bool :=
  negb (Z.max (Z.of_nat (length p.1)) (Z.of_nat (length p.2)) >? max_seq_len - 1)%Z.

(** The tokens, one [EOS], then [PAD] up to [max_seq_len] entries. *)
Definition padded (max_seq_len : Z) (tokens : list string) : list string :=
  tokens ++ [EOS]
         ++ replicate (Z.to_nat (max_seq_len - Z.of_nat (length tokens) - 1)) PAD.

(** A vocabulary order and two lines of a data file, for examples: the
    second line is too long for [max_seq_len = 7]. *)
Definition toy_framework : TextFramework := {| by_frequency := fun tokens => tokens |}.

Definition toy_lines : list string :=
  [ ("ils regardent ." ++ String tab "they are watching .")%string;
    ("elle a cinq ans de moins que moi ." ++ String tab
       "she is five years younger than me .")%string ].

(** The store while the loop of [read_data] runs, the four lists of its
    first line having the identities [c] to [c + 3]: the token lists hold
    the tokens of the lines kept so far ([ins], [outs]); the sequence
    lists hold one reference per kept line, to a list that holds the
    padded tokens of that line. *)
Definition recorded (max_seq_len : Z) (c : loc) (h : heap) (cell : loc)
    (seqs : list (list string)) : Prop :=
  exists ls,
    store h !! cell = Some (Ref <$> ls)
    /\ Forall2 (fun l t => c + 4 <= l
                           /\ store h !! l = Some (strs (padded max_seq_len t))
                           /\ (Z.of_nat (length t) <= max_seq_len - 1)%Z)
               ls seqs.

Record reading (max_seq_len : Z) (c : loc) (ins outs : list (list string))
    (h : heap) : Prop := {
  rd_next : c + 4 <= next h;
  rd_ok : heap_ok h;
  rd_in_tokens : store h !! c = Some (strs (concat ins));
  rd_out_tokens : store h !! (c + 1) = Some (strs (concat outs));
  rd_in_seqs : recorded max_seq_len c h (c + 2) ins;
  rd_out_seqs : recorded max_seq_len c h (c + 3) outs
}.

End MachineTranslation.

(** ** Machine translation: the lines of the data file *)
Module Lines.
Import Py MachineTranslation.

(** The number of occurrences of a character in a string. *)
Fixpoint occurrences (c : ascii) (s : string) : nat :=
  match s with
  | EmptyString => 0
  | String a s' => (if Ascii.eqb a c then 1 else 0) + occurrences c s'
  end.

(** A string of white space only (the empty string is one). *)
Fixpoint blank (s : string) : bool :=
  match s with
  | EmptyString => true
  | String a s' => is_space a && blank s'
  end.

End Lines.

(** ** Machine translation: the attention mechanism

    Arrays hold float32 values in the notebook; they are read here as the
    real numbers they stand for, and the array operations of the framework
    ([broadcast_axis], [concat], [softmax], [sum]) by their meaning on
    nested lists: a 3-D array of shape (T, B, H) is a list of T time
    steps, each a list of B rows of H numbers. *)
Module Attention.
#[local] Open Scope R_scope.

Definition tensor2 := list (list R).
Definition tensor3 := list (list (list R)).

(** [X.shape == (T, B, H)]. *)
Definition has_shape3 (x : tensor3) (T B H : nat) : Prop :=
  length x = T /\
  Forall (fun m => length m = B /\ Forall (fun r => length r = H) m) x.

Definition has_shape2 (x : tensor2) (B H : nat) : Prop :=
  length x = B /\ Forall (fun r => length r = H) x.

Definition sumR (l : list R) : R := fold_right Rplus 0 l.

Definition dot (u v : list R) : R := sumR (zip_with Rmult u v).

(** [nn.Dense(units, activation=act, use_bias=False, flatten=False)]
    with weight rows [W]: the affine map acts on the last axis. *)
Definition dense (W : list (list R)) (act : R -> R) (x : tensor3) : tensor3 :=
  map (map (fun r => map (fun w => act (dot w r)) W)) x.

(** [attention_model(attention_size)] once initialized: [w1 i] is row [i]
    of the weight of the hidden layer, [w2] the weight of the one output
    unit. *)
Definition attention_model (attention_size : nat) (w1 : nat -> list R) (w2 : list R)
    : tensor3 -> tensor3 :=
  fun x => dense [w2] id (dense (map w1 (seq 0 attention_size)) tanh x).

(** [nd.broadcast_axis(s.expand_dims(0), axis=0, size=n)]. *)
Definition broadcast_axis0 (s : tensor2) (n : nat) : tensor3 := replicate n s.

(** [nd.concat(a, b, dim=2)]. *)
Definition concat2 (a b : tensor3) : tensor3 := zip_with (zip_with app) a b.

Definition add2 (a b : tensor2) : tensor2 := zip_with (zip_with Rplus) a b.

(** [x.sum(axis=0)]. *)
Definition sum_axis0 (x : tensor3) : tensor2 :=
  match x with
  | [] => []
  | x0 :: xs => fold_left add2 xs x0
  end.

(** [nd.softmax(e, axis=0)]. *)
Definition softmax_axis0 (e : tensor3) : tensor3 :=
  let ex := map (map (map exp)) e in
  let s := sum_axis0 ex in
  map (fun m => zip_with (zip_with Rdiv) m s) ex.

(** [alpha * x] for [alpha] of shape (T, B, 1) and [x] of shape
    (T, B, H): the last axis of [alpha] is broadcast. *)
Definition mul_bcast (alpha x : tensor3) : tensor3 :=
  zip_with (zip_with (fun a r => map (Rmult (hd 0 a)) r)) alpha x.

(** [attention_forward(model, enc_states, dec_state)]. *)
Definition attention_forward (model : tensor3 -> tensor3)
    (enc_states : tensor3) (dec_state : tensor2) : tensor2 :=
  let dec_states := broadcast_axis0 dec_state (length enc_states) in
  let enc_and_dec_states := concat2 enc_states dec_states in
  let e := model enc_and_dec_states in
  let alpha := softmax_axis0 e in
  sum_axis0 (mul_bcast alpha enc_states).

(** Element access, by position. *)
Definition at3 (x : tensor3) (t b j : nat) : R := nth j (nth b (nth t x []) []) 0.
Definition at2 (x : tensor2) (b j : nat) : R := nth j (nth b x []) 0.

(** The score the attention model gives time step [t] of batch element
    [b], and the weight the softmax over the time steps makes of it. *)
Definition score (model : tensor3 -> tensor3) (enc_states : tensor3)
    (dec_state : tensor2) (t b : nat) : R :=
  at3 (model (concat2 enc_states (broadcast_axis0 dec_state (length enc_states)))) t b 0.

Definition weight (model : tensor3 -> tensor3) (enc_states : tensor3)
    (dec_state : tensor2) (t b : nat) : R :=
  exp (score model enc_states dec_state t b)
  / sumR (map (fun s => exp (score model enc_states dec_state s b))
              (seq 0 (length enc_states))).

(** Encoder states of shape (2, 1, 2) and a decoder state of shape
    (1, 2), for examples. *)
Definition toy_enc_states : tensor3 := [ [[1; 2]]; [[3; 4]] ].
Definition toy_dec_state : tensor2 := [ [0; 0] ].

End Attention.

(** ** Machine translation: the encoder and the decoder *)
Module Seq2SeqBlocks.
Import Attention.
#[local] Open Scope R_scope.

(** The layers of the framework that [Encoder] and [Decoder] are made
    of, once initialized: the embedding table as the row it holds for an
    index, the recurrent layer and the output layer as the functions they
    compute. *)
Record Layers := {
  embedding : nat -> list R;
  attention : tensor3 -> tensor3;
  (* self.rnn(input, state): input (T, B, features), state [h] *)
  rnn : tensor3 -> list tensor3 -> tensor3 * list tensor3;
  (* self.out = nn.Dense(vocab_size, flatten=False) *)
  out : tensor3 -> tensor3
}.

(** [x.swapaxes(0, 1)] for a 3-D array with at least one entry along
    axis 0. *)
Definition swapaxes01 (x : tensor3) : tensor3 :=
  map (fun t => map (fun m => nth t m []) x) (seq 0 (length (hd [] x))).

(** [self.embedding(inputs).swapaxes(0, 1)] of [Encoder.forward]: what
    the recurrent layer of the encoder is given. *)
Definition encoder_rnn_input (l : Layers) (inputs : list (list nat)) : tensor3 :=
  swapaxes01 (map (map (embedding l)) inputs).

(** [Encoder.forward(inputs, state)]. *)
Definition encoder_forward (l : Layers) (inputs : list (list nat)) (state : list tensor3)
    : tensor3 * list tensor3 :=
  rnn l (encoder_rnn_input l inputs) state.

(** [nd.concat(self.embedding(cur_input), c, dim=1)] of
    [Decoder.forward], with [c] the context that [attention_forward]
    returns for [state[0][-1]]; [None] when [state] is empty or
    [state[0]] has no layer. *)
Definition input_and_c (l : Layers) (cur_input : list nat) (state : list tensor3)
    (enc_states : tensor3) : option tensor2 :=
  h ← head state;
  top ← last h;
  let c := attention_forward (attention l) enc_states top in
  Some (zip_with app (map (embedding l) cur_input) c).

(** [Decoder.forward(cur_input, state, enc_states)]; [squeeze(axis=0)]
    needs an axis 0 of length 1. *)
Definition decoder_forward (l : Layers) (cur_input : list nat) (state : list tensor3)
    (enc_states : tensor3) : option (tensor2 * list tensor3) :=
  x ← input_and_c l cur_input state enc_states;
  let (output, state') := rnn l [x] state in
  match out l output with
  | [o] => Some (o, state')
  | _ => None
  end.

(** [Decoder.begin_state(enc_state)]. *)
Definition decoder_begin_state (enc_state : list tensor3) : list tensor3 := enc_state.

(** Layers with an embedding of one feature and an attention model whose
    hidden weights are zero, for examples. *)
Definition toy_layers : Layers := {|
  embedding := fun i => [INR i];
  attention := attention_model 1 (fun _ => [0; 0; 0; 0]) [1];
  rnn := fun x state => (x, state);
  out := fun x => x
|}.

(** A model of scores with [c] added to every score, as a bias on the
    output unit would. *)
Definition with_bias (c : R) (model : tensor3 -> tensor3) : tensor3 -> tensor3 :=
  fun x => map (map (map (fun v => v + c))) (model x).

End Seq2SeqBlocks.

(** ** Machine translation: greedy prediction *)
Module Prediction.
Import Py MachineTranslation.

(** The trained encoder and decoder, as [translate] uses them. *)
Record Seq2Seq := {
  EncOut : Type;
  State : Type;
  Scores : Type;
  (* encoder(enc_input, encoder.begin_state(batch_size=1)) *)
  encoder : list nat -> EncOut * State;
  (* decoder.begin_state(enc_state) *)
  begin_state : State -> State;
  (* decoder(dec_input, dec_state, enc_output) *)
  decoder : nat -> State -> EncOut -> Scores * State;
  (* dec_output.argmax(axis=1) *)
  argmax : Scores -> nat
}.

(** The [for _ in range(n)] loop of [translate]. *)
Fixpoint greedy (m : Seq2Seq) (out_vocab : Vocabulary) (n : nat)
    (dec_input : nat) (dec_state : State m) (enc_output : EncOut m)
    (output_tokens : list string) : option (list string) :=
  match n with
  | 0 => Some output_tokens
  | S n' =>
      let (dec_output, dec_state') := decoder m dec_input dec_state enc_output in
      let pred := argmax m dec_output in
      pred_token ← idx_to_token out_vocab !! pred;
      if String.eqb pred_token EOS then Some output_tokens
      else greedy m out_vocab n' pred dec_state' enc_output (output_tokens ++ [pred_token])
  end.

(** [translate(encoder, decoder, input_seq, max_seq_len)]; [None] when a
    vocabulary lookup raises. *)
Definition translate (m : Seq2Seq) (in_vocab out_vocab : Vocabulary)
    (input_seq : string) (max_seq_len : Z) : option (list string) :=
  let in_tokens := split space input_seq in
  let in_tokens :=
    in_tokens ++ [EOS]
      ++ replicate (Z.to_nat (max_seq_len - Z.of_nat (length in_tokens) - 1)) PAD in
  let enc_input := to_indices in_vocab in_tokens in
  let (enc_output, enc_state) := encoder m enc_input in
  dec_input ← token_to_idx out_vocab BOS;
  let dec_state := begin_state m enc_state in
  greedy m out_vocab (Z.to_nat max_seq_len) dec_input dec_state enc_output [].

(** A toy vocabulary and a toy model, for examples: the decoder predicts
    "they", "are" and then the end of the sequence. *)
Definition toy_vocab : Vocabulary :=
  {| idx_to_token := ["<unk>"; PAD; BOS; EOS; "they"; "are"]%string |}.

Definition toy_model : Seq2Seq := {|
  EncOut := unit;
  State := nat;
  Scores := nat;
  encoder := fun _ => (tt, 0);
  begin_state := fun s => s;
  decoder := fun _ step _ => (nth step [4; 5] 3, S step);
  argmax := fun scores => scores
|}.

End Prediction.

(** ** Machine translation: the loss of a mini-batch *)
Module Training.
Import Py MachineTranslation Attention.

(** The encoder, the decoder and the loss function, as [batch_loss] uses
    them on a mini-batch.  A 2-D index array is the list of its rows, an
    array with one entry per example a list; arrays of one shape are
    multiplied element by element. *)
Record Batched := {
  EncOut : Type;
  State : Type;
  Scores : Type;
  (* encoder(X, encoder.begin_state(batch_size=X.shape[0])) *)
  encoder : list (list nat) -> EncOut * State;
  (* decoder.begin_state(enc_state) *)
  begin_state : State -> State;
  (* decoder(dec_input, dec_state, enc_outputs) *)
  decoder : list nat -> State -> EncOut -> Scores * State;
  (* loss(dec_output, y): one value per example *)
  loss : Scores -> list nat -> list R
}.

(** [Y.T] for a 2-D array with at least one row: the list of its
    columns. *)
Definition transpose (Y : list (list nat)) : list (list nat) :=
  map (fun t => map (fun r => nth t r 0) Y) (seq 0 (length (hd [] Y))).

(** [y != e], element by element: 1 where the entry differs. *)
Definition differs (y : list nat) (e : nat) : list R :=
  map (fun v => if v =? e then 0%R else 1%R) y.

(** The [for y in Y.T] loop of [batch_loss]: the loss summed and the
    number of positions counted. *)
Fixpoint teacher_forcing (m : Batched) (out_vocab : Vocabulary) (ys : list (list nat))
    (dec_input : list nat) (dec_state : State m) (enc_outputs : EncOut m)
    (mask : list R) (num_not_pad_tokens : R) (l : R) : option (R * R) :=
  match ys with
  | [] => Some (l, num_not_pad_tokens)
  | y :: rest =>
      let (dec_output, dec_state') := decoder m dec_input dec_state enc_outputs in
      let l' := (l + sumR (zip_with Rmult mask (loss m dec_output y)))%R in
      let num' := (num_not_pad_tokens + sumR mask)%R in
      e ← token_to_idx out_vocab EOS;
      teacher_forcing m out_vocab rest y dec_state' enc_outputs
                      (zip_with Rmult mask (differs y e)) num' l'
  end.

(** [batch_loss(encoder, decoder, X, Y, loss)].  [None] stands for
    [KeyError] and for a quotient that is not a number (no position was
    counted). *)
Definition batch_loss (m : Batched) (out_vocab : Vocabulary) (X Y : list (list nat))
    : option R :=
  let batch_size := length X in
  let (enc_outputs, enc_state) := encoder m X in
  let dec_state := begin_state m enc_state in
  bos ← token_to_idx out_vocab BOS;
  let dec_input := replicate batch_size bos in
  let mask := replicate batch_size 1%R in
  r ← teacher_forcing m out_vocab (transpose Y) dec_input dec_state enc_outputs mask 0 0;
  if Req_dec_T r.2 0 then None else Some (r.1 / r.2)%R.

(** *** What the loop computes, position by position *)

(** The number of entries of a label row up to and including the first
    [e]; all of them when [e] does not occur. *)
Fixpoint through_eos (e : nat) (row : list nat) : nat :=
  match row with
  | [] => 0
  | v :: rest => S (if v =? e then 0 else through_eos e rest)
  end.

(** The loss vectors of the time steps, each step fed the label column
    of the step before (teacher forcing). *)
Fixpoint step_losses (m : Batched) (ys : list (list nat)) (dec_input : list nat)
    (dec_state : State m) (enc_outputs : EncOut m) : list (list R) :=
  match ys with
  | [] => []
  | y :: rest =>
      let (dec_output, dec_state') := decoder m dec_input dec_state enc_outputs in
      loss m dec_output y :: step_losses m rest y dec_state' enc_outputs
  end.

(** The losses of example [i], one per time step. *)
Definition example_losses (m : Batched) (out_vocab : Vocabulary) (X Y : list (list nat))
    (i : nat) : list R :=
  let (enc_outputs, enc_state) := encoder m X in
  map (fun lv => nth i lv 0%R)
      (step_losses m (transpose Y)
         (replicate (length X) (default 0 (token_to_idx out_vocab BOS)))
         (begin_state m enc_state) enc_outputs).

(** A model whose loss is 1 at every position, and a batch of two label
    rows over [Prediction.toy_vocab] ("they are <eos> <pad>" and
    "they <eos> <pad> <pad>"), for examples. *)
Definition unit_loss_model : Batched := {|
  EncOut := unit;
  State := unit;
  Scores := unit;
  encoder := fun _ => (tt, tt);
  begin_state := fun s => s;
  decoder := fun _ s _ => (tt, s);
  loss := fun _ y => map (fun _ => 1%R) y
|}.

Definition toy_batch : list (list nat) := [[4; 5; 3; 1]; [4; 3; 1; 1]].

End Training.

(** ** Machine translation: BLEU

    Python floats are read as the real numbers they stand for; [None]
    stands for [ZeroDivisionError] and [ValueError]. *)
Module Evaluation.
Import Py.

(** [a / b] on ints. *)
Definition true_div (a b : Z) : option R :=
  if (b =? 0)%Z then None else Some (IZR a / IZR b)%R.

(** [math.pow(x, y)]. *)
Definition math_pow (x y : R) : option R :=
  if Rlt_dec 0 x then Some (Rpower x y)
  else if Req_dec_T x 0 then
    (if Rlt_dec 0 y then Some 0%R
     else if Req_dec_T y 0 then Some 1%R else None)
  else if Req_dec_T (frac_part y) 0 then Some (powerRZ x (Int_part y))
  else None.

(** The inner loop: how many of the [n]-grams of the prediction occur in
    the label, both joined by spaces. *)
Definition num_matches (pred_tokens label_tokens : list string) (n : nat) : nat :=
  let len_pred := Z.of_nat (length pred_tokens) in
  length
    (List.filter
       (fun i => contains (join " " (slice pred_tokens i (i + n)))
                          (join " " label_tokens))
       (seq 0 (Z.to_nat (len_pred - Z.of_nat n + 1)))).

(** The outer loop over [n]. *)
Fixpoint bleu_loop (pred_tokens label_tokens : list string) (ns : list nat) (score : R)
    : option R :=
  match ns with
  | [] => Some score
  | n :: rest =>
      let len_pred := Z.of_nat (length pred_tokens) in
      p ← true_div (Z.of_nat (num_matches pred_tokens label_tokens n))
                   (len_pred - Z.of_nat n + 1);
      e ← math_pow (1 / 2) (INR n);
      f ← math_pow p e;
      bleu_loop pred_tokens label_tokens rest (score * f)%R
  end.

(** [bleu(pred_tokens, label_tokens, k)]. *)
Definition bleu (pred_tokens label_tokens : list string) (k : Z) : option R :=
  let len_pred := Z.of_nat (length pred_tokens) in
  let len_label := Z.of_nat (length label_tokens) in
  q ← true_div len_label len_pred;
  bleu_loop pred_tokens label_tokens (seq 1 (Z.to_nat k)) (exp (Rmin 0 (1 - q))).

End Evaluation.

(** ** Machine translation: scoring a translation *)
Module Scoring.
Import Py MachineTranslation Prediction Evaluation.

(** [score(input_seq, label_seq, k)], for the encoder, decoder,
    vocabularies and [max_seq_len] the notebook keeps in global
    variables: the two values it prints, the BLEU of the translation and
    the translation joined by spaces. *)
Definition score (m : Seq2Seq) (in_vocab out_vocab : Vocabulary) (max_seq_len : Z)
    (input_seq label_seq : string) (k : Z) : option (R * string) :=
  pred_tokens ← translate m in_vocab out_vocab input_seq max_seq_len;
  let label_tokens := split space label_seq in
  b ← bleu pred_tokens label_tokens k;
  Some (b, join " " pred_tokens).

(** A model whose decoder predicts the index [i] at every step, for
    examples. *)
Definition constant_model (i : nat) : Seq2Seq := {|
  EncOut := unit;
  State := unit;
  Scores := unit;
  encoder := fun _ => (tt, tt);
  begin_state := fun s => s;
  decoder := fun _ s _ => (tt, s);
  argmax := fun _ => i
|}.

End Scoring.

(* ===================================================================== *)
(** * Part II: properties                                                 *)
(* ===================================================================== *)

(** ** Sliding windows and the shapes of the layers *)
Module Gluon_facts.
Import NDArrays Gluon.

Lemma slide_from_length (fuel start len k s : nat) :
  0 < s -> len < start + fuel ->
  length (slide_from fuel start len k s)
  = if start + k <=? len then (len - (start + k)) / s + 1 else 0.
Proof.
  intros Hs. revert start.
  induction fuel as [|fuel IH]; intros start Hfuel; simpl.
  - destruct (Nat.leb_spec (start + k) len); [lia | reflexivity].
  - destruct (Nat.leb_spec (start + k) len) as [Hfit|Hout]; [|reflexivity].
    simpl. rewrite IH by lia.
    destruct (Nat.leb_spec (start + s + k) len) as [Hnext|Hlast].
    + replace (len - (start + k)) with (len - (start + s + k) + 1 * s) by lia.
      rewrite Nat.div_add by lia. lia.
    + rewrite (Nat.div_small (len - (start + k)) s) by lia. reflexivity.
Qed.

(** The number of window positions along an axis of [len] cells. *)
Lemma windows_length (len k s : nat) :
  0 < s -> k <= len -> length (windows len k s) = (len - k) / s + 1.
Proof.
  intros Hs Hk. unfold windows.
  rewrite slide_from_length by lia.
  destruct (Nat.leb_spec (0 + k) len); [|lia].
  reflexivity.
Qed.

(** The same count, as the notebook writes it:
    [floor((n - k + p + s) / s)] for an axis of [n] cells and [p] padded
    cells in total. *)
Lemma windows_length_Z (n p k s : nat) :
  0 < s -> k <= n + p ->
  Z.of_nat (length (windows (n + p) k s))
  = ((Z.of_nat n - Z.of_nat k + Z.of_nat p + Z.of_nat s) / Z.of_nat s)%Z.
Proof.
  intros Hs Hk. rewrite windows_length by assumption.
  replace (Z.of_nat n - Z.of_nat k + Z.of_nat p + Z.of_nat s)%Z
    with (Z.of_nat (n + p - k) + 1 * Z.of_nat s)%Z by lia.
  rewrite Z.div_add by lia.
  rewrite Nat2Z.inj_add, Nat2Z.inj_div. reflexivity.
Qed.

(** Every window position leaves room for the window, and the next
    position after the last one does not. *)
Lemma slide_from_fits (fuel start len k s i : nat) :
  i ∈ slide_from fuel start len k s -> i + k <= len.
Proof.
  revert start. induction fuel as [|fuel IH]; intros start; simpl.
  - intros Hin. inversion Hin.
  - destruct (Nat.leb_spec (start + k) len) as [Hfit|Hout].
    + intros Hin. apply elem_of_cons in Hin as [->|Hin]; [assumption|eauto].
    + intros Hin. inversion Hin.
Qed.

Lemma windows_fit (len k s i : nat) : i ∈ windows len k s -> i + k <= len.
Proof. apply slide_from_fits. Qed.

Lemma length_bind_const {X Y} (f : X -> list Y) (l : list X) (c : nat) :
  (forall x, length (f x) = c) -> length (l ≫= f) = length l * c.
Proof.
  intros Hf. induction l as [|x l IH]; [reflexivity|].
  rewrite bind_cons, length_app, Hf, IH. reflexivity.
Qed.

Section Shapes.
Context {A : Type} {SA : Scalar A}.

Lemma reshape_shape (s : list nat) (X Y : NDArray A) :
  reshape s X = Some Y -> shape Y = s /\ data Y = data X.
Proof.
  unfold reshape. destruct (size s =? size (shape X)); [|discriminate].
  intros [= <-]. split; reflexivity.
Qed.

(** The shape a convolution gives an input of shape (N, C, H, W). *)
Lemma forward_Conv2D_shape channels kh kw sh sw ph pw act w b (X : NDArray A) N C H W :
  shape X = [N; C; H; W] ->
  0 < sh -> 0 < sw -> kh <= H + 2 * ph -> kw <= W + 2 * pw ->
  exists Y,
    forward (Conv2D channels (kh, kw) (sh, sw) (ph, pw) act w b) X = Some Y
    /\ shape Y = [N; channels; (H + 2 * ph - kh) / sh + 1; (W + 2 * pw - kw) / sw + 1].
Proof.
  intros HX Hsh Hsw Hkh Hkw. unfold forward. rewrite HX.
  rewrite (proj2 (Nat.ltb_lt 0 sh)), (proj2 (Nat.ltb_lt 0 sw)),
          (proj2 (Nat.leb_le kh _)), (proj2 (Nat.leb_le kw _)) by assumption.
  cbn [andb]. eexists. split; [reflexivity|].
  cbn [shape]. rewrite !windows_length by assumption. reflexivity.
Qed.

(** The shape a pooling gives an input of shape (N, C, H, W). *)
Lemma forward_AvgPool2D_shape kh kw sh sw ph pw (X : NDArray A) N C H W :
  shape X = [N; C; H; W] ->
  0 < sh -> 0 < sw -> kh <= H + 2 * ph -> kw <= W + 2 * pw ->
  exists Y,
    forward (AvgPool2D (kh, kw) (sh, sw) (ph, pw)) X = Some Y
    /\ shape Y = [N; C; (H + 2 * ph - kh) / sh + 1; (W + 2 * pw - kw) / sw + 1].
Proof.
  intros HX Hsh Hsw Hkh Hkw. unfold forward. rewrite HX.
  rewrite (proj2 (Nat.ltb_lt 0 sh)), (proj2 (Nat.ltb_lt 0 sw)),
          (proj2 (Nat.leb_le kh _)), (proj2 (Nat.leb_le kw _)) by assumption.
  cbn [andb]. eexists. split; [reflexivity|].
  cbn [shape]. rewrite !windows_length by assumption. reflexivity.
Qed.

(** A dense layer flattens all axes but the first. *)
Lemma forward_Dense_shape units act w b (X : NDArray A) N rest :
  shape X = N :: rest ->
  exists Y, forward (Dense units act w b) X = Some Y /\ shape Y = [N; units].
Proof.
  intros HX. simpl. rewrite HX. eexists. split; reflexivity.
Qed.

(** The output shape of a layer is a function of the input shape and of
    the layer's channels (units), window, stride and padding alone. *)
Lemma forward_shape_independent (l1 l2 : Layer A) (X1 X2 : NDArray A) :
  same_geometry l1 l2 -> shape X1 = shape X2 ->
  shape <$> forward l1 X1 = shape <$> forward l2 X2.
Proof.
  intros Hl HX.
  destruct l1 as [c1 [kh1 kw1] [sh1 sw1] [ph1 pw1] a1 w1 b1
                 |[kh1 kw1] [sh1 sw1] [ph1 pw1]|u1 a1 w1 b1],
           l2 as [c2 [kh2 kw2] [sh2 sw2] [ph2 pw2] a2 w2 b2
                 |[kh2 kw2] [sh2 sw2] [ph2 pw2]|u2 a2 w2 b2];
    simpl in Hl; try contradiction.
  - destruct Hl as (-> & [= -> ->] & [= -> ->] & [= -> ->]).
    unfold forward. rewrite <- HX.
    destruct (shape X1) as [|N [|C [|H0 [|W [|? ?]]]]]; try reflexivity.
    destruct (_ && _); reflexivity.
  - destruct Hl as ([= -> ->] & [= -> ->] & [= -> ->]).
    unfold forward. rewrite <- HX.
    destruct (shape X1) as [|N [|C [|H0 [|W [|? ?]]]]]; try reflexivity.
    destruct (_ && _); reflexivity.
  - subst u2. simpl. rewrite <- HX.
    destruct (shape X1); reflexivity.
Qed.

(** The buffer a layer returns has as many elements as its shape says. *)
Lemma forward_wf (l : Layer A) (X Y : NDArray A) : forward l X = Some Y -> wf Y.
Proof.
  unfold wf, forward.
  destruct l as [c [kh kw] [sh sw] [ph pw] act w b|[kh kw] [sh sw] [ph pw]|u act w b].
  - destruct (shape X) as [|N [|C [|H0 [|W [|? ?]]]]]; try discriminate.
    destruct (_ && _); [|discriminate]. intros [= <-]. cbn [data shape size fold_right].
    rewrite (length_bind_const _ _ (c * (length (windows (H0 + 2 * ph) kh sh)
                                         * (length (windows (W + 2 * pw) kw sw) * 1)))).
    { rewrite length_seq. reflexivity. }
    intros n. rewrite (length_bind_const _ _ (length (windows (H0 + 2 * ph) kh sh)
                                         * (length (windows (W + 2 * pw) kw sw) * 1))).
    { rewrite length_seq. reflexivity. }
    intros co. rewrite (length_bind_const _ _ (length (windows (W + 2 * pw) kw sw) * 1)).
    { reflexivity. }
    intros i. rewrite (length_bind_const _ _ 1); reflexivity.
  - destruct (shape X) as [|N [|C [|H0 [|W [|? ?]]]]]; try discriminate.
    destruct (_ && _); [|discriminate]. intros [= <-]. cbn [data shape size fold_right].
    rewrite (length_bind_const _ _ (C * (length (windows (H0 + 2 * ph) kh sh)
                                         * (length (windows (W + 2 * pw) kw sw) * 1)))).
    { rewrite length_seq. reflexivity. }
    intros n. rewrite (length_bind_const _ _ (length (windows (H0 + 2 * ph) kh sh)
                                         * (length (windows (W + 2 * pw) kw sw) * 1))).
    { rewrite length_seq. reflexivity. }
    intros co. rewrite (length_bind_const _ _ (length (windows (W + 2 * pw) kw sw) * 1)).
    { reflexivity. }
    intros i. rewrite (length_bind_const _ _ 1); reflexivity.
  - destruct (shape X) as [|N rest]; [discriminate|].
    intros [= <-]. cbn [data shape size fold_right].
    rewrite (length_bind_const _ _ (u * 1)).
    { rewrite length_seq. reflexivity. }
    intros n. rewrite (length_bind_const _ _ 1); [|reflexivity].
    rewrite length_seq. reflexivity.
Qed.

Lemma reshape_wf (s : list nat) (X Y : NDArray A) :
  wf X -> reshape s X = Some Y -> wf Y.
Proof.
  unfold wf, reshape. intros HX.
  destruct (Nat.eqb_spec (size s) (size (shape X))) as [E|]; [|discriminate].
  intros [= <-]. cbn [data shape]. rewrite E. exact HX.
Qed.

End Shapes.

End Gluon_facts.

(** ** Padding and stride *)
Module PaddingStrides_facts.
Import NDArrays Gluon PaddingStrides Gluon_facts.

Section Facts.
Context {A : Type} {SA : Scalar A}.

Lemma size_batch_channel (s : list nat) : size ([1; 1] ++ s) = size s.
Proof. simpl. lia. Qed.

(** [comp_conv2d] on a 2-D input and a one-channel convolution: the
    result and its shape, with the window counts as natural numbers. *)
Lemma comp_conv2d_Conv2D kh kw sh sw ph pw act w b (X : NDArray A) nh nw :
  shape X = [nh; nw] ->
  0 < sh -> 0 < sw -> kh <= nh + 2 * ph -> kw <= nw + 2 * pw ->
  exists Y,
    comp_conv2d (Conv2D 1 (kh, kw) (sh, sw) (ph, pw) act w b) X = Some Y
    /\ shape Y = [(nh + 2 * ph - kh) / sh + 1; (nw + 2 * pw - kw) / sw + 1].
Proof.
  intros HX Hsh Hsw Hkh Hkw. unfold comp_conv2d.
  unfold reshape at 2. rewrite size_batch_channel, Nat.eqb_refl.
  cbn [mbind option_bind].
  destruct (forward_Conv2D_shape 1 kh kw sh sw ph pw act w b
              (mkND ([1; 1] ++ shape X) (data X)) 1 1 nh nw) as (Y & -> & HY);
    try assumption.
  { cbn [shape]. rewrite HX. reflexivity. }
  cbn [mbind option_bind]. rewrite HY. cbn [drop].
  unfold reshape. rewrite HY.
  change [1; 1; ?a; ?b] with ([1; 1] ++ [a; b]).
  rewrite size_batch_channel, Nat.eqb_refl.
  eexists. split; reflexivity.
Qed.

Lemma comp_conv2d_wf (l : Layer A) (X Y : NDArray A) :
  comp_conv2d l X = Some Y -> wf Y.
Proof.
  unfold comp_conv2d. intros Hrun.
  destruct (reshape _ X) as [X'|]; [|discriminate]. cbn [mbind option_bind] in Hrun.
  destruct (forward l X') as [Y'|] eqn:Hf; [|discriminate]. cbn [mbind option_bind] in Hrun.
  eapply reshape_wf; [|exact Hrun]. eapply forward_wf. exact Hf.
Qed.

Lemma out_dim_windows (n pad k s : nat) :
  0 < s -> k <= n + 2 * pad ->
  Z.of_nat ((n + 2 * pad - k) / s + 1) = out_dim n k (2 * pad) s.
Proof.
  intros Hs Hk. unfold out_dim.
  rewrite <- windows_length_Z by assumption.
  rewrite windows_length by assumption. reflexivity.
Qed.

(** C1.  For an input of height and width [n_h], [n_w], a window of
    [k_h] by [k_w], strides [s_h], [s_w] (positive) and a layer that pads
    [pad_h] rows and [pad_w] columns on either side, hence [p_h = 2 pad_h]
    and [p_w = 2 pad_w] in total, with [k_h <= n_h + p_h] and
    [k_w <= n_w + p_w]: [comp_conv2d] returns an array of shape
    [floor((n_h - k_h + p_h + s_h) / s_h)] by
    [floor((n_w - k_w + p_w + s_w) / s_w)], with as many elements as the
    shape says.  In particular an 8 x 8 input
    gives 2 x 2 for [kernel_size=(3, 5), padding=(0, 1), strides=(3, 4)]
    and 4 x 4 for [kernel_size=3, padding=1, strides=2]. *)
Theorem comp_conv2d_output_shape :
  (forall (n_h n_w k_h k_w pad_h pad_w s_h s_w : nat) act w b (X : NDArray A),
      shape X = [n_h; n_w] ->
      0 < s_h -> 0 < s_w ->
      k_h <= n_h + 2 * pad_h -> k_w <= n_w + 2 * pad_w ->
      exists Y,
        comp_conv2d (Conv2D 1 (k_h, k_w) (s_h, s_w) (pad_h, pad_w) act w b) X = Some Y
        /\ Z.of_nat <$> shape Y
           = [out_dim n_h k_h (2 * pad_h) s_h; out_dim n_w k_w (2 * pad_w) s_w]
        /\ wf Y)
  /\ (forall act w b (X : NDArray A),
        shape X = [8; 8] ->
        shape <$> comp_conv2d (Conv2D 1 (3, 5) (3, 4) (0, 1) act w b) X = Some [2; 2])
  /\ (forall act w b (X : NDArray A),
        shape X = [8; 8] ->
        shape <$> comp_conv2d (Conv2D 1 (both 3) (both 2) (both 1) act w b) X
        = Some [4; 4]).
Proof.
  split; [|split].
  - intros n_h n_w k_h k_w pad_h pad_w s_h s_w act w b X HX Hsh Hsw Hkh Hkw.
    destruct (comp_conv2d_Conv2D k_h k_w s_h s_w pad_h pad_w act w b X n_h n_w)
      as (Y & HY & Hshape); try assumption.
    exists Y. split; [assumption|]. split; [|exact (comp_conv2d_wf _ _ _ HY)].
    rewrite Hshape. cbn [fmap list_fmap].
    rewrite !out_dim_windows by assumption. reflexivity.
  - intros act w b X HX.
    destruct (comp_conv2d_Conv2D 3 5 3 4 0 1 act w b X 8 8)
      as (Y & -> & Hshape); try assumption; try lia.
    cbn [fmap option_fmap option_map]. rewrite Hshape. reflexivity.
  - intros act w b X HX. unfold both.
    destruct (comp_conv2d_Conv2D 3 3 2 2 1 1 act w b X 8 8)
      as (Y & -> & Hshape); try assumption; try lia.
    cbn [fmap option_fmap option_map]. rewrite Hshape. reflexivity.
Qed.

(** C10.  The shape [comp_conv2d] returns does not depend on the values
    stored in the input: for two inputs of one shape, and two runs of a
    layer with the same channels, window, stride and padding (whatever
    values [initialize()] has drawn for its parameters in either run),
    both runs fail or both return arrays of one shape. *)
Theorem comp_conv2d_shape_independent_of_values (l1 l2 : Layer A) (X1 X2 : NDArray A) :
  same_geometry l1 l2 ->
  shape X1 = shape X2 ->
  shape <$> comp_conv2d l1 X1 = shape <$> comp_conv2d l2 X2.
Proof.
  intros Hl HX. unfold comp_conv2d.
  unfold reshape at 2 4. rewrite <- HX.
  destruct (size ([1; 1] ++ shape X1) =? size (shape X1)); [|reflexivity].
  cbn [mbind option_bind].
  pose proof (forward_shape_independent l1 l2
                (mkND ([1; 1] ++ shape X1) (data X1))
                (mkND ([1; 1] ++ shape X1) (data X2)) Hl eq_refl) as Hfwd.
  destruct (forward l1 _) as [Y1|], (forward l2 _) as [Y2|];
    cbn [fmap option_fmap option_map] in Hfwd; try discriminate; [|reflexivity].
  injection Hfwd as Hfwd.
  cbn [mbind option_bind]. unfold reshape. rewrite <- Hfwd.
  destruct (size (drop 2 (shape Y1)) =? size (shape Y1)); reflexivity.
Qed.

End Facts.

(** The formula at the notebook's last example: 8 x 8 input, 3 x 5
    window, no padding of the height and 1 column on either side of the
    width, strides 3 and 4. *)
Lemma comp_conv2d_output_shape_witness :
  exists Y,
    comp_conv2d (Conv2D 1 (3, 5) (3, 4) (0, 1) None (fun _ _ _ _ => 1%R) (fun _ => 0%R))
                X_8x8 = Some Y
    /\ Z.of_nat <$> shape Y = [out_dim 8 3 0 3; out_dim 8 5 2 4]
    /\ wf Y.
Proof.
  apply (proj1 comp_conv2d_output_shape 8 8 3 5 0 1 3 4);
    [reflexivity | lia | lia | simpl; lia | simpl; lia].
Defined.

(** Two inputs of shape 8 x 8 with different values, two layers with
    different parameter values. *)
Lemma comp_conv2d_shape_independent_of_values_witness :
  shape <$> comp_conv2d (Conv2D 1 (both 3) (both 2) (both 1) None
                           (fun _ _ _ _ => 1%R) (fun _ => 0%R)) X_8x8
  = shape <$> comp_conv2d (Conv2D 1 (both 3) (both 2) (both 1) (Some relu)
                             (fun _ _ _ _ => 2%R) (fun _ => 1%R))
                          (mkND [8; 8] (replicate 64 1%R)).
Proof.
  apply comp_conv2d_shape_independent_of_values;
    [simpl; repeat split | reflexivity].
Defined.

End PaddingStrides_facts.

(** ** LeNet *)
Module LeNet_facts.
Import NDArrays Gluon LeNet Gluon_facts.

Section Facts.
Context {A : Type} {SA : Scalar A}.

Lemma layer_by_layer_cons (l : Layer A) (rest : list (Layer A)) (X X' : NDArray A) :
  forward l X = Some X' ->
  layer_by_layer (l :: rest) X
  = r ← layer_by_layer rest X'; Some (r.1, shape X' :: r.2).
Proof. intros Hf. cbn [layer_by_layer]. rewrite Hf. reflexivity. Qed.

(** A 5 x 5 convolution that pads 2 cells on either side keeps height
    and width. *)
Lemma conv5_pad2_keeps_size channels act w b (X : NDArray A) N C H W :
  shape X = [N; C; H; W] -> 0 < H -> 0 < W ->
  exists Y, forward (Conv2D channels (both 5) (both 1) (both 2) act w b) X = Some Y
            /\ shape Y = [N; channels; H; W].
Proof.
  intros HX HH HW.
  destruct (forward_Conv2D_shape channels 5 5 1 1 2 2 act w b X N C H W)
    as (Y & HY & HS); try assumption; try lia.
  exists Y. split; [exact HY|].
  rewrite HS, !Nat.div_1_r. f_equal. f_equal. f_equal; [lia|f_equal; lia].
Qed.

(** A 5 x 5 convolution without padding takes 4 off height and width. *)
Lemma conv5_nopad_minus4 channels act w b (X : NDArray A) N C H W :
  shape X = [N; C; H; W] -> 5 <= H -> 5 <= W ->
  exists Y, forward (Conv2D channels (both 5) (both 1) (both 0) act w b) X = Some Y
            /\ shape Y = [N; channels; H - 4; W - 4].
Proof.
  intros HX HH HW.
  destruct (forward_Conv2D_shape channels 5 5 1 1 0 0 act w b X N C H W)
    as (Y & HY & HS); try assumption; try lia.
  exists Y. split; [exact HY|].
  rewrite HS, !Nat.div_1_r. f_equal. f_equal. f_equal; [lia|f_equal; lia].
Qed.

(** A 2 x 2 average pooling of stride 2 halves height and width. *)
Lemma pool2_halves (X : NDArray A) N C H W :
  shape X = [N; C; H; W] -> 2 <= H -> 2 <= W ->
  exists Y, forward (AvgPool2D (both 2) (both 2) (both 0)) X = Some Y
            /\ shape Y = [N; C; H / 2; W / 2].
Proof.
  intros HX HH HW.
  destruct (forward_AvgPool2D_shape 2 2 2 2 0 0 X N C H W)
    as (Y & HY & HS); try assumption; try lia.
  exists Y. split; [exact HY|].
  rewrite HS. f_equal. f_equal.
  assert (Hhalf : forall n, 2 <= n -> (n + 2 * 0 - 2) / 2 + 1 = n / 2).
  { intros n Hn. replace n with (n - 2 + 1 * 2) at 2 by lia.
    rewrite Nat.div_add by lia. f_equal. f_equal. lia. }
  rewrite !Hhalf by assumption. reflexivity.
Qed.

(** C4.  An input of shape (1, 1, 28, 28) goes through LeNet with the
    output shapes (1, 6, 28, 28), (1, 6, 14, 14), (1, 16, 10, 10),
    (1, 16, 5, 5), (1, 120), (1, 84) and (1, 10), whatever the values of
    the input and of the parameters. *)
Theorem lenet_layer_by_layer_shapes (p : Params A) (X : NDArray A) :
  shape X = [1; 1; 28; 28] ->
  exists Y,
    layer_by_layer (net p) X
    = Some (Y, [ [1; 6; 28; 28]; [1; 6; 14; 14]; [1; 16; 10; 10]; [1; 16; 5; 5];
                 [1; 120]; [1; 84]; [1; 10] ])
    /\ shape Y = [1; 10]
    /\ wf Y.
Proof.
  intros HX. unfold net.
  destruct (conv5_pad2_keeps_size 6 (Some sigmoid) (conv0_weight p) (conv0_bias p)
              X 1 1 28 28 HX) as (X1 & F1 & S1); try lia.
  destruct (pool2_halves X1 1 6 28 28 S1) as (X2 & F2 & S2); try lia.
  change (28 / 2) with 14 in S2.
  destruct (conv5_nopad_minus4 16 (Some sigmoid) (conv1_weight p) (conv1_bias p)
              X2 1 6 14 14 S2) as (X3 & F3 & S3); try lia.
  change (14 - 4) with 10 in S3.
  destruct (pool2_halves X3 1 16 10 10 S3) as (X4 & F4 & S4); try lia.
  change (10 / 2) with 5 in S4.
  destruct (forward_Dense_shape 120 (Some sigmoid) (dense0_weight p) (dense0_bias p)
              X4 _ _ S4) as (X5 & F5 & S5).
  destruct (forward_Dense_shape 84 (Some sigmoid) (dense1_weight p) (dense1_bias p)
              X5 _ _ S5) as (X6 & F6 & S6).
  destruct (forward_Dense_shape 10 None (dense2_weight p) (dense2_bias p)
              X6 _ _ S6) as (X7 & F7 & S7).
  exists X7. split; [|split; [exact S7|exact (forward_wf _ _ _ F7)]].
  rewrite (layer_by_layer_cons _ _ _ _ F1), (layer_by_layer_cons _ _ _ _ F2),
          (layer_by_layer_cons _ _ _ _ F3), (layer_by_layer_cons _ _ _ _ F4),
          (layer_by_layer_cons _ _ _ _ F5), (layer_by_layer_cons _ _ _ _ F6),
          (layer_by_layer_cons _ _ _ _ F7).
  cbn [layer_by_layer mbind option_bind fst snd].
  rewrite S1, S2, S3, S4, S5, S6, S7. reflexivity.
Qed.

End Facts.

(** The all-zero input and parameters. *)
Lemma lenet_layer_by_layer_shapes_witness :
  exists Y,
    layer_by_layer (net zero_params) (mkND [1; 1; 28; 28] (replicate 784 0%R))
    = Some (Y, [ [1; 6; 28; 28]; [1; 6; 14; 14]; [1; 16; 10; 10]; [1; 16; 5; 5];
                 [1; 120]; [1; 84]; [1; 10] ])
    /\ shape Y = [1; 10]
    /\ wf Y.
Proof.
  apply lenet_layer_by_layer_shapes. reflexivity.
Defined.

End LeNet_facts.

(** ** The MNIST perceptron *)
Module Mnist_facts.
Import NDArrays Gluon Mnist.

Section Facts.
Context {A : Type} {SA : Scalar A}.

(** What a dense layer computes: the affine transform, then the
    activation when the layer has one. *)
Lemma forward_Dense_data units act w b (X : NDArray A) N rest :
  shape X = N :: rest ->
  forward (Dense units act w b) X
  = Some (mkND [N; units]
            (n ← seq 0 N; u ← seq 0 units; [apply_act act (affine_at w b X n u)])).
Proof.
  intros HX. unfold forward, affine_at. rewrite HX. reflexivity.
Qed.

(** C7, as the code has it.  Every layer of the perceptron is a
    fully-connected layer; the layers of 128 and 64 units apply ReLU to
    the affine transform, and the last layer, of 10 units, applies no
    nonlinearity: it returns the affine transform itself. *)
Theorem mlp_layers (p : Params A) :
  Forall (fun l => is_dense l = true) (net p)
  /\ activation_of <$> net p = [Some relu; Some relu; None]
  /\ dense_then_nonlinearity <$> net p = [true; true; false]
  /\ (forall (X : NDArray A) N rest,
        shape X = N :: rest ->
        nth 2 (forward <$> net p) (fun _ => None) X
        = Some (mkND [N; 10]
                  (n ← seq 0 N; u ← seq 0 10;
                   [affine_at (fc2_weight p) (fc2_bias p) X n u]))).
Proof.
  split; [|split; [|split]].
  - unfold net. repeat constructor.
  - reflexivity.
  - reflexivity.
  - intros X N rest HX. cbn [net fmap list_fmap nth].
    rewrite (forward_Dense_data _ _ _ _ _ N rest HX). reflexivity.
Qed.

End Facts.

(** The claim as stated fails: the last layer of the perceptron is a
    fully-connected transform with no nonlinearity after it. *)
Lemma mlp_last_layer_is_linear :
  exists l, nth_error (net zero_params) 2 = Some l
            /\ is_dense l = true
            /\ activation_of l = None
            /\ dense_then_nonlinearity l = false.
Proof.
  eexists. split; [reflexivity|]. repeat split.
Qed.

(** The last layer on a batch of two all-zero images. *)
Lemma mlp_layers_witness :
  nth 2 (forward <$> net zero_params) (fun _ => None)
      (mkND [2; 1; 28; 28] (replicate 1568 0%R))
  = Some (mkND [2; 10]
            (n ← seq 0 2; u ← seq 0 10;
             [affine_at (fc2_weight zero_params) (fc2_bias zero_params)
                        (mkND [2; 1; 28; 28] (replicate 1568 0%R)) n u])).
Proof.
  apply (proj2 (proj2 (proj2 (mlp_layers zero_params))) _ 2 [1; 28; 28]).
  reflexivity.
Defined.

End Mnist_facts.

(** ** Multi-GPU training *)
Module MultiGpu_facts.
Import MultiGpu.

Section Facts.
Context {V : Type} {AV : Arrays V}.

Lemma replicas_agree_initialize (init : nat -> V) (ctx : list nat) (net : list (Param V)) :
  replicas_agree (initialize init ctx net).
Proof.
  unfold replicas_agree, initialize.
  apply Forall_forall. intros p Hp.
  apply elem_of_lookup_imap in Hp as (i & q & -> & _).
  cbn [data]. intros v w Hv Hw.
  apply list_elem_of_fmap in Hv as (? & -> & _).
  apply list_elem_of_fmap in Hw as (? & -> & _).
  reflexivity.
Qed.

Lemma replicas_agree_trained (net : list (Param V)) :
  replicas_agree net -> trained_replicas_agree net.
Proof.
  unfold replicas_agree, trained_replicas_agree. intros Hnet.
  eapply Forall_impl; [exact Hnet|]. intros p Hp _. exact Hp.
Qed.

(** The forward pass leaves the parameters with a gradient as they
    are. *)
Lemma trained_replicas_agree_forward (moving_average : V -> V -> V) (b : Batch V)
    (net : list (Param V)) :
  trained_replicas_agree net -> trained_replicas_agree (forward moving_average b net).
Proof.
  unfold trained_replicas_agree, forward. rewrite !Forall_forall. intros Hnet p Hp.
  apply elem_of_lookup_imap in Hp as (i & q & -> & Hq).
  apply list_elem_of_lookup_2 in Hq.
  destruct (grad_req q) eqn:Hreq; [|discriminate].
  intros _. apply (Hnet q Hq Hreq).
Qed.

(** [backward] writes gradients only. *)
Lemma trained_replicas_agree_backward (b : Batch V) (net : list (Param V)) :
  trained_replicas_agree net -> trained_replicas_agree (backward b net).
Proof.
  unfold trained_replicas_agree, backward. rewrite !Forall_forall. intros Hnet p Hp.
  apply elem_of_lookup_imap in Hp as (i & q & -> & Hq).
  apply list_elem_of_lookup_2 in Hq.
  cbn [grad_req data]. exact (Hnet q Hq).
Qed.

(** The update every replica receives is the same function of the same
    summed gradient, so equal replicas stay equal. *)
Lemma trained_replicas_agree_step (update : V -> V -> V) (net : list (Param V)) :
  trained_replicas_agree net -> trained_replicas_agree (step update net).
Proof.
  unfold trained_replicas_agree, step. rewrite !Forall_forall. intros Hnet p Hp.
  apply list_elem_of_fmap in Hp as (q & -> & Hq).
  unfold step_param. destruct (grad_req q) eqn:Hreq; [|rewrite Hreq; discriminate].
  destruct (allreduce (grad q)) as [s|]; [|rewrite Hreq; intros _; exact (Hnet q Hq Hreq)].
  cbn [grad_req data]. intros _ v w Hv Hw.
  apply list_elem_of_fmap in Hv as (v0 & -> & Hv0).
  apply list_elem_of_fmap in Hw as (w0 & -> & Hw0).
  f_equal. exact (Hnet q Hq Hreq v0 w0 Hv0 Hw0).
Qed.

Lemma Forall_last {X} (P : X -> Prop) (l : list X) (d : X) :
  Forall P l -> P d -> P (List.last l d).
Proof.
  intros Hl Hd. induction Hl as [|x l Hx Hl IH]; [exact Hd|].
  destruct l; [exact Hx|exact IH].
Qed.

Lemma trained_replicas_agree_epoch (update moving_average : V -> V -> V)
    (train_iter : list (Batch V)) (net : list (Param V)) :
  trained_replicas_agree net ->
  Forall trained_replicas_agree (epoch update moving_average train_iter net).
Proof.
  revert net. induction train_iter as [|b rest IH]; intros net Hnet; [constructor|].
  cbn [epoch].
  pose proof (trained_replicas_agree_forward moving_average b net Hnet) as H1.
  pose proof (trained_replicas_agree_backward b _ H1) as H2.
  pose proof (trained_replicas_agree_step update _ H2) as H3.
  repeat constructor; auto.
Qed.

Lemma trained_replicas_agree_epochs (n : nat) (update moving_average : V -> V -> V)
    (train_iter : list (Batch V)) (net : list (Param V)) :
  trained_replicas_agree net ->
  Forall trained_replicas_agree (epochs n update moving_average train_iter net).
Proof.
  revert net. induction n as [|n IH]; intros net Hnet; [constructor|].
  cbn [epochs].
  pose proof (trained_replicas_agree_epoch update moving_average train_iter net Hnet) as Hall.
  apply Forall_app. split; [assumption|].
  apply IH, Forall_last; assumption.
Qed.

(** C5, as amended.  In every state that [train] goes through (after
    [initialize], after the forward passes, after each [backward], after
    each [trainer.step]) all devices hold the same value of every
    parameter that has a gradient; [initialize] leaves the same value of
    every parameter, the running statistics included, on all devices; on
    two devices, the values it leaves on [gpu(0)] and [gpu(1)] are both
    the initialized value. *)
Theorem train_trained_replicas_agree (num_gpus : nat) (init : nat -> V)
    (update moving_average : V -> V -> V)
    (train_iter : list (Batch V)) (net : list (Param V)) :
  Forall trained_replicas_agree (train num_gpus init update moving_average train_iter net)
  /\ replicas_agree (initialize init (ctx_list num_gpus) net)
  /\ Forall (fun p => exists v, data p !! 0 = Some v /\ data p !! 1 = Some v)
            (initialize init (ctx_list 2) net).
Proof.
  split; [|split].
  - unfold train. constructor.
    + apply replicas_agree_trained, replicas_agree_initialize.
    + apply trained_replicas_agree_epochs, replicas_agree_trained, replicas_agree_initialize.
  - apply replicas_agree_initialize.
  - apply Forall_forall. intros p Hp.
    apply elem_of_lookup_imap in Hp as (i & q & -> & _).
    exists (init i). split; reflexivity.
Qed.

End Facts.

(** The claim as stated fails: after the first [trainer.step] both
    devices hold the same weight, bias, [gamma] and [beta], but the
    running mean is 0 on [gpu(0)] and 1/10 on [gpu(1)], and the running
    variance 1 and 11/10. *)
Lemma running_mean_differs_between_devices :
  exists st,
    train 2 first_two_layers_init (sgd (1 / 10)) (momentum_average (9 / 10))
          [halves] first_two_layers !! 3 = Some st
    /\ data <$> st
       = [ [(- (19 / 100))%R; (- (19 / 100))%R];
           [(- (2 / 10))%R; (- (2 / 10))%R];
           [(8 / 10)%R; (8 / 10)%R];
           [(- (2 / 10))%R; (- (2 / 10))%R];
           [0%R; (1 / 10)%R];
           [1%R; (11 / 10)%R] ]
    /\ ~ replicas_agree st.
Proof.
  eexists. split; [reflexivity|]. split.
  - cbn. unfold momentum_average, sgd. cbn.
    repeat f_equal; lra.
  - intros Hagree. do 4 apply Forall_inv_tail in Hagree. apply Forall_inv in Hagree.
    cbn in Hagree. unfold momentum_average in Hagree. cbn in Hagree.
    specialize (Hagree _ _ (list_elem_of_here _ _)
                         (list_elem_of_further _ _ _ (list_elem_of_here _ _))).
    lra.
Qed.

End MultiGpu_facts.

(** ** Deferred initialization *)
Module DeferredInit_facts.
Import NDArrays DeferredInit.

Lemma size_singleton (u : nat) : size [u] = u.
Proof. simpl. lia. Qed.

Lemma shape_known_pair (u k : nat) : 0 < u -> 0 < k -> shape_known [u; k] = true.
Proof.
  intros Hu Hk. unfold shape_known. cbn [forallb].
  rewrite (proj2 (Nat.ltb_lt 0 u) Hu), (proj2 (Nat.ltb_lt 0 k) Hk). reflexivity.
Qed.

Lemma shape_known_singleton (u : nat) : 0 < u -> shape_known [u] = true.
Proof.
  intros Hu. unfold shape_known. cbn [forallb].
  rewrite (proj2 (Nat.ltb_lt 0 u) Hu). reflexivity.
Qed.

Lemma shape_unknown (u : nat) : shape_known [u; 0] = false.
Proof. unfold shape_known. cbn. apply andb_false_r. Qed.

(** Building the stack numbers the blocks from the counter and prints
    nothing. *)
Lemma dense_stack_fresh layers w :
  dense_stack layers w
  = (fresh_stack (created w) layers,
     {| created := created w + length layers; stdout := stdout w |}).
Proof.
  revert w. induction layers as [|[u act] rest IH]; intros w.
  - cbn. rewrite Nat.add_0_r. destruct w; reflexivity.
  - cbn [dense_stack Dense]. rewrite IH. cbn [created stdout length fresh_stack].
    rewrite Nat.add_succ_r. reflexivity.
Qed.

(** [initialize] on a stack without [in_units]: every weight is
    postponed, every bias is set to zero, nothing is printed. *)
Lemma initialize_fresh init id layers out :
  positive_units layers ->
  initialize init false (fresh_stack id layers) out
  = (postponed_stack init id layers, out).
Proof.
  intros Hpos. revert id.
  induction Hpos as [|[u act] rest Hu Hrest IH]; intros id; [reflexivity|].
  cbn [fresh_stack initialize weight_p bias_p units activation].
  unfold param_initialize, is_ready.
  cbn [pstate pshape own_init pname andb default set_state].
  rewrite shape_unknown, (shape_known_singleton u Hu).
  cbn [_init_weight]. rewrite app_nil_r, IH. reflexivity.
Qed.

Lemma param_use_deferred s name s0 own i out :
  shape_known s = true ->
  param_use s {| pname := name; pshape := s0; own_init := own; pstate := Deferred i |} out
  = Some ({| pname := name; pshape := s; own_init := own; pstate := Ready |},
          out ++ _init_weight i name s).
Proof. intros Hs. unfold param_use. cbn [pstate]. rewrite Hs. reflexivity. Qed.

Lemma param_use_ready s name own out :
  param_use s {| pname := name; pshape := s; own_init := own; pstate := Ready |} out
  = Some ({| pname := name; pshape := s; own_init := own; pstate := Ready |}, out).
Proof.
  unfold param_use. cbn [pstate pshape].
  rewrite bool_decide_eq_true_2 by reflexivity. reflexivity.
Qed.

(** The first forward computation infers every input dimension, runs
    the postponed initializer once per weight and leaves every parameter
    ready. *)
Lemma net_forward_postponed id layers n feat out :
  positive_units layers -> 0 < size feat ->
  net_forward (postponed_stack MyInit id layers) (n :: feat) out
  = Some (ready_stack id (size feat) layers,
          stack_output (n :: feat) layers,
          out ++ init_lines id (size feat) layers).
Proof.
  intros Hpos. revert id feat out.
  induction Hpos as [|[u act] rest Hu Hrest IH]; intros id feat out Hfeat.
  - cbn. rewrite app_nil_r. reflexivity.
  - cbn [postponed_stack net_forward dense_forward units activation weight_p bias_p].
    rewrite param_use_deferred by (apply shape_known_pair; assumption).
    cbn [mbind option_bind fst snd _init_weight].
    rewrite param_use_ready.
    cbn [mbind option_bind fst snd].
    rewrite (IH (S id) [u] (out ++ [_])) by (rewrite size_singleton; exact Hu).
    cbn [mbind option_bind fst snd]. rewrite size_singleton, <- app_assoc.
    reflexivity.
Qed.

(** Every later forward computation on an input with as many features
    finds the parameters ready: nothing changes and nothing is printed. *)
Lemma net_forward_ready id layers n feat out :
  net_forward (ready_stack id (size feat) layers) (n :: feat) out
  = Some (ready_stack id (size feat) layers, stack_output (n :: feat) layers, out).
Proof.
  revert id feat out.
  induction layers as [|[u act] rest IH]; intros id feat out; [reflexivity|].
  cbn [ready_stack net_forward dense_forward units activation weight_p bias_p].
  rewrite param_use_ready. cbn [mbind option_bind fst snd].
  rewrite param_use_ready. cbn [mbind option_bind fst snd].
  pose proof (IH (S id) [u] out) as IH'. rewrite size_singleton in IH'.
  rewrite IH'. reflexivity.
Qed.


Lemma weight_shapes_ready id k layers :
  weight_shapes (ready_stack id k layers) = line_shape <$> init_lines id k layers.
Proof.
  revert id k. induction layers as [|[u act] rest IH]; intros id k; [reflexivity|].
  cbn. f_equal. apply IH.
Qed.




End DeferredInit_facts.

(** ** Greedy prediction *)
Module Prediction_facts.
Import Py MachineTranslation Prediction.

Section Facts.
Variable m : Seq2Seq.
Variable out_vocab : Vocabulary.

(** What the loop adds to the tokens collected so far: at most one token
    per iteration, none of them the end-of-sequence token. *)
Lemma greedy_appends (n : nat) (dec_input : nat) (dec_state : State m)
    (enc_output : EncOut m) (acc out : list string) :
  greedy m out_vocab n dec_input dec_state enc_output acc = Some out ->
  exists new, out = acc ++ new /\ length new <= n /\ EOS ∉ new.
Proof.
  revert dec_input dec_state acc.
  induction n as [|n IH]; intros dec_input dec_state acc; cbn [greedy].
  - intros [= <-]. exists []. rewrite app_nil_r.
    split; [reflexivity|]. split; [reflexivity|]. apply not_elem_of_nil.
  - destruct (decoder m dec_input dec_state enc_output) as [dec_output dec_state'].
    destruct (idx_to_token out_vocab !! argmax m dec_output) as [pred_token|];
      cbn [mbind option_bind]; [|discriminate].
    destruct (String.eqb_spec pred_token EOS) as [->|Hneq].
    + intros [= <-]. exists []. rewrite app_nil_r.
      split; [reflexivity|]. split; [cbn; lia|]. apply not_elem_of_nil.
    + intros Hrun. apply IH in Hrun as (new & -> & Hlen & Hnew).
      exists (pred_token :: new). rewrite <- app_assoc.
      split; [reflexivity|]. split; [cbn; lia|].
      apply not_elem_of_cons. split; [congruence|assumption].
Qed.

(** The loop returns whenever every prediction is an index of the
    vocabulary. *)
Lemma greedy_returns (n : nat) (dec_input : nat) (dec_state : State m)
    (enc_output : EncOut m) (acc : list string) :
  (forall s, argmax m s < length (idx_to_token out_vocab)) ->
  is_Some (greedy m out_vocab n dec_input dec_state enc_output acc).
Proof.
  intros Hrange. revert dec_input dec_state acc.
  induction n as [|n IH]; intros dec_input dec_state acc; cbn [greedy]; [eauto|].
  destruct (decoder m dec_input dec_state enc_output) as [dec_output dec_state'].
  destruct (lookup_lt_is_Some_2 _ _ (Hrange dec_output)) as [pred_token ->].
  cbn [mbind option_bind].
  destruct (String.eqb pred_token EOS); [eauto|apply IH].
Qed.

(** C6.  For every input sequence and every [max_seq_len] (a length,
    hence a natural number), the list [translate] returns has at most
    [max_seq_len] tokens and does not contain the end-of-sequence token;
    and [translate] does return when the beginning-of-sequence token is
    in the output vocabulary and every prediction is one of its indices. *)
Theorem translate_bounded_and_eos_free (in_vocab : Vocabulary) (input_seq : string)
    (max_seq_len : nat) :
  (forall out,
      translate m in_vocab out_vocab input_seq (Z.of_nat max_seq_len) = Some out ->
      length out <= max_seq_len /\ EOS ∉ out)
  /\ (is_Some (token_to_idx out_vocab BOS) ->
      (forall s, argmax m s < length (idx_to_token out_vocab)) ->
      is_Some (translate m in_vocab out_vocab input_seq (Z.of_nat max_seq_len))).
Proof.
  unfold translate. rewrite Nat2Z.id.
  destruct (encoder m _) as [enc_output enc_state].
  split.
  - intros out.
    destruct (token_to_idx out_vocab BOS) as [dec_input|];
      cbn [mbind option_bind]; [|discriminate].
    intros Hrun. apply greedy_appends in Hrun as (new & -> & Hlen & Hnew).
    split; assumption.
  - intros [dec_input ->] Hrange. cbn [mbind option_bind].
    apply greedy_returns. assumption.
Qed.

End Facts.

(** The toy model translates to two tokens within a bound of 7. *)
Lemma translate_bounded_and_eos_free_witness :
  length ["they"; "are"]%string <= 7 /\ EOS ∉ ["they"; "are"]%string.
Proof.
  apply (proj1 (translate_bounded_and_eos_free toy_model toy_vocab toy_vocab
                  "ils regardent ." 7)).
  reflexivity.
Defined.

End Prediction_facts.

(** ** The store *)
Module Py_facts.
Import Py.

Lemma Py_bind_unfold {X Y} (f : X -> Py Y) (m : Py X) (h : heap) :
  (m ≫= f) h = match m h with Some (x, h') => f x h' | None => None end.
Proof. reflexivity. Qed.

Lemma get_Some l v h : store h !! l = Some v -> get l h = Some (v, h).
Proof. intros Hl. unfold get. rewrite Hl. reflexivity. Qed.

Lemma store_update l v h : store (update l v h) = <[l := v]> (store h).
Proof. reflexivity. Qed.

Lemma heap_ok_empty : heap_ok empty_heap.
Proof. intros l v Hl. cbn in Hl. rewrite lookup_empty in Hl. discriminate. Qed.

End Py_facts.

(** ** Reading the data *)
Module MachineTranslation_facts.
Import NDArrays Py MachineTranslation Py_facts.

Lemma process_one_seq_spec seq_tokens all_tokens all_seqs max_seq_len h s a q :
  seq_tokens <> all_tokens -> seq_tokens <> all_seqs -> all_tokens <> all_seqs ->
  store h !! seq_tokens = Some s ->
  store h !! all_tokens = Some a ->
  store h !! all_seqs = Some q ->
  process_one_seq seq_tokens all_tokens all_seqs max_seq_len h
  = Some (tt,
          update all_seqs (q ++ [Ref seq_tokens])
            (update seq_tokens
               (s ++ [Str EOS]
                  ++ replicate (Z.to_nat (max_seq_len - Z.of_nat (length s) - 1)) (Str PAD))
               (update all_tokens (a ++ s) h))).
Proof.
  intros Hst Hsq Htq Hs Ha Hq. unfold process_one_seq.
  rewrite Py_bind_unfold, (get_Some _ _ _ Hs).
  rewrite Py_bind_unfold, (get_Some _ _ _ Ha).
  rewrite Py_bind_unfold. unfold put at 1.
  rewrite Py_bind_unfold, (get_Some seq_tokens s).
  2:{ rewrite store_update, lookup_insert_ne by congruence. exact Hs. }
  rewrite Py_bind_unfold. unfold put at 1.
  rewrite Py_bind_unfold, (get_Some all_seqs q).
  2:{ rewrite !store_update, !lookup_insert_ne by congruence. exact Hq. }
  reflexivity.
Qed.

Lemma padded_length msl t :
  (Z.of_nat (length t) <= msl - 1)%Z -> Z.of_nat (length (padded msl t)) = msl.
Proof.
  intros Hlen. unfold padded. rewrite !length_app, length_replicate. cbn [length]. lia.
Qed.

Lemma strs_padded msl t :
  strs t ++ [Str EOS] ++ replicate (Z.to_nat (msl - Z.of_nat (length (strs t)) - 1)) (Str PAD)
  = strs (padded msl t).
Proof.
  unfold strs, padded. rewrite !map_app, length_map. cbn [map].
  do 2 f_equal. induction (Z.to_nat _) as [|k IH]; [reflexivity|].
  cbn. f_equal. exact IH.
Qed.

Lemma tokens_of_strs t : tokens_of (strs t) = t.
Proof. induction t as [|x t IH]; [reflexivity|]. cbn. f_equal. exact IH. Qed.

(** What [process_one_seq] leaves in the store. *)
Lemma process_one_seq_props seq_tokens all_tokens all_seqs max_seq_len h s a q :
  seq_tokens <> all_tokens -> seq_tokens <> all_seqs -> all_tokens <> all_seqs ->
  store h !! seq_tokens = Some s ->
  store h !! all_tokens = Some a ->
  store h !! all_seqs = Some q ->
  exists h',
    process_one_seq seq_tokens all_tokens all_seqs max_seq_len h = Some (tt, h')
    /\ next h' = next h
    /\ store h' !! seq_tokens
       = Some (s ++ [Str EOS]
                 ++ replicate (Z.to_nat (max_seq_len - Z.of_nat (length s) - 1)) (Str PAD))
    /\ store h' !! all_tokens = Some (a ++ s)
    /\ store h' !! all_seqs = Some (q ++ [Ref seq_tokens])
    /\ (forall l, l <> seq_tokens -> l <> all_tokens -> l <> all_seqs ->
                  store h' !! l = store h !! l)
    /\ (forall l, is_Some (store h' !! l) -> is_Some (store h !! l)).
Proof.
  intros Hst Hsq Htq Hs Ha Hq.
  eexists. split; [apply process_one_seq_spec; eassumption|].
  rewrite !store_update. cbn [next update].
  split; [reflexivity|].
  split. { rewrite lookup_insert_ne, lookup_insert_eq by congruence. reflexivity. }
  split. { rewrite !lookup_insert_ne, lookup_insert_eq by congruence. reflexivity. }
  split. { rewrite lookup_insert_eq. reflexivity. }
  split. { intros l H1 H2 H3. rewrite !lookup_insert_ne by congruence. reflexivity. }
  intros l.
  destruct (decide (l = all_seqs)) as [->|]; [rewrite Hq; eauto|].
  destruct (decide (l = seq_tokens)) as [->|]; [rewrite Hs; eauto|].
  destruct (decide (l = all_tokens)) as [->|]; [rewrite Ha; eauto|].
  rewrite !lookup_insert_ne by congruence. auto.
Qed.

Lemma new_list_props v h :
  exists h',
    new_list v h = Some (next h, h')
    /\ next h' = S (next h)
    /\ store h' !! next h = Some v
    /\ forall l, l <> next h -> store h' !! l = store h !! l.
Proof.
  eexists. split; [reflexivity|]. cbn [next store].
  split; [reflexivity|]. split; [apply lookup_insert_eq|].
  intros l Hl. apply lookup_insert_ne. congruence.
Qed.

Lemma recorded_frame msl c h h' cell seqs :
  recorded msl c h cell seqs ->
  store h' !! cell = store h !! cell ->
  (forall l, c + 4 <= l -> is_Some (store h !! l) -> store h' !! l = store h !! l) ->
  recorded msl c h' cell seqs.
Proof.
  intros (ls & Hcell & Hall) Hsame Hframe. exists ls.
  split; [rewrite Hsame; exact Hcell|].
  eapply Forall2_impl; [exact Hall|].
  intros l t (Hl & Hlook & Hlen). cbn beta.
  rewrite (Hframe l Hl) by (rewrite Hlook; eauto). auto.
Qed.

Lemma recorded_snoc msl c h h' cell seqs q l t :
  recorded msl c h cell seqs ->
  store h !! cell = Some q ->
  store h' !! cell = Some (q ++ [Ref l]) ->
  (forall l, c + 4 <= l -> is_Some (store h !! l) -> store h' !! l = store h !! l) ->
  c + 4 <= l ->
  store h' !! l = Some (strs (padded msl t)) ->
  (Z.of_nat (length t) <= msl - 1)%Z ->
  recorded msl c h' cell (seqs ++ [t]).
Proof.
  intros (ls & Hcell & Hall) Hq Hq' Hframe Hl Hlook Hlen.
  exists (ls ++ [l]). split.
  - rewrite Hq', fmap_app. rewrite Hcell in Hq. injection Hq as <-. reflexivity.
  - apply Forall2_app; [|repeat constructor; assumption].
    eapply Forall2_impl; [exact Hall|].
    intros l0 t0 (Hl0 & Hlook0 & Hlen0). cbn beta.
    rewrite (Hframe l0 Hl0) by (rewrite Hlook0; eauto). auto.
Qed.

Lemma strs_concat_snoc ins i : strs (concat ins) ++ strs i = strs (concat (ins ++ [i])).
Proof. unfold strs. rewrite concat_app, map_app. cbn. rewrite app_nil_r. reflexivity. Qed.

Lemma length_strs t : length (strs t) = length t.
Proof. apply length_map. Qed.

Lemma read_line_fields msl c ins outs h line i o :
  reading msl c ins outs h ->
  fields line = Some (i, o) ->
  exists h',
    read_line msl c (c + 1) (c + 2) (c + 3) line h = Some (tt, h')
    /\ reading msl c (ins ++ (if kept msl (i, o) then [i] else []))
                     (outs ++ (if kept msl (i, o) then [o] else [])) h'.
Proof.
  intros [Hnext Hok Hit Hot His Hos] Hf.
  unfold fields in Hf.
  destruct (split tab (rstrip line)) as [|a [|b [|? ?]]] eqn:Esplit; try discriminate.
  injection Hf as <- <-.
  unfold read_line. rewrite Esplit. cbn [unpack2].
  rewrite Py_bind_unfold. cbn [mret Py_ret fst snd].
  destruct (new_list_props (strs (split space a)) h) as (h1 & E1 & N1 & L1 & F1).
  rewrite Py_bind_unfold, E1.
  destruct (new_list_props (strs (split space b)) h1) as (h2 & E2 & N2 & L2 & F2).
  rewrite Py_bind_unfold, E2.
  assert (La1 : store h2 !! next h = Some (strs (split space a))).
  { rewrite F2 by lia. exact L1. }
  rewrite N1 in *.
  rewrite Py_bind_unfold, (get_Some _ _ _ La1).
  rewrite Py_bind_unfold, (get_Some _ _ _ L2).
  rewrite !length_strs.
  assert (Hold : forall l, l < next h -> store h2 !! l = store h !! l).
  { intros l Hl. rewrite F2, F1 by lia. reflexivity. }
  assert (Hlt : forall l, is_Some (store h !! l) -> l < next h).
  { intros l [v Hv]. eapply Hok; eassumption. }
  assert (Hok2 : heap_ok h2).
  { intros l v Hv. rewrite N2.
    destruct (decide (l = S (next h))) as [->|]; [lia|]. rewrite F2 in Hv by assumption.
    destruct (decide (l = next h)) as [->|]; [lia|]. rewrite F1 in Hv by assumption.
    apply Hok in Hv. lia. }
  unfold kept. cbn [fst snd].
  destruct (Z.max _ _ >? msl - 1)%Z eqn:Ecmp; cbn [negb].
  - (* the line is skipped *)
    eexists. split; [reflexivity|]. rewrite !app_nil_r.
    split; try assumption.
    + lia.
    + rewrite Hold by lia. exact Hit.
    + rewrite Hold by lia. exact Hot.
    + eapply recorded_frame; [exact His|apply Hold; lia|].
      intros l _ Hl. apply Hold, Hlt, Hl.
    + eapply recorded_frame; [exact Hos|apply Hold; lia|].
      intros l _ Hl. apply Hold, Hlt, Hl.
  - (* the line is kept *)
    rewrite Z.gtb_ltb in Ecmp. apply Z.ltb_ge in Ecmp.
    destruct His as (lsi & Hcelli & Halli), Hos as (lso & Hcello & Hallo).
    destruct (process_one_seq_props (next h) c (c + 2) msl h2
                (strs (split space a)) (strs (concat ins)) (Ref <$> lsi))
      as (h3 & E3 & N3 & S3 & T3 & Q3 & F3 & D3); try lia; try assumption.
    { rewrite Hold by lia. exact Hit. }
    { rewrite Hold by lia. exact Hcelli. }
    rewrite Py_bind_unfold, E3.
    destruct (process_one_seq_props (S (next h)) (c + 1) (c + 3) msl h3
                (strs (split space b)) (strs (concat outs)) (Ref <$> lso))
      as (h4 & E4 & N4 & S4 & T4 & Q4 & F4 & D4); try lia.
    { rewrite F3 by lia. exact L2. }
    { rewrite F3, Hold by lia. exact Hot. }
    { rewrite F3, Hold by lia. exact Hcello. }
    exists h4. split; [exact E4|].
    rewrite strs_padded in S3, S4. rewrite strs_concat_snoc in T3, T4.
    assert (Hframe : forall l, c + 4 <= l -> is_Some (store h !! l) ->
                               store h4 !! l = store h !! l).
    { intros l Hl Hsome. apply Hlt in Hsome.
      rewrite F4, F3, Hold by lia. reflexivity. }
    split.
    + lia.
    + intros l v Hv. rewrite N4, N3, N2.
      assert (Hsome : is_Some (store h2 !! l)) by (apply D3, D4; eauto).
      destruct Hsome as [v2 Hv2]. apply Hok2 in Hv2. lia.
    + rewrite F4 by lia. exact T3.
    + exact T4.
    + eapply (recorded_snoc msl c h h4 (c + 2) ins (Ref <$> lsi) (next h)).
      * exists lsi. split; assumption.
      * exact Hcelli.
      * rewrite F4 by lia. exact Q3.
      * exact Hframe.
      * lia.
      * rewrite F4 by lia. exact S3.
      * lia.
    + eapply (recorded_snoc msl c h h4 (c + 3) outs (Ref <$> lso) (S (next h))).
      * exists lso. split; assumption.
      * exact Hcello.
      * exact Q4.
      * exact Hframe.
      * lia.
      * exact S4.
      * lia.
Qed.

Lemma read_line_raises msl c1 c2 c3 c4 line h :
  fields line = None -> read_line msl c1 c2 c3 c4 line h = None.
Proof.
  unfold fields, read_line. intros Hf. rewrite Py_bind_unfold.
  destruct (split tab (rstrip line)) as [|a [|b [|? ?]]]; try reflexivity.
  discriminate.
Qed.

Lemma for_lines_reading msl c lines ins outs h :
  reading msl c ins outs h ->
  match all_fields lines with
  | None => for_lines (read_line msl c (c + 1) (c + 2) (c + 3)) lines h = None
  | Some pairs =>
      exists h',
        for_lines (read_line msl c (c + 1) (c + 2) (c + 3)) lines h = Some (tt, h')
        /\ reading msl c (ins ++ (fst <$> List.filter (kept msl) pairs))
                         (outs ++ (snd <$> List.filter (kept msl) pairs)) h'
  end.
Proof.
  revert ins outs h. induction lines as [|line rest IH]; intros ins outs h Hrd.
  - cbn. exists h. rewrite !app_nil_r. split; [reflexivity|assumption].
  - cbn [all_fields for_lines]. rewrite Py_bind_unfold.
    destruct (fields line) as [[i o]|] eqn:Ef; cbn [mbind option_bind].
    + destruct (read_line_fields msl c ins outs h line i o Hrd Ef) as (h1 & -> & Hrd1).
      specialize (IH _ _ _ Hrd1).
      destruct (all_fields rest) as [pairs|]; cbn [mbind option_bind]; [|exact IH].
      destruct IH as (h' & Hrun & Hrd'). exists h'. split; [exact Hrun|].
      cbn [List.filter]. destruct (kept msl (i, o));
        cbn [fmap list_fmap fst snd];
        rewrite <- ?app_assoc in Hrd'; cbn [app] in Hrd'; rewrite ?app_nil_r in Hrd';
        exact Hrd'.
    + rewrite (read_line_raises _ _ _ _ _ _ _ Ef). reflexivity.
Qed.

Lemma indices_of_recorded msl c h seqs vocab ls :
  Forall2 (fun l t => c + 4 <= l
                      /\ store h !! l = Some (strs (padded msl t))
                      /\ (Z.of_nat (length t) <= msl - 1)%Z) ls seqs ->
  indices_of vocab (Ref <$> ls) h
  = Some ((fun t => to_indices vocab (padded msl t)) <$> seqs, h).
Proof.
  induction 1 as [|l t ls seqs (Hl & Hlook & Hlen) Hall IH]; [reflexivity|].
  cbn [fmap list_fmap indices_of].
  rewrite Py_bind_unfold, (get_Some _ _ _ Hlook).
  rewrite Py_bind_unfold. cbn [fmap list_fmap] in IH. rewrite IH.
  rewrite tokens_of_strs. reflexivity.
Qed.

Lemma nd_array_uniform (rows : list (list nat)) (w : nat) :
  Forall (fun r => length r = w) rows ->
  nd_array rows
  = Some (match rows with
          | [] => mkND [0] []
          | _ => mkND [length rows; w] (concat rows)
          end).
Proof.
  intros Hall. destruct rows as [|r rows]; [reflexivity|].
  unfold nd_array.
  assert (Hr : length r = w) by (inversion Hall; assumption).
  rewrite (proj2 (forallb_forall _ _)); [rewrite Hr; reflexivity|].
  intros r' Hin. apply Nat.eqb_eq.
  rewrite Forall_forall in Hall. rewrite Hr. apply Hall.
  apply list_elem_of_In. exact Hin.
Qed.

Lemma length_to_indices vocab t : length (to_indices vocab t) = length t.
Proof. apply length_map. Qed.

Lemma recorded_rows msl c h cell seqs vocab :
  recorded msl c h cell seqs ->
  Forall (fun r => length r = Z.to_nat msl)
         ((fun t => to_indices vocab (padded msl t)) <$> seqs).
Proof.
  intros (ls & _ & Hall). apply Forall_fmap.
  induction Hall as [|l t ls seqs (Hl & Hlook & Hlen) Hall IH]; constructor; [|exact IH].
  cbn. rewrite length_to_indices. apply padded_length in Hlen. lia.
Qed.

Lemma build_data_reading `{TextFramework} msl c h cell_t cell_s toks seqs :
  store h !! cell_t = Some (strs toks) ->
  recorded msl c h cell_s seqs ->
  let vocab := new_vocabulary toks [PAD; BOS; EOS] in
  let rows := (fun t => to_indices vocab (padded msl t)) <$> seqs in
  exists arr,
    nd_array rows = Some arr
    /\ build_data cell_t cell_s h = Some ((vocab, arr), h).
Proof.
  intros Ht Hrec vocab rows. subst rows vocab.
  pose proof (recorded_rows msl c h cell_s seqs
                (new_vocabulary toks [PAD; BOS; EOS]) Hrec) as Hrows.
  destruct Hrec as (ls & Hcell & Hall).
  eexists. split; [apply (nd_array_uniform _ _ Hrows)|].
  unfold build_data.
  rewrite Py_bind_unfold, (get_Some _ _ _ Ht), tokens_of_strs.
  rewrite Py_bind_unfold, (get_Some _ _ _ Hcell).
  rewrite Py_bind_unfold, (indices_of_recorded msl c h seqs _ ls Hall).
  rewrite Py_bind_unfold. unfold lift.
  rewrite (nd_array_uniform _ _ Hrows). reflexivity.
Qed.

Lemma heap_ok_new_list v h h' l :
  heap_ok h -> new_list v h = Some (l, h') ->
  heap_ok h' /\ l = next h /\ next h' = S (next h)
  /\ store h' !! l = Some v
  /\ (forall l', l' < next h -> store h' !! l' = store h !! l').
Proof.
  intros Hok [= <- <-]. cbn [next store].
  split; [|split; [reflexivity|split; [reflexivity|split]]].
  - intros l v' Hl. cbn [next store] in *.
    destruct (decide (l = next h)) as [->|Hne]; [lia|].
    rewrite lookup_insert_ne in Hl by congruence. apply Hok in Hl. lia.
  - apply lookup_insert_eq.
  - intros l' Hl'. apply lookup_insert_ne. lia.
Qed.

Lemma read_data_start msl h0 :
  heap_ok h0 ->
  exists h1 h2 h3 h4,
    new_list [] h0 = Some (next h0, h1)
    /\ new_list [] h1 = Some (next h0 + 1, h2)
    /\ new_list [] h2 = Some (next h0 + 2, h3)
    /\ new_list [] h3 = Some (next h0 + 3, h4)
    /\ reading msl (next h0) [] [] h4.
Proof.
  intros Hok.
  destruct (new_list [] h0) as [[l1 h1]|] eqn:E1; [|discriminate].
  destruct (heap_ok_new_list _ _ _ _ Hok E1) as (Hok1 & -> & N1 & L1 & F1).
  destruct (new_list [] h1) as [[l2 h2]|] eqn:E2; [|discriminate].
  destruct (heap_ok_new_list _ _ _ _ Hok1 E2) as (Hok2 & -> & N2 & L2 & F2).
  destruct (new_list [] h2) as [[l3 h3]|] eqn:E3; [|discriminate].
  destruct (heap_ok_new_list _ _ _ _ Hok2 E3) as (Hok3 & -> & N3 & L3 & F3).
  destruct (new_list [] h3) as [[l4 h4]|] eqn:E4; [|discriminate].
  destruct (heap_ok_new_list _ _ _ _ Hok3 E4) as (Hok4 & -> & N4 & L4 & F4).
  assert (A1 : next h1 = next h0 + 1) by lia.
  assert (A2 : next h2 = next h0 + 2) by lia.
  assert (A3 : next h3 = next h0 + 3) by lia.
  exists h1, h2, h3, h4. rewrite A1, A2, A3 in *.
  repeat (split; [first [assumption|reflexivity]|]).
  split.
  - lia.
  - exact Hok4.
  - rewrite F4, F3, F2 by lia. exact L1.
  - rewrite F4, F3 by lia. exact L2.
  - exists []. split; [|constructor]. rewrite F4 by lia. exact L3.
  - exists []. split; [|constructor]. exact L4.
Qed.

Lemma kept_bound msl (p : list string * list string) :
  kept msl p = true ->
  (Z.of_nat (length p.1) <= msl - 1)%Z /\ (Z.of_nat (length p.2) <= msl - 1)%Z.
Proof.
  unfold kept. intros Hk. apply negb_true_iff in Hk.
  rewrite Z.gtb_ltb in Hk. apply Z.ltb_ge in Hk. lia.
Qed.

Lemma kept_padded_lengths msl pairs :
  Forall (fun t => Z.of_nat (length (padded msl t)) = msl)
         ((fst <$> List.filter (kept msl) pairs) ++ (snd <$> List.filter (kept msl) pairs)).
Proof.
  apply Forall_app. split; apply Forall_fmap, Forall_forall; intros p Hp;
    apply list_elem_of_In, filter_In in Hp as [_ Hk];
    apply kept_bound in Hk as [H1 H2]; cbn; apply padded_length; assumption.
Qed.

(** Row [i] of the array made of rows of one width is the [i]-th row. *)
Lemma row_nd_array (rows : list (list nat)) (w i : nat) (r : list nat) (X : NDArray nat) :
  Forall (fun r => length r = w) rows ->
  nd_array rows = Some X ->
  rows !! i = Some r ->
  row X i = r.
Proof.
  intros Hall HX Hi. rewrite (nd_array_uniform rows w Hall) in HX.
  destruct rows as [|r0 rows0] eqn:E; [discriminate|]. rewrite <- E in *. clear E r0 rows0.
  injection HX as <-. unfold row. cbn [shape data].
  revert i Hi. induction Hall as [|r' rows Hr Hall IH]; intros i Hi; [discriminate|].
  destruct i as [|i]; cbn [concat].
  - injection Hi as ->. apply take_app_length'. symmetry. exact Hr.
  - cbn in Hi. change (S i * w) with (w + i * w).
    rewrite drop_app_add' by (symmetry; exact Hr). apply IH. exact Hi.
Qed.

Section ReadData.
Context `{TextFramework}.

Lemma read_data_spec msl lines h0 :
  heap_ok h0 ->
  match all_fields lines with
  | None => read_data msl lines h0 = None
  | Some pairs =>
      let ks := List.filter (kept msl) pairs in
      let ins := fst <$> ks in
      let outs := snd <$> ks in
      let in_vocab := new_vocabulary (concat ins) [PAD; BOS; EOS] in
      let out_vocab := new_vocabulary (concat outs) [PAD; BOS; EOS] in
      let in_rows := (fun t => to_indices in_vocab (padded msl t)) <$> ins in
      let out_rows := (fun t => to_indices out_vocab (padded msl t)) <$> outs in
      exists in_data out_data h',
        read_data msl lines h0 = Some ((in_vocab, out_vocab, (in_data, out_data)), h')
        /\ nd_array in_rows = Some in_data
        /\ nd_array out_rows = Some out_data
        /\ Forall (fun r => Z.of_nat (length r) = msl) (in_rows ++ out_rows)
        /\ (ks <> [] -> shape in_data = [length ks; Z.to_nat msl]
                        /\ shape out_data = [length ks; Z.to_nat msl])
        /\ (forall i p, ks !! i = Some p ->
               row in_data i = to_indices in_vocab (padded msl p.1)
               /\ row out_data i = to_indices out_vocab (padded msl p.2))
  end.
Proof.
  intros Hok.
  destruct (read_data_start msl h0 Hok) as (h1 & h2 & h3 & h4 & E1 & E2 & E3 & E4 & Hrd).
  pose proof (for_lines_reading msl (next h0) lines [] [] h4 Hrd) as Hloop.
  unfold read_data.
  rewrite Py_bind_unfold, E1, Py_bind_unfold, E2, Py_bind_unfold, E3,
          Py_bind_unfold, E4, Py_bind_unfold.
  destruct (all_fields lines) as [pairs|]; [|rewrite Hloop; reflexivity].
  destruct Hloop as (h5 & -> & Hrd5). cbn [app] in Hrd5.
  destruct Hrd5 as [_ _ Hit Hot His Hos].
  destruct (build_data_reading msl (next h0) h5 _ _ _ _ Hit His) as (in_data & Ain & Bin).
  destruct (build_data_reading msl (next h0) h5 _ _ _ _ Hot Hos) as (out_data & Aout & Bout).
  exists in_data, out_data, h5.
  split. { rewrite Py_bind_unfold, Bin, Py_bind_unfold, Bout. reflexivity. }
  split; [exact Ain|]. split; [exact Aout|].
  split.
  - pose proof (kept_padded_lengths msl pairs) as Hpad.
    apply Forall_app in Hpad as [Pin Pout].
    apply Forall_app. split; apply Forall_fmap.
    + eapply Forall_impl; [exact Pin|]. intros t Ht. cbn.
      rewrite length_to_indices. exact Ht.
    + eapply Forall_impl; [exact Pout|]. intros t Ht. cbn.
      rewrite length_to_indices. exact Ht.
  - split.
    + intros Hks.
      rewrite (nd_array_uniform _ _ (recorded_rows msl _ _ _ _ _ His)) in Ain.
      rewrite (nd_array_uniform _ _ (recorded_rows msl _ _ _ _ _ Hos)) in Aout.
      injection Ain as <-. injection Aout as <-.
      destruct (List.filter (kept msl) pairs) as [|k ks']; [contradiction|].
      cbn [fmap list_fmap shape length]. rewrite !length_fmap. split; reflexivity.
    + intros i p Hp. split.
      * eapply row_nd_array; [eapply recorded_rows; exact His|exact Ain|].
        rewrite !list_lookup_fmap, Hp. reflexivity.
      * eapply row_nd_array; [eapply recorded_rows; exact Hos|exact Aout|].
        rewrite !list_lookup_fmap, Hp. reflexivity.
Qed.


(** C9.  [process_one_seq] changes the list [seq_tokens] itself: after
    the call that same list holds the original tokens, one [EOS] and then
    [PAD] tokens, [max_seq_len] entries in all when the line is kept
    (at most [max_seq_len - 1] tokens); [all_tokens] has been extended
    with the original tokens only, and [all_seqs] with a reference to
    the list.  [read_data] skips exactly the lines with a side of more
    than [max_seq_len - 1] tokens, and every row of the two index arrays
    it returns has [max_seq_len] entries. *)
Theorem read_data_rows_have_max_seq_len (max_seq_len : Z) :
  (forall seq_tokens all_tokens all_seqs h t a q,
      seq_tokens <> all_tokens -> seq_tokens <> all_seqs -> all_tokens <> all_seqs ->
      store h !! seq_tokens = Some (strs t) ->
      store h !! all_tokens = Some a ->
      store h !! all_seqs = Some q ->
      (Z.of_nat (length t) <= max_seq_len - 1)%Z ->
      exists h' recorded_tokens,
        process_one_seq seq_tokens all_tokens all_seqs max_seq_len h = Some (tt, h')
        /\ store h' !! seq_tokens = Some (strs recorded_tokens)
        /\ recorded_tokens
           = t ++ [EOS]
               ++ replicate (Z.to_nat (max_seq_len - Z.of_nat (length t) - 1)) PAD
        /\ Z.of_nat (length recorded_tokens) = max_seq_len
        /\ store h' !! all_tokens = Some (a ++ strs t)
        /\ store h' !! all_seqs = Some (q ++ [Ref seq_tokens]))
  /\ (forall lines h0,
        heap_ok h0 ->
        match all_fields lines with
        | None => read_data max_seq_len lines h0 = None
        | Some pairs =>
            let ks := List.filter (kept max_seq_len) pairs in
            let ins := fst <$> ks in
            let outs := snd <$> ks in
            let in_vocab := new_vocabulary (concat ins) [PAD; BOS; EOS] in
            let out_vocab := new_vocabulary (concat outs) [PAD; BOS; EOS] in
            let in_rows := (fun t => to_indices in_vocab (padded max_seq_len t)) <$> ins in
            let out_rows := (fun t => to_indices out_vocab (padded max_seq_len t)) <$> outs in
            exists in_data out_data h',
              read_data max_seq_len lines h0
              = Some ((in_vocab, out_vocab, (in_data, out_data)), h')
              /\ nd_array in_rows = Some in_data
              /\ nd_array out_rows = Some out_data
              /\ Forall (fun r => Z.of_nat (length r) = max_seq_len) (in_rows ++ out_rows)
              /\ (ks <> [] -> shape in_data = [length ks; Z.to_nat max_seq_len]
                              /\ shape out_data = [length ks; Z.to_nat max_seq_len])
              /\ (forall i p, ks !! i = Some p ->
                     row in_data i = to_indices in_vocab (padded max_seq_len p.1)
                     /\ row out_data i = to_indices out_vocab (padded max_seq_len p.2))
        end).
Proof.
  split.
  - intros seq_tokens all_tokens all_seqs h t a q Hst Hsq Htq Hs Ha Hq Hlen.
    destruct (process_one_seq_props seq_tokens all_tokens all_seqs max_seq_len h
                (strs t) a q Hst Hsq Htq Hs Ha Hq)
      as (h' & Hrun & _ & Hs' & Ha' & Hq' & _).
    exists h', (padded max_seq_len t). split; [exact Hrun|].
    rewrite strs_padded in Hs'.
    split; [exact Hs'|]. split; [reflexivity|].
    split; [apply padded_length; exact Hlen|].
    split; assumption.
  - intros lines h0 Hok. apply read_data_spec. exact Hok.
Qed.

End ReadData.

(** The two example lines with [max_seq_len = 7], from the empty store:
    one line is kept, and both arrays have shape (1, 7). *)
Lemma read_data_rows_have_max_seq_len_witness :
  exists in_vocab out_vocab in_data out_data h',
    @read_data toy_framework 7 toy_lines empty_heap
    = Some ((in_vocab, out_vocab, (in_data, out_data)), h')
    /\ shape in_data = [1; 7] /\ shape out_data = [1; 7].
Proof.
  destruct (proj2 (@read_data_rows_have_max_seq_len toy_framework 7)
              toy_lines empty_heap heap_ok_empty)
    as (in_data & out_data & h' & Hrun & _ & _ & _ & Hshape & _).
  destruct Hshape as [Hin Hout]; [discriminate|].
  eexists _, _, in_data, out_data, h'.
  split; [exact Hrun|]. split; assumption.
Defined.

End MachineTranslation_facts.

(** ** BLEU *)
Module Evaluation_facts.
Import Py Evaluation.

(** *** Substrings *)

Lemma prefix_app (s b : string) : String.prefix s (s ++ b) = true.
Proof.
  induction s as [|c s IH]; [destruct b; reflexivity|].
  simpl. destruct (ascii_dec c c) as [_|Hne]; [exact IH|contradiction].
Qed.

Lemma contains_here (sub b : string) : contains sub (sub ++ b) = true.
Proof.
  destruct (sub ++ b)%string eqn:E; cbn [contains]; rewrite <- E, prefix_app; reflexivity.
Qed.

Lemma contains_app_l (sub a t : string) :
  contains sub t = true -> contains sub (a ++ t) = true.
Proof.
  intros Ht. induction a as [|c a IH]; [exact Ht|].
  change (String c a ++ t)%string with (String c (a ++ t)).
  cbn [contains]. rewrite IH. apply orb_true_r.
Qed.

Lemma contains_middle (sub a b : string) : contains sub (a ++ sub ++ b) = true.
Proof. apply contains_app_l, contains_here. Qed.

Lemma append_cons (c : ascii) (s t : string) :
  (String c s ++ t)%string = String c (s ++ t).
Proof. reflexivity. Qed.

Lemma append_nil_r (s : string) : (s ++ EmptyString)%string = s.
Proof.
  induction s as [|c s IH]; [reflexivity|]. rewrite append_cons, IH. reflexivity.
Qed.

Lemma append_assoc (a b c : string) : ((a ++ b) ++ c)%string = (a ++ (b ++ c))%string.
Proof.
  induction a as [|x a IH]; [reflexivity|]. rewrite !append_cons, IH. reflexivity.
Qed.

(** The join of a list is the join of a prefix, then the join of the
    rest, with a separator in between when both are non-empty. *)
Lemma join_app (sep : string) (x y : list string) :
  exists glue, join sep (x ++ y) = (join sep x ++ glue ++ join sep y)%string.
Proof.
  induction x as [|a x IH].
  - exists EmptyString. reflexivity.
  - destruct IH as (glue & IH). destruct x as [|a' x].
    + destruct y as [|b y].
      * exists EmptyString. cbn. rewrite append_nil_r. reflexivity.
      * exists sep. reflexivity.
    + exists glue. cbn [app] in *. unfold join in *. cbn [String.concat] in *.
      rewrite IH, !append_assoc. reflexivity.
Qed.

(** The join of a slice occurs in the join of the whole list. *)
Lemma contains_join_slice (sep : string) (l : list string) (i j : nat) :
  contains (join sep (slice l i j)) (join sep l) = true.
Proof.
  unfold slice.
  rewrite <- (take_drop i l) at 2.
  rewrite <- (take_drop (j - i) (drop i l)) at 2.
  destruct (join_app sep (take i l) (take (j - i) (drop i l) ++ drop (j - i) (drop i l)))
    as (g1 & ->).
  destruct (join_app sep (take (j - i) (drop i l)) (drop (j - i) (drop i l)))
    as (g2 & ->).
  rewrite <- append_assoc. apply contains_middle.
Qed.

(** *** The arithmetic of [bleu] *)

Lemma true_div_Some (a b : Z) : b <> 0%Z -> true_div a b = Some (IZR a / IZR b)%R.
Proof.
  intros Hb. unfold true_div. destruct (Z.eqb_spec b 0); [contradiction|reflexivity].
Qed.

Lemma true_div_zero (a : Z) : true_div a 0 = None.
Proof. reflexivity. Qed.

Lemma math_pow_half (n : nat) :
  math_pow (1 / 2) (INR n) = Some (Rpower (1 / 2) (INR n)).
Proof.
  unfold math_pow. destruct (Rlt_dec 0 (1 / 2)) as [_|Hn]; [reflexivity|].
  exfalso. apply Hn. lra.
Qed.

Lemma Rpower_pos (x y : R) : (0 < Rpower x y)%R.
Proof. unfold Rpower. apply exp_pos. Qed.

(** A ratio that is not negative has a power with a positive exponent. *)
Lemma math_pow_nonneg (p e : R) :
  (0 <= p)%R -> (0 < e)%R -> is_Some (math_pow p e).
Proof.
  intros Hp He. unfold math_pow.
  destruct (Rlt_dec 0 p); [eauto|].
  destruct (Req_dec_T p 0); [|exfalso; lra].
  destruct (Rlt_dec 0 e); [eauto|contradiction].
Qed.

Lemma math_pow_one (e : R) : math_pow 1 e = Some 1%R.
Proof.
  unfold math_pow. destruct (Rlt_dec 0 1) as [_|Hn]; [|exfalso; apply Hn; lra].
  unfold Rpower. rewrite ln_1, Rmult_0_r, exp_0. reflexivity.
Qed.

Section Bleu.
Variables pred_tokens label_tokens : list string.

(** With every [n] between 1 and the length of the prediction, no
    division is by zero and the loop returns. *)
Lemma bleu_loop_returns (ns : list nat) (score : R) :
  Forall (fun n => (1 <= Z.of_nat n <= Z.of_nat (length pred_tokens))%Z) ns ->
  is_Some (bleu_loop pred_tokens label_tokens ns score).
Proof.
  intros Hns. revert score.
  induction Hns as [|n ns Hn Hns IH]; intros score; cbn [bleu_loop]; [eauto|].
  rewrite true_div_Some by lia. cbn [mbind option_bind].
  rewrite math_pow_half. cbn [mbind option_bind].
  destruct (math_pow_nonneg
              (IZR (Z.of_nat (num_matches pred_tokens label_tokens n))
               / IZR (Z.of_nat (length pred_tokens) - Z.of_nat n + 1))
              (Rpower (1 / 2) (INR n))) as [f ->].
  - apply Rmult_le_pos.
    + apply IZR_le. lia.
    + apply Rlt_le, Rinv_0_lt_compat, IZR_lt. lia.
  - apply Rpower_pos.
  - cbn [mbind option_bind]. apply IH.
Qed.

(** When [n] reaches the length of the prediction plus one, the divisor
    [len_pred - n + 1] is zero and the loop raises. *)
Lemma bleu_loop_raises (ns : list nat) (score : R) :
  S (length pred_tokens) ∈ ns ->
  bleu_loop pred_tokens label_tokens ns score = None.
Proof.
  revert score. induction ns as [|n ns IH]; intros score Hin.
  - inversion Hin.
  - cbn [bleu_loop].
    destruct (decide (n = S (length pred_tokens))) as [->|Hne].
    + replace (Z.of_nat (length pred_tokens) - Z.of_nat (S (length pred_tokens)) + 1)%Z
        with 0%Z by lia.
      reflexivity.
    + apply elem_of_cons in Hin as [Heq|Hin]; [congruence|].
      destruct (true_div _ _) as [p|]; cbn [mbind option_bind]; [|reflexivity].
      destruct (math_pow (1 / 2) _) as [e|]; cbn [mbind option_bind]; [|reflexivity].
      destruct (math_pow p e) as [f|]; cbn [mbind option_bind]; [|reflexivity].
      apply IH. exact Hin.
Qed.

End Bleu.

Lemma num_matches_self (tokens : list string) (n : nat) :
  num_matches tokens tokens n
  = Z.to_nat (Z.of_nat (length tokens) - Z.of_nat n + 1).
Proof.
  unfold num_matches.
  rewrite List.forallb_filter_id.
  - apply length_seq.
  - apply forallb_forall. intros i _. apply contains_join_slice.
Qed.

(** The loop on a prediction that is the label: every precision is 1
    and the score is left as it is. *)
Lemma bleu_loop_self (tokens : list string) (ns : list nat) (score : R) :
  Forall (fun n => (1 <= Z.of_nat n <= Z.of_nat (length tokens))%Z) ns ->
  bleu_loop tokens tokens ns score = Some score.
Proof.
  intros Hns. revert score.
  induction Hns as [|n ns Hn Hns IH]; intros score; cbn [bleu_loop]; [reflexivity|].
  rewrite num_matches_self, Z2Nat.id by lia.
  rewrite true_div_Some by lia. cbn [mbind option_bind].
  rewrite math_pow_half. cbn [mbind option_bind].
  rewrite Rdiv_diag by (apply not_0_IZR; lia).
  rewrite math_pow_one. cbn [mbind option_bind].
  rewrite Rmult_1_r. apply IH.
Qed.

Lemma range_1_k (k : Z) (bound : Z) :
  (k <= bound)%Z ->
  Forall (fun n => (1 <= Z.of_nat n <= bound)%Z) (seq 1 (Z.to_nat k)).
Proof.
  intros Hk. apply Forall_forall. intros n Hn.
  apply list_elem_of_In, in_seq in Hn. lia.
Qed.

(** C8.  [bleu] returns (raises neither [ZeroDivisionError] nor
    [ValueError]) exactly when the prediction has at least [max(k, 1)]
    tokens: an empty prediction makes [len_label / len_pred] a division
    by zero, and a prediction shorter than [k] makes
    [len_pred - n + 1] zero at [n = len_pred + 1]; under the
    precondition every divisor is positive.  When the prediction is the
    label and satisfies the precondition, [bleu] returns 1. *)
Theorem bleu_total_iff_long_enough (pred_tokens label_tokens : list string) (k : Z) :
  (is_Some (bleu pred_tokens label_tokens k)
   <-> (Z.max k 1 <= Z.of_nat (length pred_tokens))%Z)
  /\ ((Z.max k 1 <= Z.of_nat (length pred_tokens))%Z ->
      bleu pred_tokens pred_tokens k = Some 1%R).
Proof.
  split; [split|].
  - intros Hsome. unfold bleu in Hsome.
    destruct (decide (length pred_tokens = 0)) as [E0|Hpos].
    { rewrite E0 in Hsome. cbn in Hsome. destruct Hsome as [? [=]]. }
    rewrite true_div_Some in Hsome by lia. cbn [mbind option_bind] in Hsome.
    destruct (Z_lt_le_dec (Z.of_nat (length pred_tokens)) k) as [Hshort|Hok]; [|lia].
    rewrite bleu_loop_raises in Hsome; [destruct Hsome as [? [=]]|].
    apply list_elem_of_In, in_seq. lia.
  - intros Hpre. unfold bleu.
    rewrite true_div_Some by lia. cbn [mbind option_bind].
    apply bleu_loop_returns, range_1_k. lia.
  - intros Hpre. unfold bleu.
    rewrite true_div_Some by lia. cbn [mbind option_bind].
    rewrite Rdiv_diag by (apply not_0_IZR; lia).
    rewrite Rminus_diag, Rmin_left, exp_0 by lra.
    apply bleu_loop_self, range_1_k. lia.
Qed.

(** The notebook's correct prediction, with [k = 2]. *)
Lemma bleu_total_iff_long_enough_witness :
  bleu ["they"; "are"; "watching"; "."]%string ["they"; "are"; "watching"; "."]%string 2
  = Some 1%R.
Proof.
  apply (proj2 (bleu_total_iff_long_enough
                  ["they"; "are"; "watching"; "."]%string
                  ["they"; "are"; "watching"; "."]%string 2)).
  simpl. lia.
Defined.

End Evaluation_facts.

(** ** The attention mechanism *)
Module Attention_facts.
Import Attention.

(** *** Lists by position *)

Lemma nth_zip_with {X Y Z} (f : X -> Y -> Z) (l : list X) (k : list Y) (i : nat) dx dy dz :
  i < length l -> i < length k ->
  nth i (zip_with f l k) dz = f (nth i l dx) (nth i k dy).
Proof.
  revert k i. induction l as [|x l IH]; intros [|y k] [|i] Hl Hk; cbn in *; try lia.
  - reflexivity.
  - apply IH; lia.
Qed.

Lemma length_zip_with_same {X Y Z} (f : X -> Y -> Z) (l : list X) (k : list Y) :
  length l = length k -> length (zip_with f l k) = length l.
Proof.
  revert k. induction l as [|x l IH]; intros [|y k] Hlen; cbn in *; try lia.
  f_equal. apply IH. lia.
Qed.

Lemma nth_map_in {X Y} (f : X -> Y) (l : list X) (i : nat) dx dy :
  i < length l -> nth i (map f l) dy = f (nth i l dx).
Proof.
  revert i. induction l as [|x l IH]; intros [|i] Hi; cbn in *; try lia.
  - reflexivity.
  - apply IH. lia.
Qed.

Lemma map_by_position {X Y} (f : X -> Y) (l : list X) (d : X) :
  map f l = map (fun i => f (nth i l d)) (seq 0 (length l)).
Proof.
  induction l as [|x l IH]; [reflexivity|].
  cbn [length seq map nth]. f_equal.
  rewrite <- seq_shift, map_map. exact IH.
Qed.

(** *** Shapes by position *)

Lemma has_shape2_nth (m : tensor2) (B H : nat) :
  has_shape2 m B H <-> length m = B /\ forall b, b < B -> length (nth b m []) = H.
Proof.
  unfold has_shape2. split; intros [Hlen Hrows]; (split; [exact Hlen|]).
  - intros b Hb. rewrite List.Forall_nth in Hrows. apply Hrows. lia.
  - apply List.Forall_nth. intros b d Hb.
    rewrite (nth_indep _ d []) by exact Hb. apply Hrows. lia.
Qed.

Lemma has_shape3_nth (x : tensor3) (T B H : nat) :
  has_shape3 x T B H
  <-> length x = T /\ forall t, t < T -> has_shape2 (nth t x []) B H.
Proof.
  unfold has_shape3. split; intros [Hlen Hall]; (split; [exact Hlen|]).
  - intros t Ht. rewrite List.Forall_nth in Hall. apply (Hall t []). lia.
  - apply List.Forall_nth. intros t d Ht.
    rewrite (nth_indep _ d []) by exact Ht. apply Hall. lia.
Qed.

Lemma shape3_rows (x : tensor3) (T B H t : nat) :
  has_shape3 x T B H -> t < T -> length (nth t x []) = B.
Proof.
  intros Hx Ht. apply has_shape3_nth in Hx as [_ Hx].
  apply Hx in Ht. apply Ht.
Qed.

Lemma shape3_cols (x : tensor3) (T B H t b : nat) :
  has_shape3 x T B H -> t < T -> b < B -> length (nth b (nth t x []) []) = H.
Proof.
  intros Hx Ht Hb. apply has_shape3_nth in Hx as [_ Hx].
  apply Hx in Ht. apply has_shape2_nth in Ht as [_ Ht]. apply Ht. exact Hb.
Qed.

#[local] Open Scope R_scope.

(** *** Sums *)

Lemma sumR_nil : sumR [] = 0.
Proof. reflexivity. Qed.

Lemma sumR_cons (x : R) (l : list R) : sumR (x :: l) = x + sumR l.
Proof. reflexivity. Qed.

Lemma sumR_scale (c : R) (f : nat -> R) (l : list nat) :
  sumR (map (fun t => f t / c) l) = sumR (map f l) / c.
Proof.
  induction l as [|x l IH]; cbn [map]; rewrite ?sumR_nil, ?sumR_cons; [lra|].
  rewrite IH. lra.
Qed.

Lemma sumR_pos (f : nat -> R) (l : list nat) :
  l <> [] -> (forall t, 0 < f t) -> 0 < sumR (map f l).
Proof.
  intros Hl Hf. destruct l as [|x l]; [contradiction|]. clear Hl.
  revert x. induction l as [|y l IH]; intros x; cbn [map] in *;
    rewrite ?sumR_cons, ?sumR_nil in *.
  - specialize (Hf x). lra.
  - specialize (IH y). specialize (Hf x). rewrite sumR_cons in IH. lra.
Qed.

(** *** Element-wise operations, by position *)

Section Positions.
Variables T B H : nat.

Lemma add2_shape (a c : tensor2) :
  has_shape2 a B H -> has_shape2 c B H -> has_shape2 (add2 a c) B H.
Proof.
  rewrite !has_shape2_nth. intros [La Ha] [Lc Hc]. unfold add2. split.
  - rewrite length_zip_with_same by lia. exact La.
  - intros b Hb. rewrite (nth_zip_with _ _ _ _ [] []) by lia.
    rewrite length_zip_with_same; rewrite ?Ha, ?Hc by exact Hb; reflexivity.
Qed.

Lemma add2_at (a c : tensor2) (b j : nat) :
  has_shape2 a B H -> has_shape2 c B H -> (b < B)%nat -> (j < H)%nat ->
  at2 (add2 a c) b j = at2 a b j + at2 c b j.
Proof.
  rewrite !has_shape2_nth. intros [La Ha] [Lc Hc] Hb Hj. unfold at2, add2.
  rewrite (nth_zip_with _ _ _ _ [] []) by lia.
  apply nth_zip_with; rewrite ?Ha, ?Hc by exact Hb; exact Hj.
Qed.

Lemma fold_add2 (xs : list tensor2) (acc : tensor2) :
  has_shape2 acc B H -> Forall (fun m => has_shape2 m B H) xs ->
  has_shape2 (fold_left add2 xs acc) B H
  /\ forall b j, (b < B)%nat -> (j < H)%nat ->
       at2 (fold_left add2 xs acc) b j = at2 acc b j + sumR (map (fun m => at2 m b j) xs).
Proof.
  intros Hacc Hxs. revert acc Hacc.
  induction Hxs as [|m xs Hm Hxs IH]; intros acc Hacc; cbn [fold_left map].
  - split; [exact Hacc|]. intros b j _ _. rewrite sumR_nil. lra.
  - destruct (IH (add2 acc m) (add2_shape _ _ Hacc Hm)) as [Hshape Hat].
    split; [exact Hshape|]. intros b j Hb Hj.
    rewrite Hat, add2_at, sumR_cons by assumption. lra.
Qed.

(** [x.sum(axis=0)], element by element. *)
Lemma sum_axis0_at (x : tensor3) :
  (0 < T)%nat -> has_shape3 x T B H ->
  has_shape2 (sum_axis0 x) B H
  /\ forall b j, (b < B)%nat -> (j < H)%nat ->
       at2 (sum_axis0 x) b j = sumR (map (fun t => at3 x t b j) (seq 0 T)).
Proof.
  intros HT [Hlen Hall]. destruct x as [|x0 xs]; [cbn in Hlen; lia|].
  inversion Hall as [|? ? H0 Hxs]; subst. cbn [sum_axis0].
  destruct (fold_add2 xs x0 H0 Hxs) as [Hshape Hat].
  split; [exact Hshape|]. intros b j Hb Hj.
  rewrite Hat by assumption.
  rewrite (map_by_position (fun m => at2 m b j) xs []).
  cbn [length seq map]. rewrite sumR_cons, <- seq_shift, map_map. reflexivity.
Qed.

Lemma map3_shape (f : R -> R) (x : tensor3) :
  has_shape3 x T B H -> has_shape3 (map (map (map f)) x) T B H.
Proof.
  intros [Hlen Hall]. split; [rewrite length_map; exact Hlen|].
  apply Forall_map. eapply Forall_impl; [exact Hall|].
  intros m [Hm Hrows]. cbn. split; [rewrite length_map; exact Hm|].
  apply Forall_map. eapply Forall_impl; [exact Hrows|].
  intros r Hr. cbn. rewrite length_map. exact Hr.
Qed.

Lemma map3_at (f : R -> R) (x : tensor3) (t b j : nat) :
  has_shape3 x T B H -> (t < T)%nat -> (b < B)%nat -> (j < H)%nat ->
  at3 (map (map (map f)) x) t b j = f (at3 x t b j).
Proof.
  intros Hx Ht Hb Hj. unfold at3.
  pose proof (shape3_rows x T B H t Hx Ht) as Hrows.
  pose proof (shape3_cols x T B H t b Hx Ht Hb) as Hcols.
  destruct Hx as [Hlen _].
  rewrite (nth_map_in _ x t []) by lia.
  rewrite (nth_map_in _ _ b []) by lia.
  apply nth_map_in. lia.
Qed.

End Positions.

Section Softmax.
Variables T B H : nat.
Hypothesis HT : (0 < T)%nat.

(** [nd.softmax(e, axis=0)], element by element. *)
Lemma softmax_axis0_at (e : tensor3) :
  has_shape3 e T B H ->
  has_shape3 (softmax_axis0 e) T B H
  /\ forall t b j, (t < T)%nat -> (b < B)%nat -> (j < H)%nat ->
       at3 (softmax_axis0 e) t b j
       = exp (at3 e t b j) / sumR (map (fun s => exp (at3 e s b j)) (seq 0 T)).
Proof.
  intros He. unfold softmax_axis0.
  pose proof (map3_shape T B H exp e He) as Hex.
  destruct (sum_axis0_at T B H _ HT Hex) as [Hs Hsat].
  set (ex := map (map (map exp)) e) in *. set (s := sum_axis0 ex) in *.
  assert (Hrow : forall t, (t < T)%nat ->
            nth t (map (fun m => zip_with (zip_with Rdiv) m s) ex) []
            = zip_with (zip_with Rdiv) (nth t ex []) s).
  { intros t Ht.
    apply (nth_map_in (fun m => zip_with (zip_with Rdiv) m s) ex t [] []).
    destruct Hex as [-> _]. exact Ht. }
  pose proof (proj1 (has_shape2_nth s B H) Hs) as [Ls Hscols].
  split.
  - apply has_shape3_nth. split; [rewrite length_map; apply Hex|].
    intros t Ht. rewrite Hrow by exact Ht.
    pose proof (shape3_rows ex T B H t Hex Ht) as Hrows.
    apply has_shape2_nth. split; [rewrite length_zip_with_same; lia|].
    intros b Hb. rewrite (nth_zip_with _ _ _ _ [] []) by lia.
    rewrite length_zip_with_same.
    + apply (shape3_cols ex T B H t b Hex Ht Hb).
    + rewrite (shape3_cols ex T B H t b Hex Ht Hb), Hscols by exact Hb. reflexivity.
  - intros t b j Ht Hb Hj. unfold at3 at 1. rewrite Hrow by exact Ht.
    pose proof (shape3_rows ex T B H t Hex Ht) as Hrows.
    pose proof (shape3_cols ex T B H t b Hex Ht Hb) as Hcols.
    rewrite (nth_zip_with _ _ _ _ [] []) by lia.
    rewrite (nth_zip_with _ _ _ _ 0 0) by (rewrite ?Hcols, ?Hscols by exact Hb; exact Hj).
    change (nth j (nth b (nth t ex []) []) 0) with (at3 ex t b j).
    change (nth j (nth b s []) 0) with (at2 s b j).
    rewrite Hsat by assumption. unfold ex.
    rewrite map3_at with (T := T) (B := B) (H := H) by assumption.
    f_equal. f_equal. apply map_ext_in. intros t' Ht'. apply in_seq in Ht'.
    apply map3_at with (T := T) (B := B) (H := H); try assumption. lia.
Qed.

End Softmax.

Section Broadcast.
Variables T B H : nat.

(** [alpha * x] with the last axis of [alpha] broadcast, element by
    element. *)
Lemma mul_bcast_at (alpha x : tensor3) :
  has_shape3 alpha T B 1 -> has_shape3 x T B H ->
  has_shape3 (mul_bcast alpha x) T B H
  /\ forall t b j, (t < T)%nat -> (b < B)%nat -> (j < H)%nat ->
       at3 (mul_bcast alpha x) t b j = at3 alpha t b 0 * at3 x t b j.
Proof.
  intros Ha Hx. unfold mul_bcast.
  pose proof (proj1 Ha) as La. pose proof (proj1 Hx) as Lx.
  assert (Hrow : forall t b, (t < T)%nat -> (b < B)%nat ->
            nth b (nth t (zip_with (zip_with (fun a r => map (Rmult (hd 0 a)) r)) alpha x) [])
                  []
            = map (Rmult (at3 alpha t b 0)) (nth b (nth t x []) [])).
  { intros t b Ht Hb.
    rewrite (nth_zip_with _ _ _ _ [] []) by lia.
    rewrite (nth_zip_with _ _ _ _ [] [])
      by (rewrite ?(shape3_rows alpha T B 1 t Ha Ht), ?(shape3_rows x T B H t Hx Ht);
          exact Hb).
    unfold at3. destruct (nth b (nth t alpha []) []); reflexivity. }
  split.
  - apply has_shape3_nth. split; [rewrite length_zip_with_same; lia|].
    intros t Ht. apply has_shape2_nth. split.
    + rewrite (nth_zip_with _ _ _ _ [] []) by lia.
      rewrite length_zip_with_same;
        rewrite ?(shape3_rows alpha T B 1 t Ha Ht), ?(shape3_rows x T B H t Hx Ht);
        reflexivity.
    + intros b Hb. rewrite Hrow by assumption. rewrite length_map.
      apply (shape3_cols x T B H t b Hx Ht Hb).
  - intros t b j Ht Hb Hj. unfold at3 at 1. rewrite Hrow by assumption.
    rewrite (nth_map_in _ _ j 0).
    + reflexivity.
    + rewrite (shape3_cols x T B H t b Hx Ht Hb). exact Hj.
Qed.

End Broadcast.

(** A dense layer without flattening keeps the first two axes and has
    one output per weight row. *)
Lemma dense_shape (W : list (list R)) (act : R -> R) (x : tensor3) (T B K : nat) :
  has_shape3 x T B K -> has_shape3 (dense W act x) T B (length W).
Proof.
  intros [Hlen Hall]. unfold dense. split; [rewrite length_map; exact Hlen|].
  apply Forall_map. eapply Forall_impl; [exact Hall|].
  intros m [Hm _]. cbn. split; [rewrite length_map; exact Hm|].
  apply Forall_map, Forall_forall. intros r _. cbn. apply length_map.
Qed.

Lemma attention_model_shape attention_size w1 w2 (x : tensor3) (T B K : nat) :
  has_shape3 x T B K -> has_shape3 (attention_model attention_size w1 w2 x) T B 1.
Proof.
  intros Hx. unfold attention_model.
  change 1%nat with (length [w2]).
  eapply dense_shape, dense_shape, Hx.
Qed.

Lemma concat2_shape (a c : tensor3) (T B H K : nat) :
  has_shape3 a T B H -> has_shape3 c T B K -> has_shape3 (concat2 a c) T B (H + K).
Proof.
  intros Ha Hc. unfold concat2.
  pose proof (proj1 Ha) as La. pose proof (proj1 Hc) as Lc.
  apply has_shape3_nth. split; [rewrite length_zip_with_same; lia|].
  intros t Ht. rewrite (nth_zip_with _ _ _ _ [] []) by lia.
  pose proof (shape3_rows a T B H t Ha Ht) as Ra.
  pose proof (shape3_rows c T B K t Hc Ht) as Rc.
  apply has_shape2_nth. split; [rewrite length_zip_with_same; lia|].
  intros b Hb. rewrite (nth_zip_with _ _ _ _ [] []) by lia.
  rewrite length_app, (shape3_cols a T B H t b Ha Ht Hb),
          (shape3_cols c T B K t b Hc Ht Hb). reflexivity.
Qed.

Lemma broadcast_axis0_shape (s : tensor2) (n B H : nat) :
  has_shape2 s B H -> has_shape3 (broadcast_axis0 s n) n B H.
Proof.
  intros Hs. unfold broadcast_axis0. split; [apply length_replicate|].
  apply Forall_forall. intros m Hm. apply elem_of_replicate in Hm as [-> _]. exact Hs.
Qed.

Section Context_variable.
Variables (model : tensor3 -> tensor3) (enc_states : tensor3) (dec_state : tensor2).
Variables T B H : nat.
Hypothesis HT : (0 < T)%nat.
Hypothesis Henc : has_shape3 enc_states T B H.
Hypothesis Hdec : has_shape2 dec_state B H.
Hypothesis Hmodel :
  has_shape3 (model (concat2 enc_states (broadcast_axis0 dec_state (length enc_states))))
             T B 1.

Lemma weight_softmax (t b : nat) :
  (t < T)%nat -> (b < B)%nat ->
  at3 (softmax_axis0
         (model (concat2 enc_states (broadcast_axis0 dec_state (length enc_states)))))
      t b 0
  = weight model enc_states dec_state t b.
Proof.
  intros Ht Hb. unfold weight, score.
  destruct (softmax_axis0_at T B 1 HT _ Hmodel) as [_ Hat].
  rewrite Hat by (assumption || lia).
  destruct Henc as [-> _]. reflexivity.
Qed.

Lemma attention_forward_general :
  has_shape2 (attention_forward model enc_states dec_state) B H
  /\ (forall b j, (b < B)%nat -> (j < H)%nat ->
        at2 (attention_forward model enc_states dec_state) b j
        = sumR (map (fun t => weight model enc_states dec_state t b * at3 enc_states t b j)
                    (seq 0 T)))
  /\ (forall b, (b < B)%nat ->
        (forall t, (t < T)%nat -> 0 <= weight model enc_states dec_state t b)
        /\ sumR (map (fun t => weight model enc_states dec_state t b) (seq 0 T)) = 1).
Proof.
  unfold attention_forward.
  destruct (softmax_axis0_at T B 1 HT _ Hmodel) as [Halpha _].
  destruct (mul_bcast_at T B H _ _ Halpha Henc) as [Hmul Hmulat].
  destruct (sum_axis0_at T B H _ HT Hmul) as [Hsum Hsumat].
  split; [exact Hsum|]. split.
  - intros b j Hb Hj. rewrite Hsumat by assumption.
    f_equal. apply map_ext_in. intros t Ht. apply in_seq in Ht.
    rewrite Hmulat by (assumption || lia).
    rewrite weight_softmax by (assumption || lia). reflexivity.
  - intros b Hb.
    assert (Hpos : 0 < sumR (map (fun s => exp (score model enc_states dec_state s b))
                                 (seq 0 T))).
    { apply sumR_pos; [|intros; apply exp_pos].
      destruct T; [lia|discriminate]. }
    split.
    + intros t Ht. unfold weight. destruct Henc as [-> _].
      apply Rlt_le, Rdiv_lt_0_compat; [apply exp_pos|exact Hpos].
    + unfold weight. destruct Henc as [-> _].
      rewrite (sumR_scale _ (fun t => exp (score model enc_states dec_state t b))).
      apply Rdiv_diag. lra.
Qed.

End Context_variable.

(** C2.  For encoder states of shape (T, B, H) with at least one time
    step and a decoder state of shape (B, H), [attention_forward] with
    the two-layer attention model returns a context variable of shape
    (B, H) whose element [(b, j)] is the sum over the time steps [t] of
    [weight t b * enc_states[t, b, j]], where the weights are the softmax
    over the time steps of the scores of the model on the concatenated
    states; for each batch element the weights are not negative and sum
    to 1. *)
Theorem attention_forward_context (attention_size : nat) (w1 : nat -> list R)
    (w2 : list R) (enc_states : tensor3) (dec_state : tensor2) (T B H : nat) :
  (0 < T)%nat ->
  has_shape3 enc_states T B H ->
  has_shape2 dec_state B H ->
  let model := attention_model attention_size w1 w2 in
  has_shape2 (attention_forward model enc_states dec_state) B H
  /\ (forall b j, (b < B)%nat -> (j < H)%nat ->
        at2 (attention_forward model enc_states dec_state) b j
        = sumR (map (fun t => weight model enc_states dec_state t b * at3 enc_states t b j)
                    (seq 0 T)))
  /\ (forall b, (b < B)%nat ->
        (forall t, (t < T)%nat -> 0 <= weight model enc_states dec_state t b)
        /\ sumR (map (fun t => weight model enc_states dec_state t b) (seq 0 T)) = 1).
Proof.
  intros HT Henc Hdec model.
  apply attention_forward_general; try assumption.
  apply attention_model_shape with (K := (H + H)%nat).
  apply concat2_shape; [exact Henc|].
  destruct Henc as [<- _]. apply broadcast_axis0_shape. exact Hdec.
Qed.

(** Two time steps, one batch element, two hidden units. *)
Lemma attention_forward_context_witness :
  let model := attention_model 1 (fun _ => [0; 0; 0; 0]) [1] in
  has_shape2 (attention_forward model toy_enc_states toy_dec_state) 1 2
  /\ (forall b j, (b < 1)%nat -> (j < 2)%nat ->
        at2 (attention_forward model toy_enc_states toy_dec_state) b j
        = sumR (map (fun t => weight model toy_enc_states toy_dec_state t b
                              * at3 toy_enc_states t b j)
                    (seq 0 2)))
  /\ (forall b, (b < 1)%nat ->
        (forall t, (t < 2)%nat -> 0 <= weight model toy_enc_states toy_dec_state t b)
        /\ sumR (map (fun t => weight model toy_enc_states toy_dec_state t b) (seq 0 2))
           = 1).
Proof.
  apply (attention_forward_context 1 (fun _ => [0; 0; 0; 0]) [1]
           toy_enc_states toy_dec_state 2 1 2).
  - lia.
  - split; [reflexivity|]. repeat constructor.
  - split; [reflexivity|]. repeat constructor.
Defined.

End Attention_facts.

(** ** Further shapes: padding and stride, LeNet, the perceptron *)
Module Shapes_facts.
Import NDArrays Gluon PaddingStrides Gluon_facts PaddingStrides_facts LeNet LeNet_facts.

Section Facts.
Context {A : Type} {SA : Scalar A}.

Lemma windows_nonempty (len k s : nat) :
  0 < s -> k <= len -> 0 < length (windows len k s).
Proof. intros Hs Hk. rewrite windows_length by assumption. lia. Qed.

(** X1.  [comp_conv2d] returns only for a 2-D input and a convolution
    with one output channel: the first reshape makes anything else than a
    2-D input an array the layer refuses, and the last reshape drops the
    batch and channel axes, which the element count allows for one
    channel only. *)
Theorem comp_conv2d_needs_2d_input_and_one_channel
    channels kh kw sh sw ph pw act w b (X Y : NDArray A) :
  comp_conv2d (Conv2D channels (kh, kw) (sh, sw) (ph, pw) act w b) X = Some Y ->
  length (shape X) = 2 /\ channels = 1.
Proof.
  unfold comp_conv2d. unfold reshape at 2. rewrite size_batch_channel, Nat.eqb_refl.
  cbn [mbind option_bind]. unfold forward. cbn [shape app].
  destruct (shape X) as [|nh [|nw [|? ?]]]; try discriminate.
  destruct (_ && _) eqn:Hfit; [|discriminate]. cbn [mbind option_bind].
  unfold reshape. cbn [shape drop].
  destruct (Nat.eqb_spec (size [length (windows (nh + 2 * ph) kh sh);
                                length (windows (nw + 2 * pw) kw sw)])
                         (size [1; channels; length (windows (nh + 2 * ph) kh sh);
                                length (windows (nw + 2 * pw) kw sw)])) as [E|];
    [|discriminate].
  intros _. split; [reflexivity|].
  apply andb_true_iff in Hfit as [Hfit Hkw]. apply andb_true_iff in Hfit as [Hfit Hkh].
  apply andb_true_iff in Hfit as [Hsh Hsw].
  apply Nat.ltb_lt in Hsh, Hsw. apply Nat.leb_le in Hkh, Hkw.
  pose proof (windows_nonempty _ _ _ Hsh Hkh) as Hh.
  pose proof (windows_nonempty _ _ _ Hsw Hkw) as Hw.
  cbn [size fold_right] in E. nia.
Qed.

(** X2.  With a window of odd height [2a + 1] and odd width [2b + 1],
    [a] rows and [b] columns padded on either side and stride 1,
    [comp_conv2d] returns an array of the shape of its input (the
    notebook's first two examples: 3 x 3 with padding 1, 5 x 3 with
    padding (2, 1)). *)
Theorem comp_conv2d_odd_kernel_keeps_shape a b act w bias (X : NDArray A) nh nw :
  shape X = [nh; nw] -> 0 < nh -> 0 < nw ->
  exists Y,
    comp_conv2d (Conv2D 1 (2 * a + 1, 2 * b + 1) (1, 1) (a, b) act w bias) X = Some Y
    /\ shape Y = shape X.
Proof.
  intros HX Hh Hw.
  destruct (comp_conv2d_Conv2D (2 * a + 1) (2 * b + 1) 1 1 a b act w bias X nh nw)
    as (Y & HY & HS); try assumption; try lia.
  exists Y. split; [exact HY|]. rewrite HS, HX, !Nat.div_1_r.
  f_equal; [lia|f_equal; lia].
Qed.

(** X3.  LeNet keeps the batch axis: a batch of [N >= 1] images of
    shape (N, 1, 28, 28) goes through the layers with the shapes
    (N, 6, 28, 28), (N, 6, 14, 14), (N, 16, 10, 10), (N, 16, 5, 5),
    (N, 120), (N, 84) and (N, 10), whatever the values of the input and
    of the parameters. *)
Theorem lenet_batch_shapes (p : Params A) (X : NDArray A) (N : nat) :
  0 < N -> shape X = [N; 1; 28; 28] ->
  exists Y,
    layer_by_layer (net p) X
    = Some (Y, [ [N; 6; 28; 28]; [N; 6; 14; 14]; [N; 16; 10; 10]; [N; 16; 5; 5];
                 [N; 120]; [N; 84]; [N; 10] ])
    /\ shape Y = [N; 10]
    /\ wf Y.
Proof.
  intros _ HX. unfold net.
  destruct (conv5_pad2_keeps_size 6 (Some sigmoid) (conv0_weight p) (conv0_bias p)
              X N 1 28 28 HX) as (X1 & F1 & S1); try lia.
  destruct (pool2_halves X1 N 6 28 28 S1) as (X2 & F2 & S2); try lia.
  change (28 / 2) with 14 in S2.
  destruct (conv5_nopad_minus4 16 (Some sigmoid) (conv1_weight p) (conv1_bias p)
              X2 N 6 14 14 S2) as (X3 & F3 & S3); try lia.
  change (14 - 4) with 10 in S3.
  destruct (pool2_halves X3 N 16 10 10 S3) as (X4 & F4 & S4); try lia.
  change (10 / 2) with 5 in S4.
  destruct (forward_Dense_shape 120 (Some sigmoid) (dense0_weight p) (dense0_bias p)
              X4 _ _ S4) as (X5 & F5 & S5).
  destruct (forward_Dense_shape 84 (Some sigmoid) (dense1_weight p) (dense1_bias p)
              X5 _ _ S5) as (X6 & F6 & S6).
  destruct (forward_Dense_shape 10 None (dense2_weight p) (dense2_bias p)
              X6 _ _ S6) as (X7 & F7 & S7).
  exists X7. split; [|split; [exact S7|exact (forward_wf _ _ _ F7)]].
  rewrite (layer_by_layer_cons _ _ _ _ F1), (layer_by_layer_cons _ _ _ _ F2),
          (layer_by_layer_cons _ _ _ _ F3), (layer_by_layer_cons _ _ _ _ F4),
          (layer_by_layer_cons _ _ _ _ F5), (layer_by_layer_cons _ _ _ _ F6),
          (layer_by_layer_cons _ _ _ _ F7).
  cbn [layer_by_layer mbind option_bind fst snd].
  rewrite S1, S2, S3, S4, S5, S6, S7. reflexivity.
Qed.

(** X4.  The perceptron takes a batch of [N >= 1] images of shape
    (N, 1, 28, 28), which its first layer flattens, through the shapes
    (N, 128), (N, 64) and (N, 10): ten scores per example, whatever the
    values of the input and of the parameters. *)
Theorem mlp_batch_shapes (p : Mnist.Params A) (X : NDArray A) (N : nat) :
  0 < N -> shape X = [N; 1; 28; 28] ->
  exists Y,
    layer_by_layer (Mnist.net p) X = Some (Y, [ [N; 128]; [N; 64]; [N; 10] ])
    /\ shape Y = [N; 10]
    /\ wf Y.
Proof.
  intros _ HX. unfold Mnist.net.
  destruct (forward_Dense_shape 128 (Some relu) (Mnist.fc0_weight p) (Mnist.fc0_bias p)
              X _ _ HX) as (X1 & F1 & S1).
  destruct (forward_Dense_shape 64 (Some relu) (Mnist.fc1_weight p) (Mnist.fc1_bias p)
              X1 _ _ S1) as (X2 & F2 & S2).
  destruct (forward_Dense_shape 10 None (Mnist.fc2_weight p) (Mnist.fc2_bias p)
              X2 _ _ S2) as (X3 & F3 & S3).
  exists X3. split; [|split; [exact S3|exact (forward_wf _ _ _ F3)]].
  rewrite (layer_by_layer_cons _ _ _ _ F1), (layer_by_layer_cons _ _ _ _ F2),
          (layer_by_layer_cons _ _ _ _ F3).
  cbn [layer_by_layer mbind option_bind fst snd].
  rewrite S1, S2, S3. reflexivity.
Qed.

End Facts.

(** A run of [comp_conv2d] that returns: the input is 8 x 8 and the
    layer has one channel. *)
Lemma comp_conv2d_needs_2d_input_and_one_channel_witness :
  exists Y,
    comp_conv2d (Conv2D 1 (3, 3) (1, 1) (1, 1) None (fun _ _ _ _ => 1%R) (fun _ => 0%R))
                X_8x8 = Some Y
    /\ length (shape X_8x8) = 2 /\ 1 = 1.
Proof.
  destruct (comp_conv2d_Conv2D 3 3 1 1 1 1 None (fun _ _ _ _ => 1%R) (fun _ => 0%R)
              X_8x8 8 8) as (Y & HY & _); [reflexivity|lia|lia|simpl; lia|simpl; lia|].
  exists Y. split; [exact HY|].
  exact (comp_conv2d_needs_2d_input_and_one_channel 1 3 3 1 1 1 1 None
           (fun _ _ _ _ => 1%R) (fun _ => 0%R) X_8x8 Y HY).
Defined.

(** The notebook's second example: a 5 x 3 window with padding (2, 1)
    on an 8 x 8 input. *)
Lemma comp_conv2d_odd_kernel_keeps_shape_witness :
  exists Y,
    comp_conv2d (Conv2D 1 (2 * 2 + 1, 2 * 1 + 1) (1, 1) (2, 1) None
                   (fun _ _ _ _ => 1%R) (fun _ => 0%R)) X_8x8 = Some Y
    /\ shape Y = shape X_8x8.
Proof.
  apply (comp_conv2d_odd_kernel_keeps_shape 2 1 None (fun _ _ _ _ => 1%R) (fun _ => 0%R)
           X_8x8 8 8); [reflexivity|lia|lia].
Defined.

(** A batch of four all-zero images. *)
Lemma lenet_batch_shapes_witness :
  exists Y,
    layer_by_layer (net zero_params) (mkND [4; 1; 28; 28] (replicate 3136 0%R))
    = Some (Y, [ [4; 6; 28; 28]; [4; 6; 14; 14]; [4; 16; 10; 10]; [4; 16; 5; 5];
                 [4; 120]; [4; 84]; [4; 10] ])
    /\ shape Y = [4; 10]
    /\ wf Y.
Proof.
  apply (lenet_batch_shapes zero_params _ 4); [lia|reflexivity].
Defined.

(** A batch of two all-zero images. *)
Lemma mlp_batch_shapes_witness :
  exists Y,
    layer_by_layer (Mnist.net Mnist.zero_params)
                   (mkND [2; 1; 28; 28] (replicate 1568 0%R))
    = Some (Y, [ [2; 128]; [2; 64]; [2; 10] ])
    /\ shape Y = [2; 10]
    /\ wf Y.
Proof.
  apply (mlp_batch_shapes Mnist.zero_params _ 2); [lia|reflexivity].
Defined.

End Shapes_facts.

(** ** The accuracy of a network on a data set *)
Module Accuracy_facts.
Import Accuracy.

(** Counts up to [2 ^ 24] are float32 numbers. *)
Lemma float32_exact (z : Z) : (0 <= z <= 2 ^ 24)%Z -> float32 z = z.
Proof.
  intros Hz. destruct (Z.eq_dec z (2 ^ 24)%Z) as [->|Hne]; [reflexivity|].
  unfold float32.
  assert (Hlog : (Z.log2 z < 24)%Z).
  { destruct (Z.eq_dec z 0%Z) as [->|Hpos]; [reflexivity|].
    apply Z.log2_lt_pow2; lia. }
  destruct (Z.leb_spec (Z.log2 z - 23) 0%Z); [reflexivity|lia].
Qed.

(** Beyond [2 ^ 24] a count is rounded: to the even neighbour when it
    lies halfway, to the nearest float32 otherwise. *)
Example float32_rounds :
  float32 (2 ^ 24 + 1) = (2 ^ 24)%Z
  /\ float32 (2 ^ 24 + 3) = (2 ^ 24 + 4)%Z
  /\ float32 (2 ^ 25 + 5) = (2 ^ 25 + 4)%Z.
Proof. repeat split. Qed.

(** Within that range the sum of an array of zeros and ones is the
    number of its ones. *)
Lemma fold_left_count (eq : list bool) (acc : Z) :
  (0 <= acc)%Z -> (acc + Z.of_nat (length eq) <= 2 ^ 24)%Z ->
  fold_left (fun acc (b : bool) => float32 (acc + (if b then 1 else 0))) eq acc
  = (acc + Z.of_nat (length (List.filter (fun b : bool => b) eq)))%Z.
Proof.
  revert acc. induction eq as [|b eq IH]; intros acc Hacc Hlen.
  - cbn. lia.
  - cbn [fold_left length List.filter] in *.
    rewrite float32_exact by (destruct b; lia).
    rewrite IH by (destruct b; lia).
    destruct b; cbn [length]; lia.
Qed.

Lemma sum32_count (eq : list bool) :
  (Z.of_nat (length eq) <= 2 ^ 24)%Z ->
  sum32 eq = Z.of_nat (length (List.filter (fun b : bool => b) eq)).
Proof. intros Hlen. unfold sum32. rewrite fold_left_count by lia. lia. Qed.

Lemma matches_le (p y : list nat) : matches p y <= length y.
Proof.
  unfold matches.
  etransitivity; [apply List.filter_length_le|].
  rewrite length_zip_with. lia.
Qed.

Lemma matches_app (p1 p2 y1 y2 : list nat) :
  length p1 = length y1 ->
  matches (p1 ++ p2) (y1 ++ y2) = matches p1 y1 + matches p2 y2.
Proof.
  intros Hlen. unfold matches.
  rewrite zip_with_app by exact Hlen.
  rewrite List.filter_app, length_app. reflexivity.
Qed.

(** A batch with one prediction per label, compared entry by entry. *)
Lemma broadcast_equal_same_length (p y : list nat) :
  length p = length y -> broadcast_equal p y = Some (zip_with same_class p y).
Proof. intros Hlen. unfold broadcast_equal. rewrite Hlen, Nat.eqb_refl. reflexivity. Qed.

Section Facts.
Variable c : Classifier.

(** With one prediction per label and no more than [2 ^ 24] labels in
    all, the loop counts exactly: the correct predictions and the labels
    of all batches are added to [acc_sum] and [n]. *)
Lemma evaluate_loop_counts (data_iter : list (list (Example c) * list nat))
    (acc_sum n : Z) :
  Forall (fun b => length (argmax c (net c b.1)) = length b.2) data_iter ->
  (0 <= acc_sum <= n)%Z ->
  (n + Z.of_nat (length (concat (map snd data_iter))) <= 2 ^ 24)%Z ->
  evaluate_loop c data_iter acc_sum n
  = Some ((acc_sum
           + Z.of_nat (list_sum (map (fun b => matches (argmax c (net c b.1)) b.2)
                                     data_iter)))%Z,
          (n + Z.of_nat (length (concat (map snd data_iter))))%Z).
Proof.
  intros Hall. revert acc_sum n.
  induction Hall as [|[X y] rest Hb Hrest IH]; intros acc_sum n Hacc Hn;
    cbn [evaluate_loop].
  - cbn. do 2 f_equal; lia.
  - cbn [fst snd map concat list_sum] in *. rewrite length_app in Hn.
    rewrite (broadcast_equal_same_length _ _ Hb). cbn [mbind option_bind].
    pose proof (matches_le (argmax c (net c X)) y) as Hle.
    assert (Hlen : length (zip_with same_class (argmax c (net c X)) y) = length y).
    { rewrite length_zip_with. lia. }
    rewrite sum32_count by lia.
    fold (matches (argmax c (net c X)) y).
    rewrite float32_exact by lia.
    rewrite IH by lia.
    change (list_sum (?a :: ?l)) with (a + list_sum l).
    rewrite length_app. do 2 f_equal; lia.
Qed.



(** When the network classifies every example on its own, the correct
    predictions of the batches add up to those of the whole data set. *)
Lemma list_sum_matches_examples (classify : Example c -> nat)
    (data_iter : list (list (Example c) * list nat)) :
  (forall X, argmax c (net c X) = map classify X) ->
  Forall (fun b => length b.1 = length b.2) data_iter ->
  list_sum (map (fun b => matches (argmax c (net c b.1)) b.2) data_iter)
  = matches (map classify (concat (map fst data_iter))) (concat (map snd data_iter)).
Proof.
  intros Hnet Hall.
  induction Hall as [|[X y] rest Hb Hrest IH]; [reflexivity|].
  cbn [map concat fst snd] in *. change (list_sum (?a :: ?l)) with (a + list_sum l).
  rewrite map_app, matches_app by (rewrite length_map; exact Hb).
  rewrite IH, Hnet. reflexivity.
Qed.

(** X6.  For a network that classifies every example on its own and a
    data set of no more than [2 ^ 24] examples, the accuracy depends on
    the examples and their labels only, not on how the data iterator
    groups them into batches: two iterators that yield the same examples
    and labels in the same order give the same result. *)
Theorem evaluate_accuracy_any_batching (classify : Example c -> nat)
    (data_iter data_iter' : list (list (Example c) * list nat)) :
  (forall X, argmax c (net c X) = map classify X) ->
  Forall (fun b => length b.1 = length b.2) data_iter ->
  Forall (fun b => length b.1 = length b.2) data_iter' ->
  (Z.of_nat (length (concat (map snd data_iter))) <= 2 ^ 24)%Z ->
  concat (map fst data_iter) = concat (map fst data_iter') ->
  concat (map snd data_iter) = concat (map snd data_iter') ->
  evaluate_accuracy c data_iter = evaluate_accuracy c data_iter'.
Proof.
  intros Hnet Hall Hall' Hsize HX Hy. unfold evaluate_accuracy.
  assert (Hone : forall it : list (list (Example c) * list nat),
             Forall (fun b => length b.1 = length b.2) it ->
             Forall (fun b => length (argmax c (net c b.1)) = length b.2) it).
  { intros it Hit. eapply Forall_impl; [exact Hit|].
    intros b Hb. cbn beta in *. rewrite Hnet, length_map. exact Hb. }
  rewrite (evaluate_loop_counts data_iter 0 0 (Hone _ Hall)) by lia.
  rewrite (evaluate_loop_counts data_iter' 0 0 (Hone _ Hall')) by (rewrite <- ?Hy; lia).
  rewrite !(list_sum_matches_examples classify) by assumption.
  rewrite HX, Hy. reflexivity.
Qed.

End Facts.

(** A single label is broadcast along three predictions: three matches
    are counted for one label. *)
Example evaluate_accuracy_broadcasts :
  evaluate_accuracy parity [([1; 3; 5], [1])] = Some (IZR 3 / IZR 1)%R.
Proof. reflexivity. Qed.


(** The same three numbers, in batches of two and one and in batches of
    one and two. *)
Lemma evaluate_accuracy_any_batching_witness :
  evaluate_accuracy parity [([1; 2], [1; 1]); ([3], [1])]
  = evaluate_accuracy parity [([1], [1]); ([2; 3], [1; 1])].
Proof.
  apply (evaluate_accuracy_any_batching parity (fun x => x mod 2)).
  - intros X. reflexivity.
  - repeat constructor.
  - repeat constructor.
  - cbn. lia.
  - reflexivity.
  - reflexivity.
Defined.

End Accuracy_facts.

(** ** The residual network of the multi-GPU notebook *)
Module ResNet_facts.
Import ResNet.

Lemma residuals_cons (b : Block) (l : list Block) :
  residuals (Sequential (b :: l)) = residuals b ++ residuals (Sequential l).
Proof. reflexivity. Qed.

(** The units after the first of a block are plain ones. *)
Lemma residuals_plain (c : nat) (first_block : bool) (l : list nat) :
  Forall (fun i => i <> 0) l ->
  residuals (Sequential (map (fun i =>
               if (i =? 0) && negb first_block
               then Residual c (Some true) (Some 2)
               else Residual c None None) l))
  = map (fun _ => Residual c None None) l.
Proof.
  induction 1 as [|i l Hi Hl IH]; [reflexivity|].
  cbn [map]. rewrite residuals_cons, IH, (proj2 (Nat.eqb_neq i 0) Hi). reflexivity.
Qed.

Lemma map_const_seq {X} (x : X) (s n : nat) : map (fun _ => x) (seq s n) = replicate n x.
Proof.
  revert s. induction n as [|n IH]; intros s; [reflexivity|].
  cbn [seq map replicate]. f_equal. apply IH.
Qed.

Lemma residuals_resnet_block (c n : nat) (first_block : bool) :
  residuals (resnet_block c n first_block)
  = match n with
    | 0 => []
    | S n' =>
        (if first_block then Residual c None None
         else Residual c (Some true) (Some 2))
          :: replicate n' (Residual c None None)
    end.
Proof.
  destruct n as [|n']; [reflexivity|].
  unfold resnet_block. cbn [seq map]. rewrite residuals_cons, residuals_plain.
  - rewrite map_const_seq. destruct first_block; reflexivity.
  - apply Forall_forall. intros i Hi. apply list_elem_of_In, in_seq in Hi. lia.
Qed.

Lemma filter_strided_plain (c n : nat) :
  List.filter strided (replicate n (Residual c None None)) = [].
Proof. induction n as [|n IH]; [reflexivity|exact IH]. Qed.

(** X7.  [resnet_block(c, n, first_block)] holds [n] residual units of
    [c] channels each; the only unit given a stride (and a 1 x 1
    convolution) is the first one, and only when [first_block] is false.
    So [resnet18] holds eight residual units of 64, 64, 128, 128, 256,
    256, 512 and 512 channels, of which the third, fifth and seventh are
    the strided ones, and its last layer is [Dense(num_classes)]. *)
Theorem resnet18_structure :
  (forall c n first_block,
      length (residuals (resnet_block c n first_block)) = n
      /\ Forall (fun r => channels_of r = Some c) (residuals (resnet_block c n first_block))
      /\ List.filter strided (residuals (resnet_block c n first_block))
         = if first_block || (n =? 0) then [] else [Residual c (Some true) (Some 2)])
  /\ (forall num_classes,
        channels_of <$> residuals (resnet18 num_classes)
        = Some <$> [64; 64; 128; 128; 256; 256; 512; 512]
        /\ strided <$> residuals (resnet18 num_classes)
           = [false; false; true; false; true; false; true; false]
        /\ exists children,
             resnet18 num_classes = Sequential (children ++ [Dense num_classes])).
Proof.
  split.
  - intros c n first_block. rewrite residuals_resnet_block.
    destruct n as [|n']; [destruct first_block; repeat split; constructor|].
    split; [cbn [length]; rewrite length_replicate; reflexivity|]. split.
    + constructor; [destruct first_block; reflexivity|].
      apply Forall_forall. intros r Hr. apply elem_of_replicate in Hr as [-> _].
      reflexivity.
    + destruct first_block; cbn [List.filter strided orb Nat.eqb];
        rewrite filter_strided_plain; reflexivity.
  - intros num_classes. split; [reflexivity|]. split; [reflexivity|].
    eexists [_; _; _; _; _; _; _; _]. reflexivity.
Qed.

End ResNet_facts.

(** ** Deferred initialization: when the shapes are known *)
Module ForcedInit_facts.
Import NDArrays DeferredInit DeferredInit_facts ForcedInit.

(** On a network whose shapes are known, [initialize] with
    [force_reinit=True] runs the initializer of every parameter at once:
    one line per weight. *)
Lemma initialize_ready_again id k layers out :
  positive_units layers -> 0 < k ->
  initialize MyInit true (ready_stack id k layers) out
  = (ready_stack id k layers, out ++ init_lines id k layers).
Proof.
  intros Hpos. revert id k out.
  induction Hpos as [|[u act] rest Hu Hrest IH]; intros id k out Hk.
  - cbn. rewrite app_nil_r. reflexivity.
  - cbn [ready_stack initialize weight_p bias_p units activation].
    unfold param_initialize, is_ready.
    cbn [pstate pshape own_init pname andb negb default set_state].
    rewrite (shape_known_pair u k Hu Hk), (shape_known_singleton u Hu).
    cbn [_init_weight]. rewrite app_nil_r, (IH (S id) u) by exact Hu.
    cbn [init_lines]. rewrite <- app_assoc. reflexivity.
Qed.

(** Without [force_reinit], [initialize] leaves an initialized network
    alone. *)
Lemma initialize_ready_ignored init id k layers out :
  initialize init false (ready_stack id k layers) out = (ready_stack id k layers, out).
Proof.
  revert id k out. induction layers as [|[u act] rest IH]; intros id k out; [reflexivity|].
  cbn [ready_stack initialize weight_p bias_p units activation].
  unfold param_initialize, is_ready. cbn [pstate andb negb].
  rewrite IH. reflexivity.
Qed.

(** X8.  Once a forward computation has fixed the shapes of a stack of
    dense layers, [initialize(init=MyInit())] alone changes nothing and
    prints nothing, and [initialize(init=MyInit(), force_reinit=True)]
    runs [MyInit] at once, printing one line per weight with the inferred
    shape, without waiting for another forward computation.  In the
    notebook's cells 5 to 8 this prints the lines for (256, 20) and
    (10, 256) a second time. *)
Theorem force_reinit_initializes_at_once :
  (forall layers (w : World) (n : nat) (feat : list nat) out,
      positive_units layers -> 0 < size feat ->
      exists net2 y,
        net_forward (initialize MyInit false (dense_stack layers w).1 out).1
                    (n :: feat) out
        = Some (net2, y, out ++ init_lines (created w) (size feat) layers)
        /\ (forall out', initialize MyInit false net2 out' = (net2, out'))
        /\ (forall out',
              initialize MyInit true net2 out'
              = (net2, out' ++ init_lines (created w) (size feat) layers)))
  /\ (forall w : World,
        cells_5_to_8 [2; 20] w
        = Some ([[256; 20]; [10; 256]],
                stdout w
                ++ [ {| line_name := weight_name (created w); line_shape := [256; 20] |};
                     {| line_name := weight_name (S (created w));
                        line_shape := [10; 256] |} ]
                ++ [ {| line_name := weight_name (created w); line_shape := [256; 20] |};
                     {| line_name := weight_name (S (created w));
                        line_shape := [10; 256] |} ])).
Proof.
  split.
  - intros layers w n feat out Hpos Hfeat.
    rewrite dense_stack_fresh. cbn [fst].
    rewrite (initialize_fresh MyInit _ _ _ Hpos). cbn [fst].
    rewrite (net_forward_postponed _ _ n feat _ Hpos Hfeat).
    eexists _, _. split; [reflexivity|]. split.
    + intros out'. apply initialize_ready_ignored.
    + intros out'. apply initialize_ready_again; assumption.
  - intros w. unfold cells_5_to_8.
    change (getnet w) with (dense_stack [(256, Some relu); (10, None)] w).
    rewrite dense_stack_fresh.
    assert (Hpos : positive_units [(256, Some relu); (10, None)])
      by (repeat constructor; cbn; lia).
    rewrite (initialize_fresh MyInit _ _ _ Hpos).
    rewrite (net_forward_postponed _ _ 2 [20] _ Hpos) by (cbn; lia).
    cbn [mbind option_bind fst snd].
    rewrite (net_forward_ready _ _ 2 [20]).
    cbn [mbind option_bind fst snd].
    rewrite (initialize_ready_again _ 20 _ _ Hpos) by lia.
    rewrite weight_shapes_ready, <- app_assoc. reflexivity.
Qed.

(** The notebook's network on an input of shape (2, 20), from a fresh
    interpreter. *)
Lemma force_reinit_initializes_at_once_witness :
  exists net2 y,
    net_forward (initialize MyInit false
                   (dense_stack [(256, Some relu); (10, None)]
                                {| created := 0; stdout := [] |}).1 []).1
                [2; 20] []
    = Some (net2, y, [] ++ init_lines 0 20 [(256, Some relu); (10, None)])
    /\ (forall out', initialize MyInit false net2 out' = (net2, out'))
    /\ (forall out',
          initialize MyInit true net2 out'
          = (net2, out' ++ init_lines 0 20 [(256, Some relu); (10, None)])).
Proof.
  apply (proj1 force_reinit_initializes_at_once
           [(256, Some relu); (10, None)] {| created := 0; stdout := [] |} 2 [20] []).
  - repeat constructor; simpl; lia.
  - simpl. lia.
Defined.

(** A network whose layers declare their input dimension is built with
    every shape known. *)
Lemma initialize_declared id layers (w : World) out :
  Forall (fun l => 0 < l.1.1 /\ 0 < l.1.2) layers ->
  created w = id ->
  exists net1,
    initialize MyInit false (dense_stack_in layers w).1 out
    = (net1, out ++ declared_lines id layers)
    /\ weight_shapes net1 = (fun l => [l.1.1; l.1.2]) <$> layers
    /\ all_ready net1 = true.
Proof.
  intros Hpos. revert id w out.
  induction Hpos as [|[[u k] act] rest [Hu Hk] Hrest IH]; intros id w out Hid.
  - exists []. cbn. rewrite app_nil_r. repeat split.
  - cbn [dense_stack_in Dense].
    destruct (dense_stack_in rest {| created := S (created w); stdout := stdout w |})
      as [ds w2] eqn:Hds.
    cbn [fst initialize weight_p bias_p units activation].
    unfold param_initialize, is_ready.
    cbn [pstate pshape own_init pname andb negb default set_state fst snd] in *.
    rewrite (shape_known_pair u k Hu Hk), (shape_known_singleton u Hu).
    cbn [_init_weight]. rewrite app_nil_r.
    destruct (IH (S id) {| created := S (created w); stdout := stdout w |}
                 (out ++ [{| line_name := {| block := created w; kind := weight |};
                             line_shape := [u; k] |}]))
      as (net1 & Hinit & Hshapes & Hready); [cbn; lia|].
    rewrite Hds in Hinit. cbn [fst] in Hinit. rewrite Hinit.
    eexists. split; [|split].
    + rewrite <- app_assoc, Hid. reflexivity.
    + change (weight_shapes (?d :: ?n)) with (pshape (weight_p d) :: weight_shapes n).
      rewrite Hshapes. reflexivity.
    + change (all_ready (?d :: ?n))
        with (is_ready (weight_p d) && is_ready (bias_p d) && all_ready n).
      rewrite Hready. reflexivity.
Qed.

(** X9.  When every dense layer is given its [in_units],
    [initialize(init=MyInit())] does not defer anything: it runs
    [MyInit] at once, printing one line per weight with the declared
    shape (units, in_units), and leaves every parameter initialized.  In
    the notebook's cell 9 it prints the lines for (256, 20) and
    (10, 256). *)
Theorem in_units_initializes_at_once :
  (forall layers (w : World) out,
      Forall (fun l => 0 < l.1.1 /\ 0 < l.1.2) layers ->
      exists net1,
        initialize MyInit false (dense_stack_in layers w).1 out
        = (net1, out ++ declared_lines (created w) layers)
        /\ weight_shapes net1 = (fun l => [l.1.1; l.1.2]) <$> layers
        /\ all_ready net1 = true)
  /\ (forall w : World,
        cell_9 w
        = ([[256; 20]; [10; 256]],
           stdout w
           ++ [ {| line_name := weight_name (created w); line_shape := [256; 20] |};
                {| line_name := weight_name (S (created w));
                   line_shape := [10; 256] |} ])).
Proof.
  split.
  - intros layers w out Hpos. apply initialize_declared; [exact Hpos|reflexivity].
  - intros w. unfold cell_9.
    destruct (initialize_declared (created w) [(256, 20, Some relu); (10, 256, None)]
                w (stdout w)) as (net1 & Hinit & Hshapes & _);
      [repeat constructor; cbn; lia|reflexivity|].
    destruct (dense_stack_in _ w) as [net0 w0] eqn:Hstack.
    cbn in Hstack. injection Hstack as <- <-. cbn [fst stdout] in *.
    rewrite Hinit, Hshapes. reflexivity.
Qed.

(** The notebook's last network, built after four other dense layers. *)
Lemma in_units_initializes_at_once_witness :
  exists net1,
    initialize MyInit false
      (dense_stack_in [(256, 20, Some relu); (10, 256, None)]
                      {| created := 4; stdout := [] |}).1 []
    = (net1, [] ++ declared_lines 4 [(256, 20, Some relu); (10, 256, None)])
    /\ weight_shapes net1
       = (fun l => [l.1.1; l.1.2]) <$> [(256, 20, Some relu); (10, 256, None)]
    /\ all_ready net1 = true.
Proof.
  apply (proj1 in_units_initializes_at_once
           [(256, 20, Some relu); (10, 256, None)] {| created := 4; stdout := [] |} []).
  repeat constructor; simpl; lia.
Defined.

End ForcedInit_facts.

(** ** Reading the data: sequences of any length, lines of any form *)
Module Lines_facts.
Import NDArrays Py MachineTranslation Py_facts MachineTranslation_facts Lines.

Lemma padded_length_max (msl : Z) (t : list string) :
  Z.of_nat (length (padded msl t)) = Z.max msl (Z.of_nat (length t) + 1).
Proof.
  unfold padded. rewrite !length_app, length_replicate. cbn [length]. lia.
Qed.

Lemma padded_prefix (msl : Z) (t : list string) :
  take (S (length t)) (padded msl t) = t ++ [EOS].
Proof.
  unfold padded. rewrite app_assoc.
  apply take_app_length'. rewrite length_app. cbn [length]. lia.
Qed.

(** X10.  [process_one_seq] never shortens a sequence: whatever its
    length, the list keeps all its tokens, followed by [EOS], and ends up
    with [max(max_seq_len, len + 1)] entries.  A sequence of
    [max_seq_len] tokens or more thus becomes longer than [max_seq_len];
    only the test in [read_data] keeps such sequences out. *)
Theorem process_one_seq_never_truncates (max_seq_len : Z)
    (seq_tokens all_tokens all_seqs : loc) (h : heap) (t : list string)
    (a q : list pyval) :
  seq_tokens <> all_tokens -> seq_tokens <> all_seqs -> all_tokens <> all_seqs ->
  store h !! seq_tokens = Some (strs t) ->
  store h !! all_tokens = Some a ->
  store h !! all_seqs = Some q ->
  exists h' recorded_tokens,
    process_one_seq seq_tokens all_tokens all_seqs max_seq_len h = Some (tt, h')
    /\ store h' !! seq_tokens = Some (strs recorded_tokens)
    /\ take (S (length t)) recorded_tokens = t ++ [EOS]
    /\ Z.of_nat (length recorded_tokens)
       = Z.max max_seq_len (Z.of_nat (length t) + 1).
Proof.
  intros Hst Hsq Htq Hs Ha Hq.
  destruct (process_one_seq_props seq_tokens all_tokens all_seqs max_seq_len h
              (strs t) a q Hst Hsq Htq Hs Ha Hq)
    as (h' & Hrun & _ & Hs' & _).
  exists h', (padded max_seq_len t). split; [exact Hrun|].
  rewrite strs_padded in Hs'.
  split; [exact Hs'|]. split; [apply padded_prefix|apply padded_length_max].
Qed.

(** *** The lines [read_data] accepts *)

Lemma split_nonempty (sep : ascii) (s : string) : split sep s <> [].
Proof.
  destruct s as [|c s]; cbn [split]; [discriminate|].
  destruct (Ascii.eqb c sep); [discriminate|].
  destruct (split sep s); discriminate.
Qed.

(** [split] gives one piece more than there are separators. *)
Lemma length_split (sep : ascii) (s : string) :
  length (split sep s) = S (occurrences sep s).
Proof.
  induction s as [|c s IH]; [reflexivity|]. cbn [split occurrences].
  destruct (Ascii.eqb c sep).
  - cbn [length]. rewrite IH. reflexivity.
  - pose proof (split_nonempty sep s) as Hne.
    destruct (split sep s) as [|w ws]; [contradiction|]. exact IH.
Qed.

Lemma fields_Some_iff (line : string) :
  is_Some (fields line) <-> occurrences tab (rstrip line) = 1.
Proof.
  unfold fields. rewrite <- Nat.succ_inj_wd, <- length_split.
  destruct (split tab (rstrip line)) as [|a [|b [|c l]]]; cbn [length].
  - split; [intros [? [=]]|lia].
  - split; [intros [? [=]]|lia].
  - split; [reflexivity|eauto].
  - split; [intros [? [=]]|lia].
Qed.

Lemma all_fields_Some_iff (lines : list string) :
  is_Some (all_fields lines)
  <-> Forall (fun line => occurrences tab (rstrip line) = 1) lines.
Proof.
  induction lines as [|line rest IH]; cbn [all_fields].
  - split; [constructor|eauto].
  - rewrite Forall_cons, <- IH, <- fields_Some_iff.
    destruct (fields line) as [p|]; cbn [mbind option_bind].
    + destruct (all_fields rest) as [ps|]; cbn [mbind option_bind].
      * split; eauto.
      * split; [intros [? [=]]|intros [_ [? [=]]]].
    + split; [intros [? [=]]|intros [[? [=]] _]].
Qed.

Lemma rstrip_blank (s : string) : blank s = true -> rstrip s = EmptyString.
Proof.
  induction s as [|c s IH]; [reflexivity|]. cbn [blank rstrip].
  intros Hb. apply andb_true_iff in Hb as [Hc Hs].
  rewrite (IH Hs), Hc. reflexivity.
Qed.

Section ReadData.
Context `{TextFramework}.

(** X11.  [read_data] returns only if every line of the file, once
    its trailing white space is stripped, holds exactly one tab: any
    other line makes the unpacking of the two fields raise, whether or
    not the length test would have skipped the line.  In particular a
    file with an empty line, or a line of white space only, cannot be
    read. *)
Theorem read_data_needs_one_tab_per_line (max_seq_len : Z) (lines : list string)
    (h0 : heap) :
  heap_ok h0 ->
  (is_Some (read_data max_seq_len lines h0) ->
   Forall (fun line => occurrences tab (rstrip line) = 1) lines)
  /\ (forall line, line ∈ lines -> blank line = true ->
        read_data max_seq_len lines h0 = None).
Proof.
  intros Hok.
  assert (Hneeds : is_Some (read_data max_seq_len lines h0) ->
                   Forall (fun line => occurrences tab (rstrip line) = 1) lines).
  { rewrite <- all_fields_Some_iff.
    pose proof (read_data_spec max_seq_len lines h0 Hok) as Hspec.
    destruct (all_fields lines) as [pairs|]; [eauto|].
    rewrite Hspec. intros [? [=]]. }
  split; [exact Hneeds|].
  intros line Hin Hblank.
  destruct (read_data max_seq_len lines h0) as [r|] eqn:Hrun; [|reflexivity].
  exfalso.
  assert (Hall : Forall (fun line => occurrences tab (rstrip line) = 1) lines)
    by (apply Hneeds; eauto).
  rewrite Forall_forall in Hall. specialize (Hall line Hin).
  rewrite (rstrip_blank line Hblank) in Hall. discriminate.
Qed.

End ReadData.

(** A sequence of four tokens with [max_seq_len = 3]: it ends up with
    five entries. *)
Lemma process_one_seq_never_truncates_witness :
  exists h' recorded_tokens,
    process_one_seq 2 0 1 3
      {| store := {[ 0 := []; 1 := []; 2 := strs ["a"; "b"; "c"; "d"]%string ]};
         next := 3 |}
    = Some (tt, h')
    /\ store h' !! 2 = Some (strs recorded_tokens)
    /\ take (S (length ["a"; "b"; "c"; "d"]%string)) recorded_tokens
       = ["a"; "b"; "c"; "d"]%string ++ [EOS]
    /\ Z.of_nat (length recorded_tokens)
       = Z.max 3 (Z.of_nat (length ["a"; "b"; "c"; "d"]%string) + 1).
Proof.
  apply (process_one_seq_never_truncates 3 2 0 1 _ ["a"; "b"; "c"; "d"]%string [] []);
    try lia; reflexivity.
Defined.

(** The two example lines followed by an empty line. *)
Lemma read_data_needs_one_tab_per_line_witness :
  @read_data toy_framework 7 (toy_lines ++ [EmptyString]) empty_heap = None.
Proof.
  apply (proj2 (@read_data_needs_one_tab_per_line toy_framework 7
                  (toy_lines ++ [EmptyString]) empty_heap heap_ok_empty) EmptyString).
  - apply elem_of_app. right. constructor.
  - reflexivity.
Defined.

End Lines_facts.

(** ** The context variable as a weighted mean *)
Module Context_facts.
Import Attention Attention_facts Seq2SeqBlocks.
#[local] Open Scope R_scope.

(** A sum with weights that are not negative lies between the smallest
    and the largest term, each times the sum of the weights. *)
Lemma weighted_sum_bounds (w x : nat -> R) (l : list nat) (lo hi : R) :
  (forall t, In t l -> 0 <= w t) ->
  (forall t, In t l -> lo <= x t <= hi) ->
  lo * sumR (map w l) <= sumR (map (fun t => w t * x t) l) <= hi * sumR (map w l).
Proof.
  induction l as [|t l IH]; intros Hw Hx; cbn [map]; rewrite ?sumR_nil, ?sumR_cons.
  - lra.
  - destruct IH as [IHlo IHhi].
    { intros t' Ht'. apply Hw. right. exact Ht'. }
    { intros t' Ht'. apply Hx. right. exact Ht'. }
    pose proof (Hw t (or_introl eq_refl)) as Hwt.
    pose proof (Hx t (or_introl eq_refl)) as [Hlo Hhi].
    split; nra.
Qed.

(** X12.  Every element of the context variable lies between the
    smallest and the largest value the encoder states take at that
    position over the time steps, whatever the weights of the attention
    model and the decoder state: attention averages, it never
    extrapolates.  In particular, encoder states that are equal at all
    time steps are returned as they are. *)
Theorem attention_context_within_bounds (attention_size : nat) (w1 : nat -> list R)
    (w2 : list R) (enc_states : tensor3) (dec_state : tensor2) (T B H b j : nat)
    (lo hi : R) :
  (0 < T)%nat ->
  has_shape3 enc_states T B H ->
  has_shape2 dec_state B H ->
  (b < B)%nat -> (j < H)%nat ->
  (forall t, (t < T)%nat -> lo <= at3 enc_states t b j <= hi) ->
  lo <= at2 (attention_forward (attention_model attention_size w1 w2) enc_states dec_state)
            b j
     <= hi.
Proof.
  intros HT Henc Hdec Hb Hj Hbounds.
  assert (Hmodel :
    has_shape3 (attention_model attention_size w1 w2
                  (concat2 enc_states (broadcast_axis0 dec_state (length enc_states))))
               T B 1).
  { apply attention_model_shape with (K := (H + H)%nat).
    apply concat2_shape; [exact Henc|].
    destruct Henc as [<- _]. apply broadcast_axis0_shape. exact Hdec. }
  destruct (attention_forward_general _ enc_states dec_state T B H HT Henc Hmodel)
    as (_ & Hat & Hweights).
  rewrite (Hat b j Hb Hj).
  destruct (Hweights b Hb) as [Hpos Hone].
  pose proof (weighted_sum_bounds
                (fun t => weight (attention_model attention_size w1 w2)
                                 enc_states dec_state t b)
                (fun t => at3 enc_states t b j) (seq 0 T) lo hi) as Hsum.
  cbn beta in Hsum. rewrite Hone, !Rmult_1_r in Hsum. apply Hsum.
  - intros t Ht. apply in_seq in Ht. apply Hpos. lia.
  - intros t Ht. apply in_seq in Ht. apply Hbounds. lia.
Qed.

Lemma sumR_exp_shift (f : nat -> R) (c : R) (l : list nat) :
  sumR (map (fun s => exp (f s + c)) l) = exp c * sumR (map (fun s => exp (f s)) l).
Proof.
  induction l as [|x l IH]; cbn [map]; rewrite ?sumR_nil, ?sumR_cons; [lra|].
  rewrite IH, exp_plus. lra.
Qed.

(** X13.  The context variable depends on the scores only up to a
    shift: two models whose scores differ, for each batch element, by
    the same amount at every time step give the same context.  A bias on
    the output unit of the attention model would thus change nothing,
    which is why [attention_model] can build it with [use_bias=False]. *)
Theorem attention_ignores_score_shift (model model' : tensor3 -> tensor3)
    (enc_states : tensor3) (dec_state : tensor2) (T B H : nat) (shift : nat -> R) :
  (0 < T)%nat ->
  has_shape3 enc_states T B H ->
  has_shape3 (model (concat2 enc_states (broadcast_axis0 dec_state (length enc_states))))
             T B 1 ->
  has_shape3 (model' (concat2 enc_states (broadcast_axis0 dec_state (length enc_states))))
             T B 1 ->
  (forall t b, (t < T)%nat -> (b < B)%nat ->
     score model' enc_states dec_state t b
     = score model enc_states dec_state t b + shift b) ->
  forall b j, (b < B)%nat -> (j < H)%nat ->
    at2 (attention_forward model' enc_states dec_state) b j
    = at2 (attention_forward model enc_states dec_state) b j.
Proof.
  intros HT Henc Hmodel Hmodel' Hshift b j Hb Hj.
  destruct (attention_forward_general model enc_states dec_state T B H HT Henc Hmodel)
    as (_ & Hat & _).
  destruct (attention_forward_general model' enc_states dec_state T B H HT Henc Hmodel')
    as (_ & Hat' & _).
  rewrite Hat, Hat' by assumption.
  f_equal. apply map_ext_in. intros t Ht. apply in_seq in Ht.
  f_equal. unfold weight. destruct Henc as [-> _].
  rewrite Hshift by (assumption || lia).
  rewrite (map_ext_in (fun s => exp (score model' enc_states dec_state s b))
                      (fun s => exp (score model enc_states dec_state s b + shift b))).
  2:{ intros s Hs. apply in_seq in Hs. rewrite Hshift by (assumption || lia). reflexivity. }
  rewrite sumR_exp_shift, exp_plus.
  assert (Hpos : 0 < sumR (map (fun s => exp (score model enc_states dec_state s b))
                               (seq 0 T))).
  { apply sumR_pos; [|intros; apply exp_pos]. destruct T; [lia|discriminate]. }
  pose proof (exp_pos (shift b)) as Hc.
  field. split; lra.
Qed.

(** Two time steps with the values 1 and 3 at position (0, 0). *)
Lemma attention_context_within_bounds_witness :
  1 <= at2 (attention_forward (attention_model 1 (fun _ => [0; 0; 0; 0]) [1])
                              toy_enc_states toy_dec_state) 0 0
    <= 3.
Proof.
  apply (attention_context_within_bounds 1 (fun _ => [0; 0; 0; 0]) [1]
           toy_enc_states toy_dec_state 2 1 2 0 0 1 3).
  - lia.
  - split; [reflexivity|]. repeat constructor.
  - split; [reflexivity|]. repeat constructor.
  - lia.
  - lia.
  - intros [|[|t]] Ht; [unfold at3; cbn; lra|unfold at3; cbn; lra|lia].
Defined.

(** The same attention model with and without a bias of 5 on its
    output unit. *)
Lemma attention_ignores_score_shift_witness :
  at2 (attention_forward (with_bias 5 (attention_model 1 (fun _ => [0; 0; 0; 0]) [1]))
                         toy_enc_states toy_dec_state) 0 0
  = at2 (attention_forward (attention_model 1 (fun _ => [0; 0; 0; 0]) [1])
                           toy_enc_states toy_dec_state) 0 0.
Proof.
  apply (attention_ignores_score_shift
           (attention_model 1 (fun _ => [0; 0; 0; 0]) [1])
           (with_bias 5 (attention_model 1 (fun _ => [0; 0; 0; 0]) [1]))
           toy_enc_states toy_dec_state 2 1 2 (fun _ => 5)).
  - lia.
  - split; [reflexivity|]. repeat constructor.
  - split; [reflexivity|]. repeat constructor.
  - split; [reflexivity|]. repeat constructor.
  - intros [|[|t]] [|b] Ht Hb; try lia; reflexivity.
  - lia.
  - lia.
Defined.

End Context_facts.

(** ** What the recurrent layers of the encoder and the decoder are fed *)
Module Seq2SeqBlocks_facts.
Import Attention Attention_facts Seq2SeqBlocks.

(** X14.  [Encoder.forward] hands its recurrent layer a time-major
    array: for a batch of [B] index rows of [T] entries and an embedding
    of [E] features, the array has shape (T, B, E), and its entry at time
    step [t] for example [b] is the embedding of [inputs[b][t]]. *)
Theorem encoder_input_is_time_major (l : Layers) (inputs : list (list nat)) (B T E : nat) :
  inputs <> [] -> length inputs = B ->
  Forall (fun r => length r = T) inputs ->
  (forall i, length (embedding l i) = E) ->
  has_shape3 (encoder_rnn_input l inputs) T B E
  /\ forall t b, t < T -> b < B ->
       nth b (nth t (encoder_rnn_input l inputs) []) []
       = embedding l (nth t (nth b inputs []) 0).
Proof.
  intros Hne HB Hrows Hemb. unfold encoder_rnn_input, swapaxes01.
  assert (Hhd : length (hd [] (map (map (embedding l)) inputs)) = T).
  { destruct inputs as [|r rest]; [contradiction|]. cbn [map hd]. rewrite length_map.
    inversion Hrows; assumption. }
  rewrite Hhd.
  assert (Hat : forall t b, t < T -> b < B ->
            nth b (nth t (map (fun t => map (fun m => nth t m [])
                                             (map (map (embedding l)) inputs))
                              (seq 0 T)) []) []
            = embedding l (nth t (nth b inputs []) 0)).
  { intros t b Ht Hb.
    rewrite (nth_map_in _ (seq 0 T) t 0) by (rewrite length_seq; exact Ht).
    rewrite seq_nth by exact Ht. cbn [Nat.add].
    rewrite map_map.
    rewrite (nth_map_in _ inputs b []) by lia.
    apply (nth_map_in (embedding l) (nth b inputs []) t 0).
    rewrite List.Forall_nth in Hrows. rewrite (Hrows b []) by lia. exact Ht. }
  split; [|exact Hat].
  apply has_shape3_nth. split; [rewrite length_map, length_seq; reflexivity|].
  intros t Ht. apply has_shape2_nth. split.
  - rewrite (nth_map_in _ (seq 0 T) t 0) by (rewrite length_seq; exact Ht).
    rewrite !length_map. exact HB.
  - intros b Hb. rewrite Hat by assumption. apply Hemb.
Qed.

(** X15.  [Decoder.forward] feeds its recurrent layer, for each example,
    the embedding of the current token followed by the attention context
    computed from the hidden state of the last layer: with an embedding
    of [E] features and [H] hidden units the array has shape
    (B, E + H). *)
Theorem decoder_input_is_embedding_and_context (l : Layers) (attention_size : nat)
    (w1 : nat -> list R) (w2 : list R) (cur_input : list nat) (h : tensor3)
    (rest : list tensor3) (enc_states : tensor3) (T B H E L : nat) :
  attention l = attention_model attention_size w1 w2 ->
  0 < T -> has_shape3 enc_states T B H ->
  0 < L -> has_shape3 h L B H ->
  length cur_input = B ->
  (forall i, length (embedding l i) = E) ->
  exists top x,
    last h = Some top
    /\ input_and_c l cur_input (h :: rest) enc_states = Some x
    /\ has_shape2 x B (E + H)
    /\ forall b, b < B ->
         nth b x []
         = embedding l (nth b cur_input 0)
           ++ nth b (attention_forward (attention l) enc_states top) [].
Proof.
  intros Hatt HT Henc HL Hh Hcur Hemb.
  destruct (last h) as [top|] eqn:Hlast.
  2:{ apply last_None in Hlast. subst h. destruct Hh as [Hlen _]. cbn in Hlen. lia. }
  assert (Htop : has_shape2 top B H).
  { destruct Hh as [_ Hall]. rewrite Forall_forall in Hall. apply Hall.
    apply last_Some in Hlast as [pre ->]. apply elem_of_app. right. constructor. }
  assert (Hmodel :
    has_shape3 (attention_model attention_size w1 w2
                  (concat2 enc_states (broadcast_axis0 top (length enc_states))))
               T B 1).
  { apply attention_model_shape with (K := (H + H)%nat).
    apply concat2_shape; [exact Henc|].
    destruct Henc as [<- _]. apply broadcast_axis0_shape. exact Htop. }
  destruct (attention_forward_general _ enc_states top T B H HT Henc Hmodel)
    as (Hc & _).
  apply has_shape2_nth in Hc as [Lc Hcols].
  exists top, (zip_with app (map (embedding l) cur_input)
                        (attention_forward (attention l) enc_states top)).
  split; [reflexivity|]. split.
  { unfold input_and_c. cbn [head mbind option_bind].
    exact (f_equal
             (fun o => o ≫= (fun top0 =>
                Some (zip_with app (map (embedding l) cur_input)
                        (attention_forward (attention l) enc_states top0))))
             Hlast). }
  rewrite Hatt.
  assert (Hrow : forall b, b < B ->
            nth b (zip_with app (map (embedding l) cur_input)
                     (attention_forward (attention_model attention_size w1 w2)
                                        enc_states top)) []
            = embedding l (nth b cur_input 0)
              ++ nth b (attention_forward (attention_model attention_size w1 w2)
                                          enc_states top) []).
  { intros b Hb.
    rewrite (nth_zip_with _ _ _ _ [] []) by (rewrite ?length_map; lia).
    rewrite (nth_map_in _ cur_input b 0) by lia. reflexivity. }
  split; [|exact Hrow].
  apply has_shape2_nth. split.
  - rewrite length_zip_with_same; rewrite length_map; lia.
  - intros b Hb. rewrite Hrow by exact Hb.
    rewrite length_app, Hemb, Hcols by exact Hb. reflexivity.
Qed.

(** Two index rows of three entries. *)
Lemma encoder_input_is_time_major_witness :
  has_shape3 (encoder_rnn_input toy_layers [[1; 2; 3]; [4; 5; 6]]) 3 2 1
  /\ forall t b, t < 3 -> b < 2 ->
       nth b (nth t (encoder_rnn_input toy_layers [[1; 2; 3]; [4; 5; 6]]) []) []
       = embedding toy_layers (nth t (nth b [[1; 2; 3]; [4; 5; 6]] []) 0).
Proof.
  apply (encoder_input_is_time_major toy_layers [[1; 2; 3]; [4; 5; 6]] 2 3 1).
  - discriminate.
  - reflexivity.
  - repeat constructor.
  - intros i. reflexivity.
Defined.

(** One example, a hidden state of one layer and two units, encoder
    states of two time steps. *)
Lemma decoder_input_is_embedding_and_context_witness :
  exists top x,
    last [toy_dec_state] = Some top
    /\ input_and_c toy_layers [4] [[toy_dec_state]] toy_enc_states = Some x
    /\ has_shape2 x 1 (1 + 2)
    /\ forall b, b < 1 ->
         nth b x []
         = embedding toy_layers (nth b [4] 0)
           ++ nth b (attention_forward (attention toy_layers) toy_enc_states top) [].
Proof.
  apply (decoder_input_is_embedding_and_context toy_layers 1
           (fun _ => [0%R; 0%R; 0%R; 0%R]) [1%R]
           [4] [toy_dec_state] [] toy_enc_states 2 1 2 1 1).
  - reflexivity.
  - lia.
  - split; [reflexivity|]. repeat constructor.
  - lia.
  - split; [reflexivity|]. repeat constructor.
  - reflexivity.
  - intros i. reflexivity.
Defined.

End Seq2SeqBlocks_facts.

(** ** The loss of a mini-batch *)
Module Training_facts.
Import Py MachineTranslation Attention Attention_facts Training.

Lemma sumR_add (f g : nat -> R) (l : list nat) :
  (sumR (map f l) + sumR (map g l))%R = sumR (map (fun i => f i + g i)%R l).
Proof.
  induction l as [|x l IH]; cbn [map]; rewrite ?sumR_nil, ?sumR_cons; [lra|].
  rewrite <- IH. lra.
Qed.

Lemma sumR_by_position (l : list R) :
  sumR l = sumR (map (fun i => nth i l 0%R) (seq 0 (length l))).
Proof.
  rewrite <- (map_by_position (fun x => x) l 0%R), map_id. reflexivity.
Qed.

Lemma sumR_ext (f g : nat -> R) (l : list nat) :
  (forall i, In i l -> f i = g i) -> sumR (map f l) = sumR (map g l).
Proof. intros Hfg. f_equal. apply map_ext_in. exact Hfg. Qed.

Lemma sumR_INR (f : nat -> nat) (l : list nat) :
  sumR (map (fun i => INR (f i)) l) = INR (list_sum (map f l)).
Proof.
  induction l as [|x l IH]; cbn [map]; rewrite ?sumR_nil, ?sumR_cons.
  - reflexivity.
  - change (list_sum (f x :: map f l)) with (f x + list_sum (map f l)).
    rewrite IH, plus_INR. reflexivity.
Qed.

Lemma through_eos_positive (e : nat) (row : list nat) :
  row <> [] -> 0 < through_eos e row.
Proof. destruct row; [contradiction|]. cbn. lia. Qed.

Section Loop.
Variable m : Batched.
Variable out_vocab : Vocabulary.
Variable e : nat.
Hypothesis Heos : token_to_idx out_vocab EOS = Some e.
Hypothesis Hloss : forall o y, length (loss m o y) = length y.
Variable B : nat.

(** The loop in closed form: the mask of example [i] is 1 up to and
    including its first end-of-sequence entry and 0 afterwards. *)
Lemma teacher_forcing_closed (ys : list (list nat)) (dec_input : list nat)
    (dec_state : State m) (enc_outputs : EncOut m) (mask : list R) (num l : R) :
  Forall (fun y => length y = B) ys ->
  length mask = B ->
  teacher_forcing m out_vocab ys dec_input dec_state enc_outputs mask num l
  = Some
      ((l + sumR (map (fun i =>
                         nth i mask 0
                         * sumR (take (through_eos e (map (fun y => nth i y 0%nat) ys))
                                      (map (fun lv => nth i lv 0)
                                           (step_losses m ys dec_input dec_state
                                                        enc_outputs))))
                      (seq 0 B)))%R,
       (num + sumR (map (fun i =>
                           nth i mask 0
                           * INR (through_eos e (map (fun y => nth i y 0%nat) ys)))
                        (seq 0 B)))%R).
Proof.
  intros Hys. revert dec_input dec_state mask num l.
  induction Hys as [|y ys Hy Hys IH]; intros dec_input dec_state mask num l Hmask.
  - cbn [teacher_forcing step_losses map through_eos take]. f_equal. f_equal.
    + rewrite (sumR_ext _ (fun _ => 0%R)).
      * clear. induction (seq 0 B) as [|x s IH]; cbn [map];
          rewrite ?sumR_nil, ?sumR_cons; lra.
      * intros i _. rewrite sumR_nil. lra.
    + rewrite (sumR_ext _ (fun _ => 0%R)).
      * clear. induction (seq 0 B) as [|x s IH]; cbn [map];
          rewrite ?sumR_nil, ?sumR_cons; lra.
      * intros i _. cbn. lra.
  - cbn [teacher_forcing step_losses].
    destruct (decoder m dec_input dec_state enc_outputs) as [dec_output dec_state'].
    rewrite Heos. cbn [mbind option_bind].
    assert (Hmask' : length (zip_with Rmult mask (differs y e)) = B).
    { rewrite length_zip_with_same; [exact Hmask|].
      unfold differs. rewrite length_map. lia. }
    rewrite (IH _ _ _ _ _ Hmask'). f_equal. f_equal.
    + rewrite (sumR_by_position (zip_with Rmult mask (loss m dec_output y))).
      rewrite length_zip_with_same by (rewrite Hloss; lia).
      rewrite Hmask, Rplus_assoc, sumR_add. f_equal.
      apply sumR_ext. intros i Hi. apply in_seq in Hi.
      rewrite (nth_zip_with _ _ _ _ 0%R 0%R) by (rewrite ?Hloss; lia).
      rewrite (nth_zip_with _ _ _ _ 0%R 0%R) by (unfold differs; rewrite ?length_map; lia).
      unfold differs. rewrite (nth_map_in _ y i 0) by lia.
      cbn [map through_eos].
      destruct (nth i y 0 =? e); cbn [take]; rewrite ?take_0, ?sumR_cons, ?sumR_nil; ring.
    + rewrite (sumR_by_position mask) at 1.
      rewrite Hmask, Rplus_assoc, sumR_add. f_equal.
      apply sumR_ext. intros i Hi. apply in_seq in Hi.
      rewrite (nth_zip_with _ _ _ _ 0%R 0%R) by (unfold differs; rewrite ?length_map; lia).
      unfold differs. rewrite (nth_map_in _ y i 0) by lia.
      cbn [map through_eos]. rewrite S_INR.
      destruct (nth i y 0 =? e); cbn [INR]; ring.
Qed.

End Loop.

(** Row [i] of a 2-D array, read off its columns. *)
Lemma row_of_transpose (Y : list (list nat)) (T i : nat) :
  Forall (fun r => length r = T) Y -> i < length Y ->
  map (fun y => nth i y 0) (transpose Y) = nth i Y [].
Proof.
  intros HY Hi. unfold transpose.
  assert (Hhd : length (hd [] Y) = T).
  { destruct Y as [|r Y']; [cbn in Hi; lia|]. inversion HY; assumption. }
  rewrite Hhd, map_map.
  assert (Hrow : length (nth i Y []) = T).
  { rewrite List.Forall_nth in HY. apply HY. exact Hi. }
  transitivity (map (fun t => nth t (nth i Y []) 0) (seq 0 T)).
  - apply map_ext. intros t. apply (nth_map_in (fun r => nth t r 0) Y i []). exact Hi.
  - rewrite <- Hrow. symmetry.
    rewrite <- (map_id (nth i Y [])) at 1.
    exact (map_by_position (fun x => x) (nth i Y []) 0).
Qed.

Lemma transpose_columns (Y : list (list nat)) :
  Forall (fun y => length y = length Y) (transpose Y).
Proof.
  unfold transpose. apply Forall_map, Forall_forall. intros t _. cbn. apply length_map.
Qed.


Lemma nth_replicate_lt {X} (n i : nat) (x d : X) : i < n -> nth i (replicate n x) d = x.
Proof.
  revert i. induction n as [|n IH]; intros [|i] Hi; cbn in *; try lia.
  - reflexivity.
  - apply IH. lia.
Qed.

Lemma list_sum_by_position (f : list nat -> nat) (Y : list (list nat)) :
  list_sum (map (fun i => f (nth i Y [])) (seq 0 (length Y))) = list_sum (map f Y).
Proof. rewrite <- (map_by_position f Y []). reflexivity. Qed.

(** The loop of [batch_loss] on a batch, in closed form: the loss summed
    over the positions up to and including the first end-of-sequence
    entry of each row, and the number of those positions. *)
Lemma batch_loop_closed (m : Batched) (out_vocab : Vocabulary)
    (X Y : list (list nat)) (T e : nat) (dec_input : list nat)
    (dec_state : State m) (enc_outputs : EncOut m) :
  length X = length Y ->
  Forall (fun r => length r = T) Y ->
  token_to_idx out_vocab EOS = Some e ->
  (forall o y, length (loss m o y) = length y) ->
  teacher_forcing m out_vocab (transpose Y) dec_input dec_state enc_outputs
                  (replicate (length X) 1%R) 0 0
  = Some (sumR (map (fun i =>
                       sumR (take (through_eos e (nth i Y []))
                                  (map (fun lv => nth i lv 0%R)
                                       (step_losses m (transpose Y) dec_input dec_state
                                                    enc_outputs))))
                    (seq 0 (length Y))),
          INR (list_sum (map (through_eos e) Y))).
Proof.
  intros HX Hrows Heos Hloss.
  rewrite (teacher_forcing_closed m out_vocab e Heos Hloss (length Y))
    by (rewrite ?length_replicate; auto using transpose_columns).
  rewrite !Rplus_0_l. f_equal. f_equal.
  - apply sumR_ext. intros i Hi. apply in_seq in Hi.
    rewrite nth_replicate_lt by lia.
    rewrite (row_of_transpose Y T i Hrows) by lia. apply Rmult_1_l.
  - rewrite <- list_sum_by_position, <- sumR_INR.
    apply sumR_ext. intros i Hi. apply in_seq in Hi.
    rewrite nth_replicate_lt by lia.
    rewrite (row_of_transpose Y T i Hrows) by lia. apply Rmult_1_l.
Qed.

(** Every row of a batch with at least one column counts for one
    position or more. *)
Lemma counted_positive (e T : nat) (Y : list (list nat)) :
  Y <> [] -> Forall (fun r => length r = T) Y -> 0 < T ->
  (0 < INR (list_sum (map (through_eos e) Y)))%R.
Proof.
  intros HY Hrows HT. apply lt_0_INR.
  destruct Y as [|r Y']; [contradiction|]. inversion Hrows as [|? ? Hr _]; subst.
  cbn [map]. change (list_sum (?a :: ?l)) with (a + list_sum l).
  pose proof (through_eos_positive e r) as Hte.
  destruct r; [cbn in HT; lia|]. specialize (Hte ltac:(discriminate)). lia.
Qed.

(** X16.  [batch_loss] is a masked mean.  For a batch of [B >= 1]
    label rows of [T >= 1] entries each, it returns the sum, over the
    examples, of the losses of the positions up to and including the
    first end-of-sequence entry of the label row, divided by the number
    of those positions.  The losses at later positions (the padding) do
    not reach the result, and the divisor is never zero. *)
Theorem batch_loss_masked_mean (m : Batched) (out_vocab : Vocabulary)
    (X Y : list (list nat)) (T bos e : nat) :
  Y <> [] -> length X = length Y ->
  Forall (fun r => length r = T) Y -> 0 < T ->
  token_to_idx out_vocab BOS = Some bos ->
  token_to_idx out_vocab EOS = Some e ->
  (forall o y, length (loss m o y) = length y) ->
  batch_loss m out_vocab X Y
  = Some (sumR (map (fun i => sumR (take (through_eos e (nth i Y []))
                                         (example_losses m out_vocab X Y i)))
                    (seq 0 (length Y)))
          / INR (list_sum (map (through_eos e) Y)))%R.
Proof.
  intros HY HX Hrows HT Hbos Heos Hloss.
  unfold batch_loss, example_losses.
  destruct (encoder m X) as [enc_outputs enc_state].
  rewrite Hbos. cbn [mbind option_bind default].
  rewrite (batch_loop_closed m out_vocab X Y T e _ _ _ HX Hrows Heos Hloss).
  cbn [mbind option_bind fst snd].
  pose proof (counted_positive e T Y HY Hrows HT) as Hpos.
  destruct (Req_dec_T (INR (list_sum (map (through_eos e) Y))) 0) as [Hz|_]; [lra|].
  reflexivity.
Qed.

(** The two example rows, "they are <eos> <pad>" and
    "they <eos> <pad> <pad>". *)
Lemma batch_loss_masked_mean_witness :
  batch_loss unit_loss_model Prediction.toy_vocab toy_batch toy_batch
  = Some (sumR (map (fun i =>
                       sumR (take (through_eos 3 (nth i toy_batch []))
                                  (example_losses unit_loss_model Prediction.toy_vocab
                                     toy_batch toy_batch i)))
                    (seq 0 (length toy_batch)))
          / INR (list_sum (map (through_eos 3) toy_batch)))%R.
Proof.
  apply (batch_loss_masked_mean unit_loss_model Prediction.toy_vocab
           toy_batch toy_batch 4 2 3).
  - discriminate.
  - reflexivity.
  - repeat constructor.
  - lia.
  - reflexivity.
  - reflexivity.
  - intros o y. apply length_map.
Defined.

(** *** Label rows as [read_data] builds them *)

Section Rows.
Context `{TextFramework}.
Variable toks : list string.

(** In a vocabulary that [build_data] makes, the end of the sequence
    has index 3 and no other token has. *)
Lemma eos_index : token_to_idx (new_vocabulary toks [PAD; BOS; EOS]) EOS = Some 3.
Proof. reflexivity. Qed.

Lemma index_not_eos (t : string) :
  t <> EOS -> default 0 (token_to_idx (new_vocabulary toks [PAD; BOS; EOS]) t) <> 3.
Proof.
  intros Ht. unfold token_to_idx, new_vocabulary. cbn [idx_to_token app index_of].
  destruct (String.eqb "<unk>" t); [cbn; lia|].
  destruct (String.eqb PAD t); [cbn; lia|].
  destruct (String.eqb BOS t); [cbn; lia|].
  destruct (String.eqb_spec EOS t) as [E|_]; [congruence|].
  destruct (index_of t (by_frequency toks)) as [k|]; cbn; lia.
Qed.

Lemma through_eos_tokens (t : list string) (rest : list nat) :
  EOS ∉ t ->
  through_eos 3 (to_indices (new_vocabulary toks [PAD; BOS; EOS]) t ++ 3 :: rest)
  = S (length t).
Proof.
  intros Ht. unfold to_indices.
  induction t as [|x t IH]; [reflexivity|].
  apply not_elem_of_cons in Ht as [Hx Ht].
  cbn [map app through_eos length].
  rewrite (proj2 (Nat.eqb_neq _ 3)) by (apply index_not_eos; congruence).
  f_equal. apply IH. exact Ht.
Qed.

Lemma through_eos_padded (msl : Z) (t : list string) :
  EOS ∉ t ->
  through_eos 3 (to_indices (new_vocabulary toks [PAD; BOS; EOS]) (padded msl t))
  = S (length t).
Proof.
  intros Ht. unfold padded, to_indices. rewrite map_app. cbn [map app].
  apply through_eos_tokens. exact Ht.
Qed.

(** X17.  On label rows as [read_data] builds them (the indices of the
    tokens of a line, none of them the end-of-sequence token, then [EOS],
    then [PAD] up to [max_seq_len]), in a vocabulary that [build_data]
    makes, [batch_loss] counts for each row its tokens and the [EOS],
    [len + 1] positions, and none of the padding. *)
Theorem batch_loss_counts_tokens_and_eos (m : Batched) (msl : Z)
    (labels : list (list string)) (X : list (list nat)) :
  let out_vocab := new_vocabulary toks [PAD; BOS; EOS] in
  let Y := map (fun t => to_indices out_vocab (padded msl t)) labels in
  labels <> [] -> length X = length labels ->
  Forall (fun t => (EOS ∉ t) /\ (Z.of_nat (length t) <= msl - 1)%Z) labels ->
  (forall o y, length (loss m o y) = length y) ->
  batch_loss m out_vocab X Y
  = Some (sumR (map (fun i => sumR (take (S (length (nth i labels [])))
                                         (example_losses m out_vocab X Y i)))
                    (seq 0 (length labels)))
          / INR (list_sum (map (fun t => S (length t)) labels)))%R.
Proof.
  intros out_vocab Y Hne HX Hlabels Hloss.
  assert (HY : Y <> []) by (subst Y; destruct labels; [contradiction|discriminate]).
  assert (HXY : length X = length Y) by (subst Y; rewrite length_map; exact HX).
  assert (Hrows : Forall (fun r => length r = Z.to_nat msl) Y).
  { subst Y. apply Forall_map. eapply Forall_impl; [exact Hlabels|].
    intros t [_ Hlen]. cbn beta. unfold to_indices. rewrite length_map.
    unfold padded. rewrite !length_app, length_replicate. cbn [length]. lia. }
  assert (HT : 0 < Z.to_nat msl).
  { destruct labels as [|t ?]; [contradiction|].
    inversion Hlabels as [|? ? [_ Hlen] _]; subst. lia. }
  assert (Hcount : map (through_eos 3) Y = map (fun t => S (length t)) labels).
  { subst Y. rewrite map_map. apply map_ext_in. intros t Ht.
    apply through_eos_padded.
    rewrite List.Forall_forall in Hlabels. apply Hlabels. exact Ht. }
  unfold batch_loss, example_losses.
  destruct (encoder m X) as [enc_outputs enc_state].
  change (token_to_idx out_vocab BOS) with (Some 2). cbn [mbind option_bind default].
  rewrite (batch_loop_closed m out_vocab X Y (Z.to_nat msl) 3 _ _ _ HXY Hrows
             eos_index Hloss).
  cbn [mbind option_bind fst snd].
  pose proof (counted_positive 3 (Z.to_nat msl) Y HY Hrows HT) as Hpos.
  destruct (Req_dec_T (INR (list_sum (map (through_eos 3) Y))) 0) as [Hz|_]; [lra|].
  rewrite Hcount. f_equal. f_equal.
  replace (length Y) with (length labels) by (subst Y; rewrite length_map; reflexivity).
  apply sumR_ext. intros i Hi. apply in_seq in Hi.
  replace (through_eos 3 (nth i Y [])) with (S (length (nth i labels []))); [reflexivity|].
  subst Y. rewrite (nth_map_in _ labels i []) by lia.
  symmetry. apply through_eos_padded.
  rewrite List.Forall_nth in Hlabels. apply Hlabels. lia.
Qed.

End Rows.

(** The label lines "they are" and "they" with [max_seq_len = 4]. *)
Lemma batch_loss_counts_tokens_and_eos_witness :
  batch_loss unit_loss_model
             (@new_vocabulary toy_framework ["they"; "are"]%string [PAD; BOS; EOS])
             toy_batch
             (map (fun t => to_indices
                              (@new_vocabulary toy_framework ["they"; "are"]%string
                                               [PAD; BOS; EOS])
                              (padded 4 t))
                  [["they"; "are"]; ["they"]]%string)
  = Some (sumR (map (fun i =>
                       sumR (take (S (length (nth i [["they"; "are"]; ["they"]]%string [])))
                                  (example_losses unit_loss_model
                                     (@new_vocabulary toy_framework ["they"; "are"]%string
                                                      [PAD; BOS; EOS])
                                     toy_batch
                                     (map (fun t => to_indices
                                                      (@new_vocabulary toy_framework
                                                         ["they"; "are"]%string
                                                         [PAD; BOS; EOS])
                                                      (padded 4 t))
                                          [["they"; "are"]; ["they"]]%string)
                                     i)))
                    (seq 0 (length [["they"; "are"]; ["they"]]%string)))
          / INR (list_sum (map (fun t => S (length t))
                               [["they"; "are"]; ["they"]]%string)))%R.
Proof.
  apply (@batch_loss_counts_tokens_and_eos toy_framework ["they"; "are"]%string
           unit_loss_model 4 [["they"; "are"]; ["they"]]%string toy_batch).
  - discriminate.
  - reflexivity.
  - repeat constructor; try (simpl; lia);
      rewrite ?not_elem_of_cons; repeat split; try discriminate; apply not_elem_of_nil.
  - intros o y. apply length_map.
Defined.

End Training_facts.

(** ** BLEU: range, matching and zero *)
Module Bleu_facts.
Import Py Evaluation Evaluation_facts.

Lemma exp_nonpos_le_1 (x : R) : (x <= 0)%R -> (0 < exp x <= 1)%R.
Proof.
  intros Hx. split; [apply exp_pos|].
  destruct Hx as [Hx | ->]; [|rewrite exp_0; lra].
  apply Rlt_le. rewrite <- exp_0. apply exp_increasing. exact Hx.
Qed.

Lemma num_matches_le (pred_tokens label_tokens : list string) (n : nat) :
  num_matches pred_tokens label_tokens n
  <= Z.to_nat (Z.of_nat (length pred_tokens) - Z.of_nat n + 1).
Proof.
  unfold num_matches.
  etransitivity; [apply List.filter_length_le|]. rewrite length_seq. reflexivity.
Qed.

Lemma math_pow_unit (p e f : R) :
  (0 <= p <= 1)%R -> (0 < e)%R -> math_pow p e = Some f -> (0 <= f <= 1)%R.
Proof.
  intros [Hp0 Hp1] He. unfold math_pow.
  destruct (Rlt_dec 0 p) as [Hpos|Hnpos].
  - intros [= <-]. unfold Rpower.
    destruct (exp_nonpos_le_1 (e * ln p)) as [H0 H1]; [|lra].
    assert (Hln : (ln p <= 0)%R).
    { rewrite <- ln_1. destruct Hp1 as [Hlt | ->]; [|lra].
      apply Rlt_le, ln_increasing; assumption. }
    nra.
  - destruct (Req_dec_T p 0) as [_|Hne]; [|exfalso; lra].
    destruct (Rlt_dec 0 e); [|contradiction].
    intros [= <-]. lra.
Qed.

Lemma precision_unit (pred_tokens label_tokens : list string) (n : nat) (p : R) :
  true_div (Z.of_nat (num_matches pred_tokens label_tokens n))
           (Z.of_nat (length pred_tokens) - Z.of_nat n + 1) = Some p ->
  (0 <= p <= 1)%R.
Proof.
  unfold true_div. pose proof (num_matches_le pred_tokens label_tokens n) as Hle.
  set (d := (Z.of_nat (length pred_tokens) - Z.of_nat n + 1)%Z) in *.
  destruct (Z.eqb_spec d 0) as [|Hd]; [discriminate|]. intros [= <-].
  destruct (Z_lt_le_dec d 0) as [Hneg|Hpos].
  - replace (num_matches pred_tokens label_tokens n) with 0 by lia.
    cbn. unfold Rdiv. rewrite Rmult_0_l. lra.
  - assert (Hd' : (0 < IZR d)%R) by (apply IZR_lt; lia).
    assert (Hm : (0 <= IZR (Z.of_nat (num_matches pred_tokens label_tokens n)) <= IZR d)%R).
    { split; apply IZR_le; lia. }
    split.
    + apply Rmult_le_pos; [lra|]. apply Rlt_le, Rinv_0_lt_compat. exact Hd'.
    + apply (Rmult_le_reg_r (IZR d)); [exact Hd'|].
      unfold Rdiv. rewrite Rmult_assoc, Rinv_l by lra. lra.
Qed.

(** The loop multiplies the score by factors between 0 and 1. *)
Lemma bleu_loop_bounded (pred_tokens label_tokens : list string) (ns : list nat) (score s : R) :
  (0 <= score)%R ->
  bleu_loop pred_tokens label_tokens ns score = Some s -> (0 <= s <= score)%R.
Proof.
  revert score. induction ns as [|n ns IH]; intros score Hscore; cbn [bleu_loop].
  - intros [= <-]. lra.
  - destruct (true_div _ _) as [p|] eqn:Ep; cbn [mbind option_bind]; [|discriminate].
    rewrite math_pow_half. cbn [mbind option_bind].
    destruct (math_pow p _) as [f|] eqn:Ef; cbn [mbind option_bind]; [|discriminate].
    apply precision_unit in Ep.
    apply math_pow_unit in Ef; [|exact Ep|apply Rpower_pos].
    intros Hrun. apply IH in Hrun; [|nra]. nra.
Qed.

(** X18.  Whenever [bleu] returns, its value is between 0 and the
    length penalty [exp(min(0, 1 - len_label / len_pred))], which is
    itself at most 1: the precisions can only lower the score. *)
Theorem bleu_at_most_length_penalty (pred_tokens label_tokens : list string) (k : Z)
    (s : R) :
  bleu pred_tokens label_tokens k = Some s ->
  (0 <= s <= exp (Rmin 0 (1 - IZR (Z.of_nat (length label_tokens))
                              / IZR (Z.of_nat (length pred_tokens)))))%R
  /\ (exp (Rmin 0 (1 - IZR (Z.of_nat (length label_tokens))
                       / IZR (Z.of_nat (length pred_tokens)))) <= 1)%R.
Proof.
  unfold bleu, true_div.
  destruct (Z.of_nat (length pred_tokens) =? 0)%Z; cbn [mbind option_bind]; [discriminate|].
  intros Hrun.
  destruct (exp_nonpos_le_1
              (Rmin 0 (1 - IZR (Z.of_nat (length label_tokens))
                           / IZR (Z.of_nat (length pred_tokens))))) as [H0 H1];
    [apply Rmin_l|].
  split; [|exact H1].
  apply (bleu_loop_bounded _ _ _ _ _ (Rlt_le _ _ H0) Hrun).
Qed.

(** *** Occurrence, by decomposition *)

Lemma prefix_decompose (s t : string) :
  String.prefix s t = true -> exists b, t = (s ++ b)%string.
Proof.
  revert s. induction t as [|c t IH]; intros [|a s]; cbn [String.prefix].
  - intros _. exists EmptyString. reflexivity.
  - discriminate.
  - intros _. exists (String c t). reflexivity.
  - destruct (ascii_dec a c) as [->|]; [|discriminate].
    intros Hp. apply IH in Hp as (b & ->). exists b. reflexivity.
Qed.

Lemma contains_decompose (sub s : string) :
  contains sub s = true -> exists a b, s = (a ++ sub ++ b)%string.
Proof.
  induction s as [|c s IH]; cbn [contains]; intros Hc.
  - rewrite orb_false_r in Hc. apply prefix_decompose in Hc as (b & Hb).
    exists EmptyString, b. exact Hb.
  - apply orb_true_iff in Hc as [Hp|Hc].
    + apply prefix_decompose in Hp as (b & Hb). exists EmptyString, b. exact Hb.
    + apply IH in Hc as (a & b & ->). exists (String c a), b. reflexivity.
Qed.

(** A text that occurs in a text that occurs in a third occurs in the
    third. *)
Lemma contains_trans (x y z : string) :
  contains x y = true -> contains y z = true -> contains x z = true.
Proof.
  intros Hxy Hyz.
  apply contains_decompose in Hxy as (a & b & ->).
  apply contains_decompose in Hyz as (c & d & ->).
  rewrite !append_assoc, <- (append_assoc c a). apply contains_middle.
Qed.

Section Matches.
Variables pred_tokens label_tokens : list string.

(** When the joined prediction occurs in the joined label, every
    [n]-gram of the prediction is counted. *)
Lemma num_matches_inside (n : nat) :
  contains (join " " pred_tokens) (join " " label_tokens) = true ->
  num_matches pred_tokens label_tokens n
  = Z.to_nat (Z.of_nat (length pred_tokens) - Z.of_nat n + 1).
Proof.
  intros Hin. unfold num_matches.
  rewrite List.forallb_filter_id.
  - apply length_seq.
  - apply forallb_forall. intros i _.
    eapply contains_trans; [apply contains_join_slice|exact Hin].
Qed.

Lemma bleu_loop_inside (ns : list nat) (score : R) :
  contains (join " " pred_tokens) (join " " label_tokens) = true ->
  Forall (fun n => (1 <= Z.of_nat n <= Z.of_nat (length pred_tokens))%Z) ns ->
  bleu_loop pred_tokens label_tokens ns score = Some score.
Proof.
  intros Hin Hns. revert score.
  induction Hns as [|n ns Hn Hns IH]; intros score; cbn [bleu_loop]; [reflexivity|].
  rewrite (num_matches_inside n Hin), Z2Nat.id by lia.
  rewrite true_div_Some by lia. cbn [mbind option_bind].
  rewrite math_pow_half. cbn [mbind option_bind].
  rewrite Rdiv_diag by (apply not_0_IZR; lia).
  rewrite math_pow_one. cbn [mbind option_bind].
  rewrite Rmult_1_r. apply IH.
Qed.

Lemma math_pow_zero (e : R) : (0 < e)%R -> math_pow 0 e = Some 0%R.
Proof.
  intros He. unfold math_pow.
  destruct (Rlt_dec 0 0) as [Hlt|_]; [exfalso; lra|].
  destruct (Req_dec_T 0 0) as [_|Hne]; [|contradiction].
  destruct (Rlt_dec 0 e); [reflexivity|contradiction].
Qed.

(** One step of the loop, when [n] is in range: it returns, with a
    factor that depends on the count of matches. *)
Lemma bleu_loop_step (n : nat) (ns : list nat) (score : R) :
  (1 <= Z.of_nat n <= Z.of_nat (length pred_tokens))%Z ->
  exists f,
    math_pow (IZR (Z.of_nat (num_matches pred_tokens label_tokens n))
              / IZR (Z.of_nat (length pred_tokens) - Z.of_nat n + 1))
             (Rpower (1 / 2) (INR n)) = Some f
    /\ bleu_loop pred_tokens label_tokens (n :: ns) score
       = bleu_loop pred_tokens label_tokens ns (score * f)%R.
Proof.
  intros Hn.
  destruct (math_pow_nonneg
              (IZR (Z.of_nat (num_matches pred_tokens label_tokens n))
               / IZR (Z.of_nat (length pred_tokens) - Z.of_nat n + 1))
              (Rpower (1 / 2) (INR n))) as [f Hf].
  - apply Rmult_le_pos.
    + apply IZR_le. lia.
    + apply Rlt_le, Rinv_0_lt_compat, IZR_lt. lia.
  - apply Rpower_pos.
  - exists f. split; [exact Hf|]. cbn [bleu_loop].
    rewrite true_div_Some by lia. cbn [mbind option_bind].
    rewrite math_pow_half. cbn [mbind option_bind].
    rewrite Hf. reflexivity.
Qed.

(** A score of zero stays zero. *)
Lemma bleu_loop_from_zero (ns : list nat) :
  Forall (fun n => (1 <= Z.of_nat n <= Z.of_nat (length pred_tokens))%Z) ns ->
  bleu_loop pred_tokens label_tokens ns 0 = Some 0%R.
Proof.
  induction 1 as [|n ns Hn Hns IH]; [reflexivity|].
  destruct (bleu_loop_step n ns 0 Hn) as (f & _ & ->).
  rewrite Rmult_0_l. exact IH.
Qed.

Lemma bleu_loop_no_match (n : nat) (ns : list nat) (score : R) :
  Forall (fun n => (1 <= Z.of_nat n <= Z.of_nat (length pred_tokens))%Z) ns ->
  n ∈ ns ->
  num_matches pred_tokens label_tokens n = 0 ->
  bleu_loop pred_tokens label_tokens ns score = Some 0%R.
Proof.
  intros Hns Hin Hzero. revert score.
  induction Hns as [|n' ns Hn' Hns IH]; intros score; [inversion Hin|].
  destruct (bleu_loop_step n' ns score Hn') as (f & Hf & ->).
  destruct (decide (n' = n)) as [->|Hne].
  - rewrite Hzero in Hf. unfold Rdiv in Hf. rewrite Rmult_0_l in Hf.
    rewrite math_pow_zero in Hf by apply Rpower_pos. injection Hf as <-.
    rewrite Rmult_0_r. apply bleu_loop_from_zero. exact Hns.
  - apply IH. apply elem_of_cons in Hin as [Heq|Hin]; [congruence|exact Hin].
Qed.

(** [bleu] returns exactly when the prediction has [max(k, 1)] tokens
    or more. *)
Lemma bleu_returns_iff (k : Z) :
  is_Some (bleu pred_tokens label_tokens k)
  <-> (Z.max k 1 <= Z.of_nat (length pred_tokens))%Z.
Proof.
  split.
  - intros Hsome. unfold bleu in Hsome.
    destruct (decide (length pred_tokens = 0)) as [E0|Hpos].
    { rewrite E0 in Hsome. cbn in Hsome. destruct Hsome as [? [=]]. }
    rewrite true_div_Some in Hsome by lia. cbn [mbind option_bind] in Hsome.
    destruct (Z_lt_le_dec (Z.of_nat (length pred_tokens)) k) as [Hshort|Hok]; [|lia].
    rewrite bleu_loop_raises in Hsome; [destruct Hsome as [? [=]]|].
    apply list_elem_of_In, in_seq. lia.
  - intros Hpre. unfold bleu.
    rewrite true_div_Some by lia. cbn [mbind option_bind].
    apply bleu_loop_returns, range_1_k. lia.
Qed.

End Matches.

(** X19.  [bleu] finds an n-gram of the prediction in the label by
    looking for its text, joined by spaces, inside the joined text of the
    label: characters are compared, not tokens.  So whenever the joined
    prediction occurs in the joined label (as "he" does in "they"),
    every n-gram counts as found and [bleu] returns the length penalty
    [exp(min(0, 1 - len_label / len_pred))] alone. *)
Theorem bleu_matches_by_substring (pred_tokens label_tokens : list string) (k : Z) :
  (Z.max k 1 <= Z.of_nat (length pred_tokens))%Z ->
  contains (join " " pred_tokens) (join " " label_tokens) = true ->
  bleu pred_tokens label_tokens k
  = Some (exp (Rmin 0 (1 - IZR (Z.of_nat (length label_tokens))
                           / IZR (Z.of_nat (length pred_tokens))))).
Proof.
  intros Hpre Hin. unfold bleu.
  rewrite true_div_Some by lia. cbn [mbind option_bind].
  apply bleu_loop_inside; [exact Hin|]. apply range_1_k. lia.
Qed.

(** The prediction "he" against the label "they". *)
Lemma bleu_matches_by_substring_witness :
  bleu ["he"]%string ["they"]%string 1
  = Some (exp (Rmin 0 (1 - IZR (Z.of_nat (length ["they"%string]))
                           / IZR (Z.of_nat (length ["he"%string]))))).
Proof.
  apply bleu_matches_by_substring; [simpl; lia|reflexivity].
Defined.

(** X20.  If for some [n] between 1 and [k], and no more than 1074, no
    n-gram of the prediction is found in the label, [bleu] returns 0,
    whatever the other n-grams do.  The bound 1074 is that of the floats
    behind the real numbers: [math.pow(0.5, n)] is a positive float up to
    there, and is 0.0 from 1075 on, where a precision of zero contributes
    the factor [math.pow(0.0, 0.0)], which is 1.0. *)
Theorem bleu_zero_without_match (pred_tokens label_tokens : list string) (k : Z) (n : nat) :
  (Z.max k 1 <= Z.of_nat (length pred_tokens))%Z ->
  (1 <= Z.of_nat n <= k)%Z ->
  (Z.of_nat n <= 1074)%Z ->
  num_matches pred_tokens label_tokens n = 0 ->
  bleu pred_tokens label_tokens k = Some 0%R.
Proof.
  intros Hpre Hn _ Hzero. unfold bleu.
  rewrite true_div_Some by lia. cbn [mbind option_bind].
  apply (bleu_loop_no_match _ _ n); [apply range_1_k; lia| |exact Hzero].
  apply list_elem_of_In, in_seq. lia.
Qed.

(** Both words of the prediction occur in the label, the pair
    "they run" does not. *)
Lemma bleu_zero_without_match_witness :
  bleu ["they"; "run"]%string ["they"; "are"; "watching"; "."]%string 2 = Some 0%R.
Proof.
  apply (bleu_zero_without_match _ _ 2 2); [simpl; lia|lia|lia|reflexivity].
Defined.

(** A prediction that is the label scores 1, the length penalty. *)
Lemma bleu_at_most_length_penalty_witness :
  bleu ["they"; "are"]%string ["they"; "are"]%string 2 = Some 1%R
  /\ (0 <= 1 <= exp (Rmin 0 (1 - IZR (Z.of_nat (length ["they"; "are"]%string))
                                 / IZR (Z.of_nat (length ["they"; "are"]%string)))))%R
  /\ (exp (Rmin 0 (1 - IZR (Z.of_nat (length ["they"; "are"]%string))
                       / IZR (Z.of_nat (length ["they"; "are"]%string)))) <= 1)%R.
Proof.
  assert (Hrun : bleu ["they"; "are"]%string ["they"; "are"]%string 2 = Some 1%R).
  { unfold bleu. rewrite true_div_Some by (simpl; lia). cbn [mbind option_bind].
    rewrite Rdiv_diag by (apply not_0_IZR; simpl; lia).
    rewrite Rminus_diag, Rmin_left, exp_0 by lra.
    apply bleu_loop_self, range_1_k. simpl. lia. }
  split; [exact Hrun|].
  exact (bleu_at_most_length_penalty ["they"; "are"]%string ["they"; "are"]%string
           2 1%R Hrun).
Defined.

End Bleu_facts.

(** ** Translating and scoring *)
Module Scoring_facts.
Import Py MachineTranslation Prediction Evaluation Scoring Bleu_facts.

Section Facts.
Variable m : Seq2Seq.
Variables in_vocab out_vocab : Vocabulary.

(** The tokens the loop collects are tokens of the output vocabulary. *)
Lemma greedy_in_vocab (n : nat) (dec_input : nat) (dec_state : State m)
    (enc_output : EncOut m) (acc out : list string) :
  greedy m out_vocab n dec_input dec_state enc_output acc = Some out ->
  exists new, out = acc ++ new /\ Forall (fun t => t ∈ idx_to_token out_vocab) new.
Proof.
  revert dec_input dec_state acc.
  induction n as [|n IH]; intros dec_input dec_state acc; cbn [greedy].
  - intros [= <-]. exists []. rewrite app_nil_r. split; [reflexivity|constructor].
  - destruct (decoder m dec_input dec_state enc_output) as [dec_output dec_state'].
    destruct (idx_to_token out_vocab !! argmax m dec_output) as [pred_token|] eqn:Hlook;
      cbn [mbind option_bind]; [|discriminate].
    destruct (String.eqb pred_token EOS).
    + intros [= <-]. exists []. rewrite app_nil_r. split; [reflexivity|constructor].
    + intros Hrun. apply IH in Hrun as (new & -> & Hnew).
      exists (pred_token :: new). rewrite <- app_assoc.
      split; [reflexivity|]. constructor; [|exact Hnew].
      eapply list_elem_of_lookup_2. exact Hlook.
Qed.

(** A decoder that never predicts the end of the sequence fills all [n]
    steps. *)
Lemma greedy_never_stops (n : nat) (dec_input : nat) (dec_state : State m)
    (enc_output : EncOut m) (acc : list string) :
  (forall s, exists tok, idx_to_token out_vocab !! argmax m s = Some tok /\ tok <> EOS) ->
  exists new,
    greedy m out_vocab n dec_input dec_state enc_output acc = Some (acc ++ new)
    /\ length new = n.
Proof.
  intros Hnever. revert dec_input dec_state acc.
  induction n as [|n IH]; intros dec_input dec_state acc; cbn [greedy].
  - exists []. rewrite app_nil_r. split; reflexivity.
  - destruct (decoder m dec_input dec_state enc_output) as [dec_output dec_state'].
    destruct (Hnever dec_output) as (tok & -> & Hneq). cbn [mbind option_bind].
    rewrite (proj2 (String.eqb_neq tok EOS) Hneq).
    destruct (IH (argmax m dec_output) dec_state' (acc ++ [tok])) as (new & -> & Hlen).
    exists (tok :: new). rewrite <- app_assoc. split; [reflexivity|].
    cbn [length]. rewrite Hlen. reflexivity.
Qed.

(** X21.  Every token [translate] returns is a token of the output
    vocabulary. *)
Theorem translate_emits_vocabulary_tokens (input_seq : string) (max_seq_len : Z)
    (out : list string) :
  translate m in_vocab out_vocab input_seq max_seq_len = Some out ->
  Forall (fun t => t ∈ idx_to_token out_vocab) out.
Proof.
  unfold translate. destruct (encoder m _) as [enc_output enc_state].
  destruct (token_to_idx out_vocab BOS) as [dec_input|];
    cbn [mbind option_bind]; [|discriminate].
  intros Hrun. apply greedy_in_vocab in Hrun as (new & -> & Hnew). exact Hnew.
Qed.

(** X22.  When the decoder never predicts the end of the sequence,
    [translate] stops only at the bound: it returns exactly
    [max_seq_len] tokens (none for a bound that is zero or negative). *)
Theorem translate_fills_max_seq_len (input_seq : string) (max_seq_len : Z) :
  is_Some (token_to_idx out_vocab BOS) ->
  (forall s, exists tok, idx_to_token out_vocab !! argmax m s = Some tok /\ tok <> EOS) ->
  exists out,
    translate m in_vocab out_vocab input_seq max_seq_len = Some out
    /\ length out = Z.to_nat max_seq_len.
Proof.
  intros [dec_input Hbos] Hnever. unfold translate.
  destruct (encoder m _) as [enc_output enc_state].
  rewrite Hbos. cbn [mbind option_bind].
  destruct (greedy_never_stops (Z.to_nat max_seq_len) dec_input
              (begin_state m enc_state) enc_output [] Hnever) as (new & Hrun & Hlen).
  exists new. split; assumption.
Qed.

(** X23.  [score] returns exactly when [translate] returns a
    translation of at least [max(k, 1)] tokens: a shorter one makes
    [bleu] divide by zero. *)
Theorem score_returns_iff (max_seq_len : Z) (input_seq label_seq : string) (k : Z) :
  is_Some (score m in_vocab out_vocab max_seq_len input_seq label_seq k)
  <-> exists pred_tokens,
        translate m in_vocab out_vocab input_seq max_seq_len = Some pred_tokens
        /\ (Z.max k 1 <= Z.of_nat (length pred_tokens))%Z.
Proof.
  unfold score.
  destruct (translate m in_vocab out_vocab input_seq max_seq_len) as [pred_tokens|];
    cbn [mbind option_bind].
  - split.
    + intros Hsome. exists pred_tokens. split; [reflexivity|].
      apply (bleu_returns_iff pred_tokens (split space label_seq) k).
      destruct (bleu _ _ _); [eauto|destruct Hsome as [? [=]]].
    + intros (p & [= <-] & Hlen).
      apply (bleu_returns_iff pred_tokens (split space label_seq) k) in Hlen as [b ->].
      cbn [mbind option_bind]. eauto.
  - split; [intros [? [=]]|intros (p & [=] & _)].
Qed.

(** When the first prediction is the end of the sequence, the
    translation is empty. *)
Lemma translate_eos_first (input_seq : string) (max_seq_len : Z) (bos : nat) :
  token_to_idx out_vocab BOS = Some bos ->
  (let enc := encoder m (to_indices in_vocab (padded max_seq_len (split space input_seq))) in
   idx_to_token out_vocab
     !! argmax m (decoder m bos (begin_state m enc.2) enc.1).1 = Some EOS) ->
  translate m in_vocab out_vocab input_seq max_seq_len = Some [].
Proof.
  intros Hbos. unfold translate, padded. cbn zeta.
  destruct (encoder m _) as [enc_output enc_state]. cbn [fst snd].
  rewrite Hbos. cbn [mbind option_bind]. intros Hfirst.
  destruct (Z.to_nat max_seq_len) as [|n]; [reflexivity|]. cbn [greedy].
  destruct (decoder m bos (begin_state m enc_state) enc_output) as [dec_output dec_state'].
  cbn [fst] in Hfirst. rewrite Hfirst. reflexivity.
Qed.

(** X24.  When the first token the decoder predicts is the end of the
    sequence, [translate] returns the empty list and [score] raises
    [ZeroDivisionError], whatever the label and [k]. *)
Theorem score_raises_on_empty_translation (max_seq_len : Z) (input_seq label_seq : string)
    (k : Z) (bos : nat) :
  token_to_idx out_vocab BOS = Some bos ->
  (let enc := encoder m (to_indices in_vocab (padded max_seq_len (split space input_seq))) in
   idx_to_token out_vocab
     !! argmax m (decoder m bos (begin_state m enc.2) enc.1).1 = Some EOS) ->
  translate m in_vocab out_vocab input_seq max_seq_len = Some []
  /\ score m in_vocab out_vocab max_seq_len input_seq label_seq k = None.
Proof.
  intros Hbos Hfirst.
  pose proof (translate_eos_first input_seq max_seq_len bos Hbos Hfirst) as Htr.
  split; [exact Htr|]. unfold score. rewrite Htr. reflexivity.
Qed.

End Facts.

(** The toy model translates to "they are". *)
Lemma translate_emits_vocabulary_tokens_witness :
  Forall (fun t => t ∈ idx_to_token toy_vocab) ["they"; "are"]%string.
Proof.
  apply (translate_emits_vocabulary_tokens toy_model toy_vocab toy_vocab
           "ils regardent ." 7).
  reflexivity.
Defined.

(** A decoder that predicts "they" at every step. *)
Lemma translate_fills_max_seq_len_witness :
  exists out,
    translate (constant_model 4) toy_vocab toy_vocab "ils regardent ." 7 = Some out
    /\ length out = Z.to_nat 7.
Proof.
  apply translate_fills_max_seq_len.
  - eexists. reflexivity.
  - intros s. exists "they"%string. split; [reflexivity|discriminate].
Defined.

(** A decoder that predicts the end of the sequence at once. *)
Lemma score_raises_on_empty_translation_witness :
  translate (constant_model 3) toy_vocab toy_vocab "ils regardent ." 7 = Some []
  /\ score (constant_model 3) toy_vocab toy_vocab 7 "ils regardent ." "they are watching ." 2
     = None.
Proof.
  apply (score_raises_on_empty_translation (constant_model 3) toy_vocab toy_vocab
           7 "ils regardent ." "they are watching ." 2 2); reflexivity.
Defined.

End Scoring_facts.
